(** * python-tools: the SQL statement builder, the MongoDB upsert executors,
      the Redis client and the RabbitMQ connector

    A shallow embedding of [tool_mysql.py], [tool_mongo.py], [tool_redis.py]
    and [tool_rabbitmq.py].  Python objects are modelled by inductive types,
    [str] by [string] (one [ascii] per code point, so the model covers the
    code points 0..255), [int] by [Z], a [dict] by an association list in
    insertion order, and a call that may raise by the result type [pyres]. *)

From Stdlib Require Import ZArith List String Ascii Bool Lia.
From Stdlib Require Import DecimalString DecimalPos DecimalZ.
From stdpp Require Import base gmap list strings.

Import ListNotations.
Local Open Scope string_scope.
Local Open Scope Z_scope.

(** ** Python objects and the built-ins the tools call *)

Module Py.

(** The values a record field can hold.  A [datetime.date] or
    [datetime.time] object is identified by the text [str()] gives for it,
    a [list] or [dict] by the text [dumps_json] serialises it to. *)
Inductive value : Type :=
  | VNone
  | VBool (b : bool)
  | VInt (z : Z)
  | VStr (s : string)
  | VTemporal (iso : string)
  | VComposite (dumped : string).

(** The objects that reach [repr] and [str] in the builders: what
    [format_sql_value] returns for the values above. *)
Inductive atom : Type :=
  | ANone
  | AInt (z : Z)
  | AStr (s : string).

(** A [dict] with [str] keys, in insertion order. *)
Definition dict (V : Type) : Type := list (string * V).

(** One entry of [BulkWriteError.details["writeErrors"]]. *)
Record write_error : Type := {
  code : Z;
  op : dict value;
  errmsg : string
}.

(** The exceptions the modelled code raises or lets through. *)
Inductive exn : Type :=
  | KeyError (key : string)
  | TypeError
  | AttributeError
  | FormatError
  | ValidationError
  | ConnectionError
  | TimeoutError
  | ResponseError
  | DuplicateKeyError (msg : string)
  | BulkWriteError (writeErrors : list write_error)
  | OtherError (what : string).

(** Outcome of a call: a returned object or a raised exception. *)
Inductive pyres (A : Type) : Type :=
  | Ret (a : A)
  | Raise (e : exn).
Arguments Ret {A} a.
Arguments Raise {A} e.

Definition bind {A B : Type} (m : pyres A) (k : A -> pyres B) : pyres B :=
  match m with
  | Ret a => k a
  | Raise e => Raise e
  end.

Notation "'do' x <- m ; k" := (bind m (fun x => k))
  (at level 10, x name, m at level 100, k at level 200).

(** A call that also reads and writes a world [W] (a database, a
    connection): the world is threaded through, and survives a raise. *)
Definition io (W A : Type) : Type := W -> pyres A * W.

Definition io_ret {W A : Type} (a : A) : io W A := fun w => (Ret a, w).
Definition io_raise {W A : Type} (e : exn) : io W A := fun w => (Raise e, w).
Definition io_lift {W A : Type} (r : pyres A) : io W A := fun w => (r, w).

Definition io_bind {W A B : Type} (m : io W A) (k : A -> io W B) : io W B :=
  fun w =>
    match m w with
    | (Ret a, w') => k a w'
    | (Raise e, w') => (Raise e, w')
    end.

Notation "'run' x <- m ; k" := (io_bind m (fun x => k))
  (at level 10, x name, m at level 100, k at level 200).

Fixpoint dict_get {V : Type} (k : string) (d : dict V) : option V :=
  match d with
  | [] => None
  | (k', v) :: d' => if String.eqb k k' then Some v else dict_get k d'
  end.

(** [d[k] = v]: overwrite in place, or append a new key. *)
Fixpoint dict_set {V : Type} (k : string) (v : V) (d : dict V) : dict V :=
  match d with
  | [] => [(k, v)]
  | (k', v') :: d' =>
      if String.eqb k k' then (k', v) :: d' else (k', v') :: dict_set k v d'
  end.

(** [dict(pairs)] and dict comprehensions: later pairs overwrite. *)
Definition dict_of_pairs {V : Type} (ps : list (string * V)) : dict V :=
  fold_left (fun d p => dict_set (fst p) (snd p) d) ps [].

Definition dict_keys {V : Type} (d : dict V) : list string := map fst d.
Definition dict_values {V : Type} (d : dict V) : list V := map snd d.

(** [str(int)]. *)
Definition str_int (z : Z) : string := NilZero.string_of_int (Z.to_int z).

(** *** [repr] of a [str] *)

Definition squote : ascii := "039"%char.
Definition dquote : ascii := "034"%char.
Definition backslash : ascii := "092"%char.

Fixpoint contains_char (c : ascii) (s : string) : bool :=
  match s with
  | EmptyString => false
  | String c' s' => Ascii.eqb c c' || contains_char c s'
  end.

(** [str.isprintable] on the code points 0..255, with the space counted as
    printable as [repr] does. *)
Definition printable (c : ascii) : bool :=
  let n := nat_of_ascii c in
  ((32 <=? n)%nat && (n <? 127)%nat)
  || ((161 <=? n)%nat && negb (n =? 173)%nat).

Definition hex_digit (n : nat) : ascii :=
  if (n <? 10)%nat then ascii_of_nat (48 + n) else ascii_of_nat (87 + n).

Definition repr_char (q c : ascii) : string :=
  if Ascii.eqb c q || Ascii.eqb c backslash then String backslash (String c "")
  else if Ascii.eqb c "009"%char then String backslash "t"
  else if Ascii.eqb c "010"%char then String backslash "n"
  else if Ascii.eqb c "013"%char then String backslash "r"
  else if printable c then String c ""
  else
    let n := nat_of_ascii c in
    String backslash
      (String "x" (String (hex_digit (n / 16)) (String (hex_digit (n mod 16)) ""))).

Fixpoint repr_body (q : ascii) (s : string) : string :=
  match s with
  | EmptyString => ""
  | String c s' => repr_char q c ++ repr_body q s'
  end.

(** The quote is the double quote only when the text holds a single quote
    and no double quote. *)
Definition repr_quote (s : string) : ascii :=
  if contains_char squote s && negb (contains_char dquote s)
  then dquote else squote.

Definition repr_str (s : string) : string :=
  let q := repr_quote s in
  String q (repr_body q s ++ String q "").

Definition repr (a : atom) : string :=
  match a with
  | ANone => "None"
  | AInt z => str_int z
  | AStr s => repr_str s
  end.

(** [str(x)], which is also what ["{v}".format(v=x)] inserts. *)
Definition str (a : atom) : string :=
  match a with
  | ANone => "None"
  | AInt z => str_int z
  | AStr s => s
  end.

(** *** [str.strip], [str.join], [str.replace] *)

Definition whitespace (c : ascii) : bool :=
  let n := nat_of_ascii c in
  ((9 <=? n)%nat && (n <=? 13)%nat)
  || ((28 <=? n)%nat && (n <=? 32)%nat)
  || (n =? 133)%nat || (n =? 160)%nat.

Fixpoint lstrip (s : string) : string :=
  match s with
  | EmptyString => ""
  | String c s' => if whitespace c then lstrip s' else s
  end.

Fixpoint rstrip (s : string) : string :=
  match s with
  | EmptyString => ""
  | String c s' =>
      match rstrip s' with
      | EmptyString => if whitespace c then "" else String c ""
      | r => String c r
      end
  end.

Definition strip (s : string) : string := rstrip (lstrip s).

Fixpoint join (sep : string) (l : list string) : string :=
  match l with
  | [] => ""
  | [x] => x
  | x :: l' => x ++ sep ++ join sep l'
  end.

(** [s.replace(old, new)] for a non-empty [old]: a left-to-right scan over
    non-overlapping occurrences.  [skip] counts the characters of a matched
    occurrence still to be dropped. *)
Fixpoint replace_from (old new : string) (skip : nat) (s : string) : string :=
  match s with
  | EmptyString => ""
  | String c s' =>
      match skip with
      | S k => replace_from old new k s'
      | O =>
          if String.prefix old s
          then new ++ replace_from old new (Nat.pred (String.length old)) s'
          else String c (replace_from old new O s')
      end
  end.

Definition replace (old new s : string) : string := replace_from old new 0 s.

End Py.

(** ** [tool_mysql.py]: the SQL statement builder *)

Module Mysql.
Import Py.

(** [format_sql_value]: the [isinstance] chain, in the order of the source. *)
Definition format_sql_value (v : value) : atom :=
  match v with
  | VStr s => AStr (strip s)
  | VComposite dumped => AStr dumped
  | VTemporal iso => AStr iso
  | VBool b => AInt (if b then 1 else 0)
  | VNone => ANone
  | VInt z => AInt z
  end.

(** [str(tuple(datas))]. *)
Definition tuple_str (datas : list atom) : string :=
  match datas with
  | [] => "()"
  | [x] => "(" ++ repr x ++ ",)"
  | _ => "(" ++ join ", " (map repr datas) ++ ")"
  end.

Definition newline : ascii := "010"%char.

(** [re.sub(",\)$", ")", s)]: [$] matches at the end of the text and
    before a newline that ends it. *)
Fixpoint re_sub_comma_paren (s : string) : string :=
  match s with
  | EmptyString => ""
  | String c s' =>
      if String.eqb s ",)" then ")"
      else if String.eqb s (String "," (String ")" (String newline "")))
      then String ")" (String newline "")
      else String c (re_sub_comma_paren s')
  end.

Definition list2str (datas : list atom) : string :=
  re_sub_comma_paren (tuple_str datas).

(** [str.format] with keyword arguments, for named replacement fields.  A field
    name is looked up whole: conversions, format specs and attribute access
    are outside the model.  [FormatError] stands for the [ValueError] and
    [IndexError] of a malformed template. *)
Inductive fstate : Type :=
  | FText
  | FOpen
  | FClose
  | FField (name : string).

Fixpoint format_from (kw : dict string) (st : fstate) (s : string)
  : pyres string :=
  match s with
  | EmptyString =>
      match st with
      | FText => Ret ""
      | _ => Raise FormatError
      end
  | String c s' =>
      match st with
      | FText =>
          if Ascii.eqb c "{" then format_from kw FOpen s'
          else if Ascii.eqb c "}" then format_from kw FClose s'
          else do r <- format_from kw FText s'; Ret (String c r)
      | FOpen =>
          if Ascii.eqb c "{"
          then do r <- format_from kw FText s'; Ret (String "{" r)
          else if Ascii.eqb c "}" then Raise FormatError
          else format_from kw (FField (String c "")) s'
      | FClose =>
          if Ascii.eqb c "}"
          then do r <- format_from kw FText s'; Ret (String "}" r)
          else Raise FormatError
      | FField name =>
          if Ascii.eqb c "}" then
            match dict_get name kw with
            | Some v => do r <- format_from kw FText s'; Ret (v ++ r)
            | None => Raise (KeyError name)
            end
          else if Ascii.eqb c "{" then Raise FormatError
          else format_from kw (FField (name ++ String c "")) s'
      end
  end.

Definition format (template : string) (kw : dict string) : pyres string :=
  format_from kw FText template.

(** The [update_columns] argument: a tuple or list of column names, or a
    single name that the builders wrap into a list. *)
Inductive columns : Type :=
  | ColSeq (names : list string)
  | ColOne (name : string).

(** Python truth value of the argument. *)
Definition columns_truthy (c : columns) : bool :=
  match c with
  | ColSeq [] => false
  | ColSeq _ => true
  | ColOne name => negb (String.eqb name "")
  end.

(** [if not isinstance(update_columns, (tuple, list)): update_columns =
    [update_columns]]. *)
Definition columns_list (c : columns) : list string :=
  match c with
  | ColSeq names => names
  | ColOne name => [name]
  end.

Definition backticked (key : string) : atom := AStr ("`" ++ key ++ "`").

Definition make_insert_sql (table : string) (data : dict value)
    (auto_update : bool) (update_columns : columns) (insert_ignore : bool)
  : pyres string :=
  let keys := replace "'" "" (list2str (map backticked (dict_keys data))) in
  let values := list2str (map format_sql_value (dict_values data)) in
  let ignore := if insert_ignore then " ignore" else "" in
  let template :=
    if columns_truthy update_columns then
      let update_columns_ :=
        join ", "
          (map (fun key => key ++ "=values(" ++ key ++ ")")
               (columns_list update_columns)) in
      "insert" ++ ignore
        ++ " into `{table}` {keys} values {values} on duplicate key update "
        ++ update_columns_
    else if auto_update then "replace into `{table}` {keys} values {values}"
    else "insert" ++ ignore ++ " into `{table}` {keys} values {values}" in
  do sql <- format template
              [("table", table); ("keys", keys); ("values", values)];
  Ret (replace "None" "null" sql).

(** Iteration order of a Python [set] built from a list of keys: every
    key once, in an order the hash table decides. *)
Record set_order : Type := {
  set_iter : list string -> list string;
  set_iter_nodup : forall l, List.NoDup (set_iter l);
  set_iter_elem : forall l x, In x (set_iter l) <-> In x l
}.

(** [make_batch_sql] returns [None] or the pair [(sql, values)]. *)
Definition make_batch_sql (order : set_order) (table : string)
    (datas : list (dict value)) (auto_update : bool)
    (update_columns : columns) (update_columns_value : list atom)
  : pyres (option (string * list (list atom))) :=
  match datas with
  | [] => Ret None
  | _ =>
      let keys := set_iter order (concat (map dict_keys datas)) in
      let values_placeholder := map (fun _ => AStr "%s") keys in
      let values :=
        map (fun data =>
               map (fun key =>
                      match dict_get key data with
                      | Some current_data => format_sql_value current_data
                      | None => format_sql_value VNone
                      end) keys) datas in
      let keys := replace "'" "" (list2str (map backticked keys)) in
      let values_placeholder := replace "'" "" (list2str values_placeholder) in
      do sql <-
        (if negb (columns_truthy update_columns) then
           if auto_update then
             format "replace into `{table}` {keys} values {values_placeholder}"
               [("table", table); ("keys", keys);
                ("values_placeholder", values_placeholder)]
           else
             format
               "insert ignore into `{table}` {keys} values {values_placeholder}"
               [("table", table); ("keys", keys);
                ("values_placeholder", values_placeholder)]
         else
           let update_columns := columns_list update_columns in
           let update_columns_ :=
             match update_columns_value with
             | _ :: _ =>
                 join ", "
                   (map (fun kv => "`" ++ fst kv ++ "`=" ++ str (snd kv))
                        (combine update_columns update_columns_value))
             | [] =>
                 join ", "
                   (map (fun key => "`" ++ key ++ "`=values(`" ++ key ++ "`)")
                        update_columns)
             end in
           format
             "insert into `{table}` {keys} values {values_placeholder} on duplicate key update {update_columns}"
             [("table", table); ("keys", keys);
              ("values_placeholder", values_placeholder);
              ("update_columns", update_columns_)]);
      Ret (Some (sql, values))
  end.

(** [MysqlDB.add_batch_smart]: [sql, datas = make_batch_sql(...)] cannot
    unpack [None]; [add_batch] stands for [MysqlDB.add_batch], which submits
    the statement with [executemany]. *)
Definition add_batch_smart {R : Type}
    (add_batch : string -> list (list atom) -> pyres R)
    (order : set_order) (table : string) (datas : list (dict value))
    (auto_update : bool) (update_columns : columns)
    (update_columns_value : list atom) : pyres R :=
  do r <- make_batch_sql order table datas auto_update update_columns
            update_columns_value;
  match r with
  | None => Raise TypeError
  | Some (sql, datas) => add_batch sql datas
  end.

(** [make_update_sql]: ["`{}`={}".format(key, x)] fills its two fields in
    order; the statement itself goes through [str.format] with keyword
    arguments. *)
Definition make_update_sql (table : string) (data : dict value)
    (condition : string) : pyres string :=
  let key_values :=
    map (fun kv =>
           let key := fst kv in
           match format_sql_value (snd kv) with
           | AStr s => "`" ++ key ++ "`=" ++ repr (AStr s)
           | ANone => "`" ++ key ++ "`=" ++ "null"
           | AInt z => "`" ++ key ++ "`=" ++ str (AInt z)
           end) data in
  let key_values := join ", " key_values in
  format "update `{table}` set {key_values} where {condition}"
    [("table", table); ("key_values", key_values); ("condition", condition)].

(** *** [MysqlDB]: the executors *)

(** The pool, the connection and the cursor as the executors drive them,
    over a server state [W].  [get_connection] stands for the method of that
    name, which takes a connection from the pool and opens its cursor. *)
Record driver (W : Type) : Type := {
  get_connection : io W unit;
  cursor_execute : string -> list atom -> io W Z;
  cursor_executemany : string -> list (list atom) -> io W Z;
  cursor_fetchone : io W (option (list value));
  cursor_fetchmany : Z -> io W (list (list value));
  cursor_fetchall : io W (list (list value));
  cursor_description : W -> list string;
  conn_commit : io W unit;
  conn_close : io W unit;
  cursor_close : io W unit;
  cursor_lastrowid : W -> Z
}.
Arguments get_connection {W} _ _.
Arguments cursor_execute {W} _ _ _ _.
Arguments cursor_executemany {W} _ _ _ _.
Arguments cursor_fetchone {W} _ _.
Arguments cursor_fetchmany {W} _ _ _.
Arguments cursor_fetchall {W} _ _.
Arguments cursor_description {W} _ _.
Arguments conn_commit {W} _ _.
Arguments conn_close {W} _ _.
Arguments cursor_close {W} _ _.
Arguments cursor_lastrowid {W} _ _.

Section Executors.
Context {W : Type} (db : driver W).

(** [close_connection(conn, cursor)]; [have] tells whether the two were
    obtained, both being [None] otherwise. *)
Definition close_connection (have : bool) : io W unit :=
  if have then run _ <- conn_close db; cursor_close db
  else io_ret tt.

(** [MysqlDB.add]: the [try] body, the handler, the [finally] clause, and
    then [return cursor.lastrowid]. *)
Definition add (sql : string) (params : list atom)
    (exception_callfunc : option (exn -> io W unit)) : io W Z :=
  fun w =>
    let '(have, outcome, w1) :=
      match get_connection db w with
      | (Raise e, w1) => (false, Raise e, w1)
      | (Ret _, w1) =>
          let (r, w2) :=
            (run _ <- cursor_execute db sql params; conn_commit db) w1 in
          (true, r, w2)
      end in
    let (handled, w2) :=
      match outcome with
      | Ret _ => (Ret tt, w1)
      | Raise e =>
          match exception_callfunc with
          | Some callfunc => callfunc e w1
          | None => (Ret tt, w1)
          end
      end in
    let (closed, w3) := close_connection have w2 in
    match closed, handled with
    | Raise e, _ => (Raise e, w3)
    | Ret _, Raise e => (Raise e, w3)
    | Ret _, Ret _ =>
        if have then (Ret (cursor_lastrowid db w3), w3)
        else (Raise AttributeError, w3)
    end.

(** [MysqlDB.add_batch]: [affect_count] is [None] until [executemany] has
    returned. *)
Definition add_batch (sql : string) (datas : list (list atom))
  : io W (option Z) :=
  fun w =>
    let '(have, affect_count, w1) :=
      match get_connection db w with
      | (Raise _, w1) => (false, None, w1)
      | (Ret _, w1) =>
          match cursor_executemany db sql datas w1 with
          | (Raise _, w2) => (true, None, w2)
          | (Ret n, w2) =>
              let (_, w3) := conn_commit db w2 in
              (true, Some n, w3)
          end
      end in
    match close_connection have w1 with
    | (Ret _, w2) => (Ret affect_count, w2)
    | (Raise e, w2) => (Raise e, w2)
    end.

(** What [find] returns: [None], one row, the rows, or with [to_json] one
    dict or a list of dicts. *)
Inductive found : Type :=
  | FoundNone
  | FoundRow (row : list value)
  | FoundRows (rows : list (list value))
  | FoundDict (record : dict value)
  | FoundDicts (records : list (dict value)).

(** The inner [convert] of [find]; [json_loads] stands for [json.loads]. *)
Definition convert (json_loads : string -> pyres value) (col : value)
  : value :=
  match col with
  | VTemporal iso => VStr iso
  | VStr s =>
      if String.prefix "{" s || String.prefix "[" s then
        match json_loads s with
        | Ret loaded => loaded
        | Raise _ => col
        end
      else col
  | _ => col
  end.

(** [MysqlDB.find]; iterating over [None] raises [TypeError]. *)
Definition find (json_loads : string -> pyres value) (sql : string)
    (params : list atom) (limit : Z) (to_json conver_col : bool)
  : io W found :=
  run _ <- get_connection db;
  run _ <- cursor_execute db sql params;
  run result <-
    (if limit =? 1 then
       run row <- cursor_fetchone db;
       io_ret (match row with
               | Some row => FoundRow row
               | None => FoundNone
               end)
     else if 1 <? limit then
       run rows <- cursor_fetchmany db limit; io_ret (FoundRows rows)
     else
       run rows <- cursor_fetchall db; io_ret (FoundRows rows));
  run result <-
    (if to_json then
       fun w =>
         let columns := cursor_description db w in
         if limit =? 1 then
           match result with
           | FoundRow row =>
               let row :=
                 if conver_col then map (convert json_loads) row else row in
               (Ret (FoundDict (dict_of_pairs (combine columns row))), w)
           | _ => (Raise TypeError, w)
           end
         else
           match result with
           | FoundRows rows =>
               let rows :=
                 if conver_col then map (map (convert json_loads)) rows
                 else rows in
               (Ret (FoundDicts
                       (map (fun r => dict_of_pairs (combine columns r)) rows)),
                w)
           | _ => (Raise TypeError, w)
           end
     else io_ret result);
  run _ <- close_connection true;
  io_ret result.

End Executors.

End Mysql.

(** ** [tool_mongo.py]: the single-record and batch upsert executors *)

Module Mongo.
Import Py.
Import Mysql (columns, ColSeq, ColOne, columns_truthy, columns_list).

Definition document : Type := dict value.

(** The pymongo [Collection] the executors drive, over a server state [S].
    [insert_one] raises [DuplicateKeyError]; [insert_many] is the unordered
    bulk insert and raises [BulkWriteError] with its write errors. *)
Record collection (S : Type) : Type := {
  insert_one : document -> io S unit;
  insert_many : list document -> io S unit;
  update_one : document -> document -> io S unit;
  replace_one : document -> document -> io S unit
}.
Arguments insert_one {S} _ _ _.
Arguments insert_many {S} _ _ _.
Arguments update_one {S} _ _ _ _.
Arguments replace_one {S} _ _ _ _.

(** What the executors see: the server state and the [logging] output. *)
Record world (S : Type) : Type := {
  server : S;
  logged : list write_error
}.
Arguments server {S} _.
Arguments logged {S} _.
Arguments Build_world {S} _ _.

Definition on_server {S A : Type} (m : io S A) : io (world S) A :=
  fun w =>
    let (r, s) := m (server w) in
    (r, {| server := s; logged := logged w |}).

Definition logging_error {S : Type} (error : write_error) : io (world S) unit :=
  fun w => (Ret tt, {| server := server w; logged := (logged w ++ [error])%list |}).

Section Executor.
Context {S : Type} (coll : collection S).

(** [self.__get_update_condition(...)]: the class defines no method of that
    name, so the lookup of the mangled name goes through
    [MongoDB.__getattr__] to [getattr(self.db, name)], and the pymongo
    [Database] has no attribute whose name starts with an underscore: the
    call raises [AttributeError], whatever its arguments are. *)
Definition get_update_condition (data : document) (errmsg : string)
  : pyres document :=
  Raise AttributeError.

(** [{key: data[key] for key in update_columns}]. *)
Fixpoint doc_of_data (data : document) (update_columns : list string)
    (doc : document) : pyres document :=
  match update_columns with
  | [] => Ret doc
  | key :: rest =>
      match dict_get key data with
      | Some v => doc_of_data data rest (dict_set key v doc)
      | None => Raise (KeyError key)
      end
  end.

(** [{key: data.get(key) for key in update_columns}]. *)
Definition doc_of_data_get (data : document) (update_columns : list string)
  : document :=
  dict_of_pairs
    (map (fun key =>
            (key, match dict_get key data with Some v => v | None => VNone end))
         update_columns).

(** [MongoDB.add]. *)
Definition add (data : document) (replace : bool) (update_columns : columns)
    (update_columns_value : list value) (insert_ignore : bool)
  : io (world S) Z :=
  fun w =>
    let affect_count := 1 in
    match on_server (insert_one coll data) w with
    | (Ret _, w1) => (Ret affect_count, w1)
    | (Raise (DuplicateKeyError errmsg), w1) =>
        if columns_truthy update_columns then
          let update_columns := columns_list update_columns in
          (run condition <- io_lift (get_update_condition data errmsg);
           run doc <- io_lift
             (match update_columns_value with
              | _ :: _ =>
                  Ret (dict_of_pairs (combine update_columns update_columns_value))
              | [] => doc_of_data data update_columns []
              end);
           run _ <- on_server (update_one coll condition doc);
           io_ret affect_count) w1
        else if replace then
          (run condition <- io_lift (get_update_condition data errmsg);
           run _ <- on_server (replace_one coll condition data);
           io_ret affect_count) w1
        else if negb insert_ignore then (Raise (DuplicateKeyError errmsg), w1)
        else (Ret affect_count, w1)
    | (Raise e, w1) => (Raise e, w1)
    end.

(** The inner [get_condition] of [add_batch]; [condition_fields] is
    iterated for its keys, and [data[condition_field]] raises [KeyError]
    for a field the record lacks. *)
Definition get_condition (condition_fields : list string) (error : write_error)
  : pyres document :=
  let data := op error in
  match condition_fields with
  | _ :: _ => doc_of_data data condition_fields []
  | [] => get_update_condition data (errmsg error)
  end.

(** The [for error in write_errors] loop of [add_batch]. *)
Fixpoint resolve (replace : bool) (update_columns : list string)
    (update_columns_value : list value) (condition_fields : list string)
    (write_errors : list write_error) (add_count : Z) : io (world S) Z :=
  match write_errors with
  | [] => io_ret add_count
  | error :: rest =>
      if code error =? 11000 then
        let data := op error in
        match update_columns with
        | _ :: _ =>
            let doc :=
              match update_columns_value with
              | _ :: _ =>
                  dict_of_pairs (combine update_columns update_columns_value)
              | [] => doc_of_data_get data update_columns
              end in
            run condition <- io_lift (get_condition condition_fields error);
            run _ <- on_server (update_one coll condition doc);
            resolve replace update_columns update_columns_value
              condition_fields rest (add_count - 1)
        | [] =>
            if replace then
              run condition <- io_lift (get_condition condition_fields error);
              run _ <- on_server (replace_one coll condition data);
              resolve replace update_columns update_columns_value
                condition_fields rest (add_count - 1)
            else
              run _ <- logging_error error;
              resolve replace update_columns update_columns_value
                condition_fields rest (add_count - 1)
        end
      else
        resolve replace update_columns update_columns_value condition_fields
          rest add_count
  end.

(** [MongoDB.add_batch]. *)
Definition add_batch (datas : list document) (replace : bool)
    (update_columns : columns) (update_columns_value : list value)
    (condition_fields : list string) : io (world S) Z :=
  fun w =>
    match datas with
    | [] => (Ret 0, w)
    | _ =>
        let update_columns := columns_list update_columns in
        let add_count := Z.of_nat (List.length datas) in
        match on_server (insert_many coll datas) w with
        | (Ret _, w1) => (Ret add_count, w1)
        | (Raise (BulkWriteError write_errors), w1) =>
            resolve replace update_columns update_columns_value
              condition_fields write_errors add_count w1
        | (Raise e, w1) => (Raise e, w1)
        end
    end.

End Executor.

(** *** [find] *)

(** The [cursor] document of a reply: its [id] and the batch it carries,
    [firstBatch] in the reply to [find] and [nextBatch] in a reply to
    [getMore]. *)
Record cursor_reply : Type := {
  cursor_id : Z;
  cursor_batch : list document
}.

(** The two command documents [find] builds: the [find] command with the
    keyword arguments merged into it, and [getMore]. *)
Inductive db_command : Type :=
  | Find (coll_name : string) (filter : document) (limit : Z)
         (kwargs : dict value)
  | GetMore (cursor_id : Z) (collection : string) (batchSize : value).

(** [self.db.command], over a server state [St]. *)
Record database (St : Type) : Type := {
  command : db_command -> io St cursor_reply
}.
Arguments command {St} _ _ _.

(** [run_command]. *)
Definition run_command {St : Type} (db : database St) (c : db_command)
  : io St cursor_reply :=
  command db c.

(** The [while True] loop of [find]; [fuel] bounds the iterations the model
    follows, [None] meaning the loop is still running after them. *)
Fixpoint find_more {St : Type} (db : database St) (fuel : nat)
    (coll_name : string) (batchSize : value) (cursor_id_ : Z)
    (dataset : list document) (s : St)
  : option (pyres (list document) * St) :=
  if cursor_id_ =? 0 then Some (Ret dataset, s)
  else
    match fuel with
    | O => None
    | S fuel' =>
        match run_command db (GetMore cursor_id_ coll_name batchSize) s with
        | (Ret result, s1) =>
            find_more db fuel' coll_name batchSize (cursor_id result)
              (dataset ++ cursor_batch result)%list s1
        | (Raise e, s1) => Some (Raise e, s1)
        end
    end.

(** [MongoDB.find]. *)
Definition find {St : Type} (db : database St) (fuel : nat)
    (coll_name : string) (condition : option document) (limit : Z)
    (kwargs : dict value) (s : St) : option (pyres (list document) * St) :=
  let condition :=
    match condition with
    | None => []
    | Some condition => condition
    end in
  match run_command db (Find coll_name condition limit kwargs) s with
  | (Ret result, s1) =>
      find_more db fuel coll_name
        (match dict_get "batchSize" kwargs with
         | Some size => size
         | None => VInt 100
         end)
        (cursor_id result) (cursor_batch result) s1
  | (Raise e, s1) => Some (Raise e, s1)
  end.

End Mongo.

(** An in-memory collection with one single-field unique index: the
    backend the scenarios run on.  Its duplicate-key message follows the
    server's text. *)

Module MemoryCollection.
Import Py Mongo.

Definition value_eqb (a b : value) : bool :=
  match a, b with
  | VNone, VNone => true
  | VBool x, VBool y => Bool.eqb x y
  | VInt x, VInt y => Z.eqb x y
  | VStr x, VStr y => String.eqb x y
  | VTemporal x, VTemporal y => String.eqb x y
  | VComposite x, VComposite y => String.eqb x y
  | _, _ => false
  end.

Definition field (key : string) (d : document) : value :=
  match dict_get key d with
  | Some v => v
  | None => VNone
  end.

Definition key_text (v : value) : string :=
  match v with
  | VInt z => str_int z
  | VStr s => String dquote (s ++ String dquote "")
  | VBool true => "true"
  | VBool false => "false"
  | VNone => "null"
  | VTemporal iso => iso
  | VComposite dumped => dumped
  end.

Definition dup_errmsg (index : string) (d : document) : string :=
  "E11000 duplicate key error collection: db.coll index: " ++ index
    ++ "_1 dup key: { " ++ index ++ ": " ++ key_text (field index d) ++ " }".

Definition matches (condition d : document) : bool :=
  forallb (fun kv => value_eqb (field (fst kv) d) (snd kv)) condition.

Definition conflicts (index : string) (d : document) (docs : list document)
  : bool :=
  existsb (fun d' => value_eqb (field index d') (field index d)) docs.

Fixpoint update_first (condition : document) (f : document -> document)
    (docs : list document) : list document :=
  match docs with
  | [] => []
  | d :: rest =>
      if matches condition d then f d :: rest
      else d :: update_first condition f rest
  end.

Definition set_fields (doc d : document) : document :=
  fold_left (fun acc kv => dict_set (fst kv) (snd kv) acc) doc d.

Fixpoint bulk_insert (index : string) (datas docs : list document)
  : list write_error * list document :=
  match datas with
  | [] => ([], docs)
  | d :: rest =>
      if conflicts index d docs then
        let (errs, docs') := bulk_insert index rest docs in
        ({| code := 11000; op := d; errmsg := dup_errmsg index d |} :: errs,
         docs')
      else bulk_insert index rest (docs ++ [d])%list
  end.

Definition memory (index : string) : collection (list document) := {|
  insert_one := fun d docs =>
    if conflicts index d docs
    then (Raise (DuplicateKeyError (dup_errmsg index d)), docs)
    else (Ret tt, (docs ++ [d])%list);
  insert_many := fun datas docs =>
    match bulk_insert index datas docs with
    | ([], docs') => (Ret tt, docs')
    | (errs, docs') => (Raise (BulkWriteError errs), docs')
    end;
  update_one := fun condition doc docs =>
    (Ret tt, update_first condition (set_fields doc) docs);
  replace_one := fun condition data docs =>
    (Ret tt, update_first condition (fun _ => data) docs)
|}.

End MemoryCollection.

(** ** [tool_redis.py]: the Redis client *)

Module Redis.
Import Py.

(** A key holds a list or a set; a set is kept as its members, each once. *)
Inductive entry : Type :=
  | EList (items : list string)
  | ESet (members : list string).

(** What one [ping()] on the connection does. *)
Inductive ping_outcome : Type :=
  | Pong
  | NoPong
  | PingRaises (e : exn).

(** The server and the connection as the client sees them: [link k] is the
    outcome of the [k]-th ping, [dice k] the server's [k]-th random draw,
    [slept] the seconds spent in [time.sleep]. *)
Record world : Type := {
  configured : bool;
  keyspace : gmap string entry;
  link : nat -> ping_outcome;
  pings : nat;
  dice : nat -> nat;
  rolls : nat;
  slept : Z
}.

Definition with_keyspace (ks : gmap string entry) (w : world) : world :=
  {| configured := configured w; keyspace := ks; link := link w;
     pings := pings w; dice := dice w; rolls := rolls w; slept := slept w |}.

Definition with_ping (w : world) : world :=
  {| configured := configured w; keyspace := keyspace w; link := link w;
     pings := S (pings w); dice := dice w; rolls := rolls w;
     slept := slept w |}.

Definition with_roll (w : world) : world :=
  {| configured := configured w; keyspace := keyspace w; link := link w;
     pings := pings w; dice := dice w; rolls := S (rolls w);
     slept := slept w |}.

Definition time_sleep (seconds : Z) (w : world) : world :=
  {| configured := configured w; keyspace := keyspace w; link := link w;
     pings := pings w; dice := dice w; rolls := rolls w;
     slept := slept w + seconds |}.

(** A reply of the server, as redis-py hands it to the caller. *)
Inductive reply : Type :=
  | RNone
  | RStr (s : string)
  | RInt (z : Z).

(** What [lpop] returns: one reply ([None] included), or the list of
    replies of a pipeline. *)
Inductive popped : Type :=
  | One (r : reply)
  | Many (l : list reply).

(** A client call that may still be running when the fuel of its
    reconnect loop is spent ([None]). *)
Definition task (A : Type) : Type := world -> option (pyres A * world).

Definition task_ret {A : Type} (a : A) : task A := fun w => Some (Ret a, w).

Definition task_io {A : Type} (m : io world A) : task A := fun w => Some (m w).

Definition task_bind {A B : Type} (m : task A) (k : A -> task B) : task B :=
  fun w =>
    match m w with
    | None => None
    | Some (Ret a, w') => k a w'
    | Some (Raise e, w') => Some (Raise e, w')
    end.

Notation "'go' x <- m ; k" := (task_bind m (fun x => k))
  (at level 10, x name, m at level 100, k at level 200).

(** *** The connection *)

Definition ping : io world bool :=
  fun w =>
    let w' := with_ping w in
    match link w (pings w) with
    | Pong => (Ret true, w')
    | NoPong => (Ret false, w')
    | PingRaises e => (Raise e, w')
    end.

(** [get_connect]: builds the client from the stored settings, raising
    [ConnectionError] when no address is set, and returns its [ping()]. *)
Definition get_connect : io world bool :=
  fun w =>
    if configured w then ping w else (Raise ConnectionError, w).

(** [_reconnect]: the [while True] loop; [fuel] bounds the iterations the
    model follows, [None] meaning the loop is still running after them. *)
Fixpoint _reconnect (fuel : nat) (retry_count : Z) : task bool :=
  fun w =>
    match fuel with
    | O => None
    | S fuel' =>
        let retry_count := retry_count + 1 in
        match get_connect w with
        | (Ret true, w1) => Some (Ret true, w1)
        | (Ret false, w1) => _reconnect fuel' retry_count (time_sleep 2 w1)
        | (Raise ConnectionError, w1) | (Raise TimeoutError, w1) =>
            _reconnect fuel' retry_count (time_sleep 2 w1)
        | (Raise e, w1) => Some (Raise e, w1)
        end
    end.

(** The [_redis] property: every access pings, and reconnects on any
    failure of the probe. *)
Definition _redis (fuel : nat) : task unit :=
  fun w =>
    match ping w with
    | (Ret true, w1) => Some (Ret tt, w1)
    | (_, w1) =>
        match _reconnect fuel 0 w1 with
        | None => None
        | Some (Ret _, w2) => Some (Ret tt, w2)
        | Some (Raise e, w2) => Some (Raise e, w2)
        end
    end.

(** *** Server commands *)

Definition store (key : string) (e : entry) (w : world) : world :=
  match e with
  | EList [] | ESet [] => with_keyspace (delete key (keyspace w)) w
  | _ => with_keyspace (<[key := e]> (keyspace w)) w
  end.

Definition llen (table : string) : io world Z :=
  fun w =>
    match keyspace w !! table with
    | None => (Ret 0, w)
    | Some (EList items) => (Ret (Z.of_nat (List.length items)), w)
    | Some (ESet _) => (Raise ResponseError, w)
    end.

Definition scard (table : string) : io world Z :=
  fun w =>
    match keyspace w !! table with
    | None => (Ret 0, w)
    | Some (ESet members) => (Ret (Z.of_nat (List.length members)), w)
    | Some (EList _) => (Raise ResponseError, w)
    end.

Definition cmd_lpop (table : string) : io world reply :=
  fun w =>
    match keyspace w !! table with
    | None | Some (EList []) => (Ret RNone, w)
    | Some (EList (x :: items)) => (Ret (RStr x), store table (EList items) w)
    | Some (ESet _) => (Raise ResponseError, w)
    end.

(** Removal of the member at position [i]. *)
Fixpoint take_out (i : nat) (members : list string)
  : option (string * list string) :=
  match members with
  | [] => None
  | x :: rest =>
      match i with
      | O => Some (x, rest)
      | S i' =>
          match take_out i' rest with
          | Some (y, rest') => Some (y, x :: rest')
          | None => None
          end
      end
  end.

Definition cmd_spop (table : string) : io world reply :=
  fun w =>
    match keyspace w !! table with
    | None | Some (ESet []) => (Ret RNone, w)
    | Some (ESet members) =>
        let i := (dice w (rolls w) mod List.length members)%nat in
        match take_out i members with
        | Some (x, rest) => (Ret (RStr x), store table (ESet rest) (with_roll w))
        | None => (Ret RNone, w)
        end
    | Some (EList _) => (Raise ResponseError, w)
    end.

Definition cmd_srem (table value : string) : io world reply :=
  fun w =>
    match keyspace w !! table with
    | None => (Ret (RInt 0), w)
    | Some (ESet members) =>
        if existsb (String.eqb value) members then
          (Ret (RInt 1),
           store table
             (ESet (List.filter (fun x => negb (String.eqb value x)) members)) w)
        else (Ret (RInt 0), w)
    | Some (EList _) => (Raise ResponseError, w)
    end.

(** [SSCAN]: the server may hand back the whole set in one call, with the
    cursor [0] that ends the scan; redis-py returns the cursor as an [int]. *)
Inductive cursor : Type :=
  | CurStr (s : string)
  | CurInt (z : Z).

Definition sscan (table : string) (c : cursor) (count : Z)
  : io world (cursor * list string) :=
  fun w =>
    match keyspace w !! table with
    | None => (Ret (CurInt 0, []), w)
    | Some (ESet members) => (Ret (CurInt 0, members), w)
    | Some (EList _) => (Raise ResponseError, w)
    end.

(** [SRANDMEMBER key count]: distinct members for a positive count,
    repeated draws for a negative one. *)
Fixpoint draw_distinct (n : nat) (members : list string) (w : world)
  : list reply * world :=
  match n with
  | O => ([], w)
  | S n' =>
      match members with
      | [] => ([], w)
      | _ =>
          let i := (dice w (rolls w) mod List.length members)%nat in
          match take_out i members with
          | Some (x, rest) =>
              let (l, w') := draw_distinct n' rest (with_roll w) in
              (RStr x :: l, w')
          | None => ([], w)
          end
      end
  end.

Fixpoint draw_repeated (n : nat) (members : list string) (w : world)
  : list reply * world :=
  match n with
  | O => ([], w)
  | S n' =>
      let i := (dice w (rolls w) mod List.length members)%nat in
      match nth_error members i with
      | Some x =>
          let (l, w') := draw_repeated n' members (with_roll w) in
          (RStr x :: l, w')
      | None => ([], w)
      end
  end.

Definition srandmember (table : string) (count : Z) : io world (list reply) :=
  fun w =>
    match keyspace w !! table with
    | None => (Ret [], w)
    | Some (ESet members) =>
        let (l, w') :=
          if 0 <=? count then draw_distinct (Z.to_nat count) members w
          else draw_repeated (Z.to_nat (- count)) members w in
        (Ret l, w')
    | Some (EList _) => (Raise ResponseError, w)
    end.

(** *** Pipelines *)

Inductive command : Type :=
  | CmdLpop (table : string)
  | CmdSpop (table : string)
  | CmdSrem (table value : string).

Definition run_command (c : command) : io world reply :=
  match c with
  | CmdLpop table => cmd_lpop table
  | CmdSpop table => cmd_spop table
  | CmdSrem table value => cmd_srem table value
  end.

(** [pipe.execute()]: every queued command runs, in order; the first
    error among the replies is raised afterwards. *)
Fixpoint execute_all (cmds : list command) (w : world)
  : list (pyres reply) * world :=
  match cmds with
  | [] => ([], w)
  | c :: rest =>
      let (r, w1) := run_command c w in
      let (rs, w2) := execute_all rest w1 in
      (r :: rs, w2)
  end.

Fixpoint collect (rs : list (pyres reply)) : pyres (list reply) :=
  match rs with
  | [] => Ret []
  | Ret r :: rest => do l <- collect rest; Ret (r :: l)
  | Raise e :: _ => Raise e
  end.

Definition execute (cmds : list command) : io world (list reply) :=
  fun w =>
    let (rs, w') := execute_all cmds w in
    (collect rs, w').

(** *** Client methods *)

Definition sget_count (fuel : nat) (table : string) : task Z :=
  go _ <- _redis fuel; task_io (scard table).

Definition lget_count (fuel : nat) (table : string) : task Z :=
  go _ <- _redis fuel; task_io (llen table).

(** [sget]. *)
Definition sget (fuel : nat) (table : string) (count : Z) (is_pop : bool)
  : task (list reply) :=
  let datas := [] in
  if is_pop then
    go available <- sget_count fuel table;
    go count <-
      (if count <=? available then task_ret count else sget_count fuel table);
    if count =? 0 then task_ret datas
    else if 1 <? count then
      go _ <- _redis fuel;
      task_io (execute (repeat (CmdSpop table) (Z.to_nat count)))
    else
      go _ <- _redis fuel;
      go r <- task_io (cmd_spop table);
      task_ret (datas ++ [r])%list
  else
    go _ <- _redis fuel; task_io (srandmember table count).

(** [lpop]. *)
Definition lpop (fuel : nat) (table : string) (count : Z) : task popped :=
  let datas := One RNone in
  go lcount <- lget_count fuel table;
  let count := if count <=? lcount then count else lcount in
  if count =? 0 then task_ret datas
  else if 1 <? count then
    go _ <- _redis fuel;
    go datas <- task_io (execute (repeat (CmdLpop table) (Z.to_nat count)));
    task_ret (Many datas)
  else
    go _ <- _redis fuel;
    go datas <- task_io (cmd_lpop table);
    task_ret (One datas).

(** [cursor != "0"]: an [int] never equals a [str]. *)
Definition cursor_ne_0 (c : cursor) : bool :=
  match c with
  | CurStr s => negb (String.eqb s "0")
  | CurInt _ => true
  end.

(** The [while] loop of [sdelete]; [rounds] bounds the iterations the model
    follows. *)
Fixpoint sdelete_loop (rounds fuel : nat) (table : string) (c : cursor)
  : task unit :=
  if cursor_ne_0 c then
    match rounds with
    | O => fun _ => None
    | S rounds' =>
        go _ <- _redis fuel;
        go scanned <- task_io (sscan table c 500);
        go _ <- _redis fuel;
        go _ <- task_io (execute (map (CmdSrem table) (snd scanned)));
        sdelete_loop rounds' fuel table (fst scanned)
    end
  else task_ret tt.

(** [sdelete]; it returns [None]. *)
Definition sdelete (rounds fuel : nat) (table : string) : task reply :=
  let c := CurStr "0" in
  go _ <- sdelete_loop rounds fuel table c;
  task_ret RNone.

(** *** Writing commands *)

Definition cmd_sadd (table value : string) : io world reply :=
  fun w =>
    match keyspace w !! table with
    | None => (Ret (RInt 1), store table (ESet [value]) w)
    | Some (ESet members) =>
        if existsb (String.eqb value) members then (Ret (RInt 0), w)
        else (Ret (RInt 1), store table (ESet (members ++ [value])%list) w)
    | Some (EList _) => (Raise ResponseError, w)
    end.

Definition cmd_sismember (table key : string) : io world bool :=
  fun w =>
    match keyspace w !! table with
    | None => (Ret false, w)
    | Some (ESet members) => (Ret (existsb (String.eqb key) members), w)
    | Some (EList _) => (Raise ResponseError, w)
    end.

Definition cmd_lpush (table value : string) : io world reply :=
  fun w =>
    match keyspace w !! table with
    | None => (Ret (RInt 1), store table (EList [value]) w)
    | Some (EList items) =>
        (Ret (RInt (Z.of_nat (S (List.length items)))),
         store table (EList (value :: items)) w)
    | Some (ESet _) => (Raise ResponseError, w)
    end.

(** [RPOPLPUSH]: the last item of the source becomes the first of the
    destination; nothing moves when the destination holds a set. *)
Definition cmd_rpoplpush (from_table to_table : string) : io world reply :=
  fun w =>
    match keyspace w !! from_table with
    | None => (Ret RNone, w)
    | Some (ESet _) => (Raise ResponseError, w)
    | Some (EList items) =>
        match rev items with
        | [] => (Ret RNone, w)
        | x :: front =>
            let w1 := store from_table (EList (rev front)) w in
            match keyspace w1 !! to_table with
            | Some (ESet _) => (Raise ResponseError, w)
            | Some (EList items') =>
                (Ret (RStr x), store to_table (EList (x :: items')) w1)
            | None => (Ret (RStr x), store to_table (EList [x]) w1)
            end
        end
    end.

(** A pipeline whose queue holds any commands: [pipe.execute()] runs them
    in order and raises the first error among the replies. *)
Fixpoint execute_queue (queue : list (io world reply)) (w : world)
  : list (pyres reply) * world :=
  match queue with
  | [] => ([], w)
  | c :: rest =>
      let (r, w1) := c w in
      let (rs, w2) := execute_queue rest w1 in
      (r :: rs, w2)
  end.

Definition pipe_execute (queue : list (io world reply))
  : io world (list reply) :=
  fun w =>
    let (rs, w') := execute_queue queue w in
    (collect rs, w').

(** The [values] argument of [sadd], [srem] and [lpush]: a list, or a single
    value. *)
Inductive values_arg : Type :=
  | Several (values : list string)
  | Single (value : string).

(** [sadd]: [None] for a list of values, the server's reply for one. *)
Definition sadd (fuel : nat) (table : string) (values : values_arg)
  : task reply :=
  match values with
  | Several values =>
      go _ <- _redis fuel;
      go _ <- task_io (pipe_execute (map (cmd_sadd table) values));
      task_ret RNone
  | Single values =>
      go _ <- _redis fuel; task_io (cmd_sadd table values)
  end.

(** [srem]; it returns [None]. *)
Definition srem (fuel : nat) (table : string) (values : values_arg)
  : task reply :=
  match values with
  | Several values =>
      go _ <- _redis fuel;
      go _ <- task_io (execute (map (CmdSrem table) values));
      task_ret RNone
  | Single values =>
      go _ <- _redis fuel;
      go _ <- task_io (cmd_srem table values);
      task_ret RNone
  end.

Definition sismember (fuel : nat) (table key : string) : task bool :=
  go _ <- _redis fuel; task_io (cmd_sismember table key).

(** [lpush]: [None] for a list of values, the server's reply for one. *)
Definition lpush (fuel : nat) (table : string) (values : values_arg)
  : task reply :=
  match values with
  | Several values =>
      go _ <- _redis fuel;
      go _ <- task_io (pipe_execute (map (cmd_lpush table) values));
      task_ret RNone
  | Single values =>
      go _ <- _redis fuel; task_io (cmd_lpush table values)
  end.

(** [rpoplpush]: [not to_table] holds for [None] and for the empty name. *)
Definition rpoplpush (fuel : nat) (from_table : string)
    (to_table : option string) : task reply :=
  let to_table :=
    match to_table with
    | None | Some EmptyString => from_table
    | Some to_table => to_table
    end in
  go _ <- _redis fuel; task_io (cmd_rpoplpush from_table to_table).

End Redis.

(** ** [tool_rabbitmq.py]: the connection loop *)

Module RabbitMq.
Import Py.

(** [broker k] tells whether the [k]-th connection attempt succeeds. *)
Record world : Type := {
  broker : nat -> bool;
  attempts : nat;
  slept : Z;
  connected : bool
}.

Definition try_connect (w : world) : bool * world :=
  let ok := broker w (attempts w) in
  (ok, {| broker := broker w; attempts := S (attempts w); slept := slept w;
          connected := ok || connected w |}).

Definition time_sleep (seconds : Z) (w : world) : world :=
  {| broker := broker w; attempts := attempts w;
     slept := slept w + seconds; connected := connected w |}.

(** [range(1, stop)]. *)
Definition range1 (stop : Z) : list Z :=
  map Z.of_nat (seq 1 (Z.to_nat (stop - 1))).

(** The [for attempt in range(...)] loop of [_connect]. *)
Fixpoint connect_loop (reconnect_attempts reconnect_delay : Z)
    (todo : list Z) : io world unit :=
  fun w =>
    match todo with
    | [] => (Ret tt, w)
    | attempt :: rest =>
        match try_connect w with
        | (true, w1) => (Ret tt, w1)
        | (false, w1) =>
            if attempt <? reconnect_attempts
            then connect_loop reconnect_attempts reconnect_delay rest
                   (time_sleep reconnect_delay w1)
            else (Raise ConnectionError, w1)
        end
    end.

Definition _connect (reconnect_attempts reconnect_delay : Z) : io world unit :=
  connect_loop reconnect_attempts reconnect_delay
    (range1 (reconnect_attempts + 1)).

(** *** The client and its handles *)

(** [self.connection] and [self.channel]: [None], an object that reports
    [is_closed], or an open one. *)
Inductive handle : Type :=
  | Missing
  | Closed
  | Open.

(** One [basic_publish]. *)
Record message : Type := {
  to_exchange : string;
  with_key : string;
  body : string
}.

(** The client: the broker it reaches through [net], its two handles,
    whether [connection.channel()] succeeds on the connection it holds, the
    exchanges declared and the messages published so far. *)
Record client : Type := {
  net : world;
  connection : handle;
  channel : handle;
  channel_opens : bool;
  exchanges : list (string * string);
  published : list message
}.

Definition with_net (n : world) (c : client) : client :=
  {| net := n; connection := connection c; channel := channel c;
     channel_opens := channel_opens c; exchanges := exchanges c;
     published := published c |}.

Definition with_handles (conn chan : handle) (c : client) : client :=
  {| net := net c; connection := conn; channel := chan;
     channel_opens := channel_opens c; exchanges := exchanges c;
     published := published c |}.

(** [_connect] on the client: an attempt that succeeds leaves a fresh
    connection and a fresh channel, one that fails leaves the handles as
    they were. *)
Fixpoint client_connect_loop (reconnect_attempts reconnect_delay : Z)
    (todo : list Z) : io client unit :=
  fun c =>
    match todo with
    | [] => (Ret tt, c)
    | attempt :: rest =>
        match try_connect (net c) with
        | (true, n1) => (Ret tt, with_handles Open Open (with_net n1 c))
        | (false, n1) =>
            if attempt <? reconnect_attempts
            then client_connect_loop reconnect_attempts reconnect_delay rest
                   (with_net (time_sleep reconnect_delay n1) c)
            else (Raise ConnectionError, with_net n1 c)
        end
    end.

Definition client_connect (reconnect_attempts reconnect_delay : Z)
  : io client unit :=
  client_connect_loop reconnect_attempts reconnect_delay
    (range1 (reconnect_attempts + 1)).

(** [self.connection.channel()]. *)
Definition open_channel : io client unit :=
  fun c =>
    if channel_opens c then (Ret tt, with_handles (connection c) Open c)
    else (Raise (OtherError "channel"), c).

(** [_ensure_connection]: whatever the first step raises, [_connect] runs
    once more. *)
Definition _ensure_connection (reconnect_attempts reconnect_delay : Z)
  : io client unit :=
  fun c =>
    let first :=
      match connection c with
      | Missing | Closed => client_connect reconnect_attempts reconnect_delay c
      | Open =>
          match channel c with
          | Missing | Closed => open_channel c
          | Open => (Ret tt, c)
          end
      end in
    match first with
    | (Ret _, c1) => (Ret tt, c1)
    | (Raise _, c1) => client_connect reconnect_attempts reconnect_delay c1
    end.

(** A call on [self.channel]: [AttributeError] on [None], the channel's
    error when it is closed. *)
Definition on_channel {A : Type} (m : io client A) : io client A :=
  fun c =>
    match channel c with
    | Missing => (Raise AttributeError, c)
    | Closed => (Raise (OtherError "channel closed"), c)
    | Open => m c
    end.

Definition exchange_declare (exchange exchange_type : string)
  : io client unit :=
  on_channel (fun c =>
    (Ret tt,
     {| net := net c; connection := connection c; channel := channel c;
        channel_opens := channel_opens c;
        exchanges := (exchanges c ++ [(exchange, exchange_type)])%list;
        published := published c |})).

Definition basic_publish (exchange routing_key body : string)
  : io client unit :=
  on_channel (fun c =>
    (Ret tt,
     {| net := net c; connection := connection c; channel := channel c;
        channel_opens := channel_opens c; exchanges := exchanges c;
        published :=
          (published c
             ++ [{| to_exchange := exchange; with_key := routing_key;
                    body := body |}])%list |})).

(** [declare_exchange]. *)
Definition declare_exchange (reconnect_attempts reconnect_delay : Z)
    (exchange exchange_type : string) : io client unit :=
  run _ <- _ensure_connection reconnect_attempts reconnect_delay;
  exchange_declare exchange exchange_type.

(** [send_message]: every exception is logged and dropped. *)
Definition send_message (reconnect_attempts reconnect_delay : Z)
    (exchange routing_key message exchange_type : string) : io client unit :=
  fun c =>
    match
      (run _ <- _ensure_connection reconnect_attempts reconnect_delay;
       run _ <- declare_exchange reconnect_attempts reconnect_delay
                  exchange exchange_type;
       basic_publish exchange routing_key message) c
    with
    | (Ret _, c1) => (Ret tt, c1)
    | (Raise _, c1) => (Ret tt, c1)
    end.

End RabbitMq.

(** ** The SQL statement builder *)

Module MysqlFacts.
Import Py Mysql.

(** *** Texts *)

Lemma append_cons (c : ascii) (s t : string) :
  String c s ++ t = String c (s ++ t).
Proof. reflexivity. Qed.

Lemma append_nil_l (s : string) : "" ++ s = s.
Proof. reflexivity. Qed.

Lemma append_nil_r (s : string) : s ++ "" = s.
Proof.
  induction s as [|c s IH]; [reflexivity|]. now rewrite append_cons, IH.
Qed.

Lemma append_assoc (a b c : string) : (a ++ b) ++ c = a ++ b ++ c.
Proof.
  induction a as [|x a IH]; [reflexivity|]. now rewrite !append_cons, IH.
Qed.

(** The fixed templates of [make_batch_sql], filled in. *)
Lemma format_replace table keys ph :
  format "replace into `{table}` {keys} values {values_placeholder}"
    [("table", table); ("keys", keys); ("values_placeholder", ph)]
  = Ret ("replace into `" ++ table ++ "` " ++ keys ++ " values " ++ ph).
Proof.
  rewrite <- (append_nil_r ph). vm_compute. now rewrite !append_nil_r.
Qed.

Lemma format_insert_ignore table keys ph :
  format "insert ignore into `{table}` {keys} values {values_placeholder}"
    [("table", table); ("keys", keys); ("values_placeholder", ph)]
  = Ret ("insert ignore into `" ++ table ++ "` " ++ keys ++ " values " ++ ph).
Proof.
  rewrite <- (append_nil_r ph). vm_compute. now rewrite !append_nil_r.
Qed.

Lemma format_on_duplicate table keys ph uc :
  format
    "insert into `{table}` {keys} values {values_placeholder} on duplicate key update {update_columns}"
    [("table", table); ("keys", keys); ("values_placeholder", ph);
     ("update_columns", uc)]
  = Ret ("insert into `" ++ table ++ "` " ++ keys ++ " values " ++ ph
           ++ " on duplicate key update " ++ uc).
Proof.
  rewrite <- (append_nil_r uc). vm_compute. now rewrite !append_nil_r.
Qed.

(** *** Two iteration orders a [set] of keys can have *)

Fixpoint first_seen (l : list string) : list string :=
  match l with
  | [] => []
  | x :: l' => x :: List.filter (fun y => negb (String.eqb x y)) (first_seen l')
  end.

Lemma first_seen_elem l x : In x (first_seen l) <-> In x l.
Proof.
  induction l as [|y l IH]; simpl; [tauto|].
  rewrite filter_In, IH, negb_true_iff, String.eqb_neq.
  destruct (string_dec y x); [subst; tauto|]. tauto.
Qed.

Lemma first_seen_nodup l : List.NoDup (first_seen l).
Proof.
  induction l as [|y l IH]; simpl; constructor.
  - rewrite filter_In, negb_true_iff, String.eqb_neq. tauto.
  - now apply List.NoDup_filter.
Qed.

(** Keys in the order they were first inserted. *)
Definition insertion_order : set_order :=
  {| set_iter := first_seen;
     set_iter_nodup := first_seen_nodup;
     set_iter_elem := first_seen_elem |}.

Lemma rev_first_seen_elem l x : In x (rev (first_seen l)) <-> In x l.
Proof. rewrite <- in_rev. apply first_seen_elem. Qed.

Lemma rev_first_seen_nodup l : List.NoDup (rev (first_seen l)).
Proof. apply List.NoDup_rev, first_seen_nodup. Qed.

(** Keys in the opposite order: as lawful an iteration order of the set. *)
Definition reverse_order : set_order :=
  {| set_iter := fun l => rev (first_seen l);
     set_iter_nodup := rev_first_seen_nodup;
     set_iter_elem := rev_first_seen_elem |}.

(** *** What [make_batch_sql] builds *)

Definition batch_keys (order : set_order) (datas : list (dict value))
  : list string :=
  set_iter order (concat (map dict_keys datas)).

Definition batch_header (keys : list string) : string :=
  replace "'" "" (list2str (map backticked keys)).

Definition batch_placeholders (keys : list string) : string :=
  replace "'" "" (list2str (map (fun _ => AStr "%s") keys)).

Definition batch_row (keys : list string) (data : dict value) : list atom :=
  map (fun key =>
         match dict_get key data with
         | Some current_data => format_sql_value current_data
         | None => ANone
         end) keys.

Definition assignment (kv : string * atom) : string :=
  "`" ++ fst kv ++ "`=" ++ str (snd kv).

Definition batch_verb (auto_update : bool) : string :=
  if auto_update then "replace" else "insert ignore".

Lemma make_batch_sql_plain order table datas auto_update update_columns
    update_columns_value :
  datas <> [] -> columns_truthy update_columns = false ->
  make_batch_sql order table datas auto_update update_columns
    update_columns_value
  = Ret (Some (batch_verb auto_update ++ " into `" ++ table ++ "` "
                 ++ batch_header (batch_keys order datas) ++ " values "
                 ++ batch_placeholders (batch_keys order datas),
               map (batch_row (batch_keys order datas)) datas)).
Proof.
  intros Hne Hc. destruct datas as [|d datas]; [contradiction|].
  unfold make_batch_sql. rewrite Hc. cbn [negb].
  destruct auto_update; [rewrite format_replace | rewrite format_insert_ignore];
    reflexivity.
Qed.

Lemma make_batch_sql_values order table datas auto_update update_columns
    update_columns_value :
  datas <> [] -> columns_truthy update_columns = true ->
  update_columns_value <> [] ->
  make_batch_sql order table datas auto_update update_columns
    update_columns_value
  = Ret (Some ("insert into `" ++ table ++ "` "
                 ++ batch_header (batch_keys order datas) ++ " values "
                 ++ batch_placeholders (batch_keys order datas)
                 ++ " on duplicate key update "
                 ++ join ", "
                      (map assignment
                         (combine (columns_list update_columns)
                                  update_columns_value)),
               map (batch_row (batch_keys order datas)) datas)).
Proof.
  intros Hne Hc Hv. destruct datas as [|d datas]; [contradiction|].
  destruct update_columns_value as [|v vs]; [contradiction|].
  unfold make_batch_sql. rewrite Hc. cbn [negb].
  rewrite format_on_duplicate. reflexivity.
Qed.

Lemma make_batch_sql_columns order table datas auto_update update_columns :
  datas <> [] -> columns_truthy update_columns = true ->
  make_batch_sql order table datas auto_update update_columns []
  = Ret (Some ("insert into `" ++ table ++ "` "
                 ++ batch_header (batch_keys order datas) ++ " values "
                 ++ batch_placeholders (batch_keys order datas)
                 ++ " on duplicate key update "
                 ++ join ", "
                      (map (fun key => "`" ++ key ++ "`=values(`" ++ key ++ "`)")
                           (columns_list update_columns)),
               map (batch_row (batch_keys order datas)) datas)).
Proof.
  intros Hne Hc. destruct datas as [|d datas]; [contradiction|].
  unfold make_batch_sql. rewrite Hc. cbn [negb].
  rewrite format_on_duplicate. reflexivity.
Qed.

(** *** Empty batches *)

(** C7, as stated, fails: for an empty list of records nothing is raised,
    [make_batch_sql] returns [None]. *)
Lemma empty_batch_is_not_rejected :
  make_batch_sql insertion_order "t" [] false (ColSeq []) [] = Ret None
  /\ make_batch_sql insertion_order "t" [] false (ColSeq []) []
     <> Raise ValidationError.
Proof. split; [reflexivity | discriminate]. Qed.

(** What [add_batch_smart] does with that [None]. *)
Lemma add_batch_smart_empty {R : Type}
    (add_batch : string -> list (list atom) -> pyres R) order table
    auto_update update_columns update_columns_value :
  add_batch_smart add_batch order table [] auto_update update_columns
    update_columns_value
  = Raise TypeError.
Proof. reflexivity. Qed.

(** C7 (amended): for an empty list of records [make_batch_sql] raises
    nothing; it returns [None], no SQL text and no bound values, whatever
    the other arguments are, and [add_batch_smart] submits no statement:
    its outcome does not depend on the executor. *)
Theorem make_batch_sql_empty (order : set_order) (table : string)
    (auto_update : bool) (update_columns : columns)
    (update_columns_value : list atom) :
  make_batch_sql order table [] auto_update update_columns
    update_columns_value
  = Ret None
  /\ forall (R : Type) (exec1 exec2 : string -> list (list atom) -> pyres R),
       add_batch_smart exec1 order table [] auto_update update_columns
         update_columns_value
       = add_batch_smart exec2 order table [] auto_update update_columns
           update_columns_value.
Proof. split; [reflexivity | intros R exec1 exec2; reflexivity]. Qed.

(** *** The column set of a batch *)

Lemma dict_get_absent {V : Type} (k : string) (d : dict V) :
  ~ In k (dict_keys d) -> dict_get k d = None.
Proof.
  induction d as [|[k' v] d IH]; simpl; [reflexivity|]. intros Hn.
  destruct (String.eqb_spec k k') as [->|Hne]; [tauto|]. apply IH. tauto.
Qed.

Lemma batch_keys_union order datas k :
  In k (batch_keys order datas)
  <-> exists d, In d datas /\ In k (dict_keys d).
Proof.
  unfold batch_keys. rewrite set_iter_elem, in_concat. split.
  - intros (ks & Hks & Hk). apply in_map_iff in Hks as (d & <- & Hd). eauto.
  - intros (d & Hd & Hk). exists (dict_keys d). split; [|exact Hk].
    now apply in_map.
Qed.

Lemma batch_row_nth keys d i k :
  nth_error keys i = Some k ->
  nth_error (batch_row keys d) i
  = Some match dict_get k d with
         | Some v => format_sql_value v
         | None => ANone
         end.
Proof.
  intros H. unfold batch_row. now rewrite nth_error_map, H.
Qed.

(** C5, as stated, fails: the columns come out in the iteration order of
    a [set], which need not be the order in which the keys were first
    seen.  With the keys iterated in reverse, the record [{a: 1, b: 2}]
    gives the columns [b, a] and the row [2, 1]. *)
Lemma batch_columns_not_first_seen :
  make_batch_sql reverse_order "t" [[("a", VInt 1); ("b", VInt 2)]] false
    (ColSeq []) []
  = Ret (Some ("insert ignore into `t` (`b`, `a`) values (%s, %s)",
               [[AInt 2; AInt 1]]))
  /\ first_seen (concat (map dict_keys [[("a", VInt 1); ("b", VInt 2)]]))
     = ["a"; "b"].
Proof. split; vm_compute; reflexivity. Qed.

(** C5 (amended): for a non-empty list of records the column set of
    [make_batch_sql] is the union of the keys of all records, each key
    once, in the iteration order of the set built from them (an order the
    builder does not choose); the statement lists these columns and one
    placeholder per column, and the bound values are row-major, one row per
    record in the order of the records, each row in the column order, with
    the null value where the record lacks the key. *)
Theorem batch_columns_are_the_union (order : set_order) (table : string)
    (datas : list (dict value)) (auto_update : bool)
    (update_columns : columns) (update_columns_value : list atom) :
  datas <> [] ->
  let keys := batch_keys order datas in
  List.NoDup keys
  /\ (forall k, In k keys <-> exists d, In d datas /\ In k (dict_keys d))
  /\ (exists verb rest,
        make_batch_sql order table datas auto_update update_columns
          update_columns_value
        = Ret (Some (verb ++ " into `" ++ table ++ "` " ++ batch_header keys
                       ++ " values " ++ batch_placeholders keys ++ rest,
                     map (batch_row keys) datas)))
  /\ (forall d i k,
        In d datas -> nth_error keys i = Some k ->
        (forall v, dict_get k d = Some v ->
           nth_error (batch_row keys d) i = Some (format_sql_value v))
        /\ (~ In k (dict_keys d) ->
            nth_error (batch_row keys d) i = Some ANone)).
Proof.
  intros Hne keys. repeat split.
  - apply set_iter_nodup.
  - apply batch_keys_union.
  - apply batch_keys_union.
  - destruct (columns_truthy update_columns) eqn:Hc.
    + destruct update_columns_value as [|v vs].
      * exists "insert". eexists.
        rewrite make_batch_sql_columns by assumption. reflexivity.
      * exists "insert". eexists.
        rewrite make_batch_sql_values by (assumption || discriminate).
        reflexivity.
    + exists (batch_verb auto_update), "".
      rewrite make_batch_sql_plain by assumption.
      now rewrite append_nil_r.
  - intros v Hv. rewrite (batch_row_nth keys d i k) by assumption.
    now rewrite Hv.
  - intros Hn. rewrite (batch_row_nth keys d i k) by assumption.
    now rewrite dict_get_absent.
Qed.

Lemma batch_columns_are_the_union_witness :
  exists verb rest,
    make_batch_sql reverse_order "t"
      [[("a", VInt 1)]; [("b", VStr "x"); ("a", VNone)]] false (ColSeq []) []
    = Ret (Some (verb ++ " into `t` (`b`, `a`) values (%s, %s)" ++ rest,
                 [[ANone; AInt 1]; [AStr "x"; ANone]])).
Proof.
  refine (proj1 (proj2 (proj2
            (batch_columns_are_the_union reverse_order "t"
               [[("a", VInt 1)]; [("b", VStr "x"); ("a", VNone)]] false
               (ColSeq []) [] _)))).
  discriminate.
Defined.

(** *** Replacement values of a batch *)

Lemma format_from_never_validation kw s : forall st,
  format_from kw st s <> Raise ValidationError.
Proof.
  induction s as [|c s IH]; intros st.
  - destruct st; discriminate.
  - pose proof (IH FText) as Htext.
    destruct st; cbn [format_from];
      repeat match goal with
             | |- context [if ?b then _ else _] => destruct b
             | |- context [dict_get ?n ?k] => destruct (dict_get n k)
             end;
      try discriminate; try apply IH;
      unfold bind; destruct (format_from kw FText s);
      (discriminate || assumption).
Qed.

Lemma make_insert_sql_never_validation table data auto_update update_columns
    insert_ignore :
  make_insert_sql table data auto_update update_columns insert_ignore
  <> Raise ValidationError.
Proof.
  unfold make_insert_sql, format, bind.
  match goal with
  | |- context [format_from ?kw ?st ?s] =>
      pose proof (format_from_never_validation kw s st) as H;
      destruct (format_from kw st s)
  end; [discriminate | exact H].
Qed.

Lemma nth_error_combine {A B : Type} (l : list A) (l' : list B) i a b :
  nth_error l i = Some a -> nth_error l' i = Some b ->
  nth_error (combine l l') i = Some (a, b).
Proof.
  revert l' i. induction l as [|x l IH]; intros [|y l'] [|i]; simpl;
    try discriminate.
  - now intros [= ->] [= ->].
  - apply IH.
Qed.

(** C3, as stated, fails: two update columns with a single replacement
    value raise nothing; the statement is built from the one pair the
    [zip] yields. *)
Lemma mismatched_values_are_not_rejected :
  List.length ["a"; "b"] <> List.length [AStr "1"]
  /\ make_batch_sql insertion_order "t" [[("a", VInt 1)]] false
       (ColSeq ["a"; "b"]) [AStr "1"]
     = Ret (Some ("insert into `t` (`a`) values (%s) on duplicate key update `a`=1",
                  [[AInt 1]])).
Proof. split; [discriminate | vm_compute; reflexivity]. Qed.

(** C3 (amended): no builder raises [ValidationError].  For non-empty
    records, non-empty update columns and non-empty replacement values of
    any length, [make_batch_sql] returns the statement, whose
    on-duplicate-key clause pairs columns with values by position, up to
    the shorter of the two sequences: the [i]-th assignment sets the [i]-th
    column to the text of the [i]-th value, never to a value looked up in
    a record.  [make_insert_sql] takes no replacement values. *)
Theorem replacement_values_pair_by_position (order : set_order)
    (table : string) (datas : list (dict value)) (auto_update : bool)
    (update_columns : columns) (update_columns_value : list atom) :
  datas <> [] ->
  columns_truthy update_columns = true ->
  update_columns_value <> [] ->
  let pairs := combine (columns_list update_columns) update_columns_value in
  make_batch_sql order table datas auto_update update_columns
    update_columns_value
  = Ret (Some ("insert into `" ++ table ++ "` "
                 ++ batch_header (batch_keys order datas) ++ " values "
                 ++ batch_placeholders (batch_keys order datas)
                 ++ " on duplicate key update "
                 ++ join ", " (map assignment pairs),
               map (batch_row (batch_keys order datas)) datas))
  /\ List.length pairs
     = Nat.min (List.length (columns_list update_columns))
               (List.length update_columns_value)
  /\ (forall i key value,
        nth_error (columns_list update_columns) i = Some key ->
        nth_error update_columns_value i = Some value ->
        nth_error (map assignment pairs) i
        = Some ("`" ++ key ++ "`=" ++ str value))
  /\ (forall data insert_ignore,
        make_insert_sql table data auto_update update_columns insert_ignore
        <> Raise ValidationError).
Proof.
  intros Hne Hc Hv pairs. repeat split.
  - now apply make_batch_sql_values.
  - apply length_combine.
  - intros i key value Hk Hval. rewrite nth_error_map.
    unfold pairs. now rewrite (nth_error_combine _ _ i key value).
  - intros data insert_ignore. apply make_insert_sql_never_validation.
Qed.

Lemma replacement_values_pair_by_position_witness :
  make_batch_sql insertion_order "t"
    [[("id", VInt 7); ("n", VStr "x")]] false (ColSeq ["n"; "id"; "k"])
    [AStr "'y'"; AInt 3]
  = Ret (Some ("insert into `t` (`id`, `n`) values (%s, %s) on duplicate key update `n`='y', `id`=3",
               [[AInt 7; AStr "x"]])).
Proof.
  refine (proj1
            (replacement_values_pair_by_position insertion_order "t"
               [[("id", VInt 7); ("n", VStr "x")]] false
               (ColSeq ["n"; "id"; "k"]) [AStr "'y'"; AInt 3] _ _ _));
    [discriminate | reflexivity | discriminate].
Defined.

End MysqlFacts.

(** ** How values are rendered into the insert statement *)

Module RenderFacts.
Import Py Mysql MysqlFacts.

Lemma length_append (a b : string) :
  String.length (a ++ b) = (String.length a + String.length b)%nat.
Proof.
  induction a as [|c a IH]; [reflexivity|].
  rewrite append_cons. simpl. now rewrite IH.
Qed.

Lemma append_inj_r (t : string) : forall a b, a ++ t = b ++ t -> a = b.
Proof.
  induction a as [|c a IH]; intros [|d b] H.
  - reflexivity.
  - apply (f_equal String.length) in H.
    rewrite append_nil_l, append_cons in H. simpl in H.
    rewrite length_append in H. lia.
  - apply (f_equal String.length) in H.
    rewrite append_nil_l, append_cons in H. simpl in H.
    rewrite length_append in H. lia.
  - rewrite !append_cons in H. injection H as -> H. f_equal. now apply IH.
Qed.

(** *** [replace("None", "null")] *)

Definition none_to_null : nat -> string -> string := replace_from "None" "null".

Lemma prefix_None_inv s :
  String.prefix "None" s = true ->
  exists t, s = String "N" (String "o" (String "n" (String "e" t))).
Proof.
  destruct s as [|a [|b [|c [|d t]]]]; cbn [String.prefix];
    try discriminate;
    repeat match goal with
           | |- context [ascii_dec ?x ?y] => destruct (ascii_dec x y)
           end; try discriminate.
  subst. eauto.
Qed.

Lemma prefix_None_intro t :
  String.prefix "None" (String "N" (String "o" (String "n" (String "e" t))))
  = true.
Proof. destruct t; reflexivity. Qed.

Lemma prefix_None_append s t :
  String.prefix "None" s = true -> String.prefix "None" (s ++ t) = true.
Proof.
  intros H. destruct (prefix_None_inv s H) as [u ->].
  rewrite !append_cons. apply prefix_None_intro.
Qed.

(** No occurrence of [None] spans a character that is none of [o], [n],
    [e]: the replacement can be done on the two sides separately. *)
Lemma none_to_null_split (c : ascii) (X : string) :
  c <> "o"%char -> c <> "n"%char -> c <> "e"%char ->
  forall P skip, (skip <= String.length P)%nat ->
    none_to_null skip (P ++ String c X)
    = none_to_null skip P ++ none_to_null 0 (String c X).
Proof.
  intros Ho Hn He. unfold none_to_null.
  set (R := replace_from "None" "null" 0 (String c X)).
  induction P as [|a P IH]; intros skip Hs.
  - simpl in Hs. replace skip with O by lia. reflexivity.
  - rewrite append_cons. destruct skip as [|skip].
    + cbn [replace_from].
      destruct (String.prefix "None" (String a (P ++ String c X))) eqn:Hp.
      * destruct (prefix_None_inv _ Hp) as [t Ht].
        injection Ht as -> Ht.
        destruct P as [|p1 [|p2 [|p3 P]]];
          rewrite ?append_cons, ?append_nil_l in Ht;
          injection Ht as; try congruence.
        subst p1 p2 p3.
        rewrite prefix_None_intro.
        rewrite append_assoc. f_equal. apply IH. simpl. lia.
      * destruct (String.prefix "None" (String a P)) eqn:Hq.
        -- apply (prefix_None_append _ (String c X)) in Hq.
           rewrite append_cons in Hq. congruence.
        -- rewrite append_cons. f_equal. apply IH. lia.
    + cbn [replace_from]. apply IH. simpl in Hs. lia.
Qed.

Lemma none_to_null_without_N s :
  contains_char "N" s = false -> none_to_null 0 s = s.
Proof.
  unfold none_to_null.
  induction s as [|c s IH]; [reflexivity|]. simpl contains_char.
  intros H. apply orb_false_iff in H as [Hc Hs]. cbn [replace_from].
  destruct (String.prefix "None" (String c s)) eqn:Hp.
  - destruct (prefix_None_inv _ Hp) as [t [= -> _]]. discriminate.
  - f_equal. now apply IH.
Qed.

(** *** [list2str] of a single value *)

Lemma re_sub_comma_paren_end r :
  re_sub_comma_paren (r ++ ",)") = r ++ ")".
Proof.
  induction r as [|c r IH]; [reflexivity|].
  rewrite !append_cons. cbn [re_sub_comma_paren].
  destruct (String.eqb_spec (String c (r ++ ",)")) ",)") as [H|_].
  { apply (f_equal String.length) in H. simpl in H.
    rewrite length_append in H. simpl in H. lia. }
  destruct (String.eqb_spec (String c (r ++ ",)"))
              (String "," (String ")" (String newline "")))) as [H|_].
  { injection H as _ H. destruct r as [|x [|y r]]; try discriminate.
    apply (f_equal String.length) in H. rewrite !append_cons in H.
    simpl in H. rewrite length_append in H. simpl in H. lia. }
  now rewrite IH.
Qed.

Lemma list2str_single (a : atom) : list2str [a] = "(" ++ repr a ++ ")".
Proof.
  unfold list2str, tuple_str.
  change ("(" ++ repr a ++ ",)") with (String "(" (repr a ++ ",)")).
  cbn [re_sub_comma_paren]. 
  change (String.eqb (String "(" (repr a ++ ",)")) ",)") with false.
  change (String.eqb (String "(" (repr a ++ ",)"))
            (String "," (String ")" (String newline "")))) with false.
  cbv iota. now rewrite re_sub_comma_paren_end.
Qed.

(** *** The statement of a record without update columns *)

Definition insert_verb (auto_update insert_ignore : bool) : string :=
  if auto_update then "replace"
  else if insert_ignore then "insert ignore" else "insert".

Lemma format_insert_replace table keys values :
  format "replace into `{table}` {keys} values {values}"
    [("table", table); ("keys", keys); ("values", values)]
  = Ret ("replace into `" ++ table ++ "` " ++ keys ++ " values " ++ values).
Proof.
  rewrite <- (append_nil_r values). vm_compute. now rewrite !append_nil_r.
Qed.

Lemma format_insert_ignoring table keys values :
  format "insert ignore into `{table}` {keys} values {values}"
    [("table", table); ("keys", keys); ("values", values)]
  = Ret ("insert ignore into `" ++ table ++ "` " ++ keys ++ " values "
           ++ values).
Proof.
  rewrite <- (append_nil_r values). vm_compute. now rewrite !append_nil_r.
Qed.

Lemma format_insert_plain table keys values :
  format "insert into `{table}` {keys} values {values}"
    [("table", table); ("keys", keys); ("values", values)]
  = Ret ("insert into `" ++ table ++ "` " ++ keys ++ " values " ++ values).
Proof.
  rewrite <- (append_nil_r values). vm_compute. now rewrite !append_nil_r.
Qed.

Lemma make_insert_sql_plain table data auto_update update_columns
    insert_ignore :
  columns_truthy update_columns = false ->
  make_insert_sql table data auto_update update_columns insert_ignore
  = Ret (replace "None" "null"
           (insert_verb auto_update insert_ignore ++ " into `" ++ table
              ++ "` " ++ batch_header (dict_keys data) ++ " values "
              ++ list2str (map format_sql_value (dict_values data)))).
Proof.
  intros Hc. unfold make_insert_sql. rewrite Hc.
  destruct auto_update, insert_ignore; cbn [insert_verb].
  - now rewrite format_insert_replace.
  - now rewrite format_insert_replace.
  - change ("insert" ++ " ignore" ++ " into `{table}` {keys} values {values}")
      with "insert ignore into `{table}` {keys} values {values}".
    now rewrite format_insert_ignoring.
  - change ("insert" ++ "" ++ " into `{table}` {keys} values {values}")
      with "insert into `{table}` {keys} values {values}".
    now rewrite format_insert_plain.
Qed.

(** The text before the value tuple, after the [None] replacement. *)
Definition statement_head (table key : string)
    (auto_update insert_ignore : bool) : string :=
  replace "None" "null"
    (insert_verb auto_update insert_ignore ++ " into `" ++ table ++ "` "
       ++ batch_header [key] ++ " values ").

(** The statement of a one-column record: the head, then the value
    tuple with its own [None] replaced. *)
Lemma make_insert_sql_single table key v auto_update insert_ignore :
  make_insert_sql table [(key, v)] auto_update (ColSeq []) insert_ignore
  = Ret (statement_head table key auto_update insert_ignore
           ++ replace "None" "null" ("(" ++ repr (format_sql_value v) ++ ")")).
Proof.
  rewrite make_insert_sql_plain by reflexivity. f_equal.
  cbn [dict_keys dict_values map fst snd]. rewrite list2str_single.
  unfold statement_head, replace.
  set (P := insert_verb auto_update insert_ignore ++ " into `" ++ table
              ++ "` " ++ batch_header [key] ++ " values ").
  set (X := repr (format_sql_value v) ++ ")").
  transitivity (none_to_null 0 (P ++ String "(" X)).
  - unfold none_to_null, P. f_equal. now rewrite !append_assoc.
  - apply none_to_null_split; try discriminate. lia.
Qed.

(** *** Numbers *)

Fixpoint all_chars (p : ascii -> bool) (s : string) : bool :=
  match s with
  | EmptyString => true
  | String c s' => p c && all_chars p s'
  end.

Definition number_char (c : ascii) : bool :=
  Ascii.eqb c "-" || ((48 <=? nat_of_ascii c)%nat && (nat_of_ascii c <=? 57)%nat).

Lemma uint_chars (d : Decimal.uint) :
  all_chars number_char (NilEmpty.string_of_uint d) = true.
Proof. induction d; simpl; auto. Qed.

Lemma str_int_chars (z : Z) : all_chars number_char (str_int z) = true.
Proof.
  unfold str_int, NilZero.string_of_int, NilZero.string_of_uint.
  destruct (Z.to_int z) as [d|d]; destruct d; simpl; auto using uint_chars.
Qed.

Lemma contains_char_append c a b :
  contains_char c (a ++ b) = contains_char c a || contains_char c b.
Proof.
  induction a as [|x a IH]; [reflexivity|].
  rewrite append_cons. simpl. now rewrite IH, orb_assoc.
Qed.

Lemma all_chars_excludes p c s :
  all_chars p s = true -> p c = false -> contains_char c s = false.
Proof.
  intros Hs Hc. induction s as [|x s IH]; [reflexivity|].
  simpl in *. apply andb_true_iff in Hs as [Hx Hs].
  rewrite IH by exact Hs.
  destruct (Ascii.eqb_spec c x) as [->|_]; [congruence | reflexivity].
Qed.

Lemma to_int_proper (z : Z) :
  Z.to_int z <> Decimal.Pos Decimal.Nil /\ Z.to_int z <> Decimal.Neg Decimal.Nil.
Proof.
  destruct z as [|p|p]; simpl; split; try discriminate;
    intros [= H]; now apply DecimalPos.Unsigned.to_uint_nonnil in H.
Qed.

Lemma str_int_inj (z1 z2 : Z) : str_int z1 = str_int z2 -> z1 = z2.
Proof.
  unfold str_int. intros H.
  destruct (to_int_proper z1) as [Hp1 Hn1], (to_int_proper z2) as [Hp2 Hn2].
  apply (f_equal NilZero.int_of_string) in H.
  rewrite !NilZero.isi in H by assumption.
  injection H as H. now apply DecimalZ.to_int_inj.
Qed.

Lemma number_tuple_kept (z : Z) :
  replace "None" "null" ("(" ++ str_int z ++ ")") = "(" ++ str_int z ++ ")".
Proof.
  apply none_to_null_without_N.
  rewrite !contains_char_append.
  now rewrite (all_chars_excludes number_char "N" (str_int z) (str_int_chars z)).
Qed.

Lemma append_inj_l (t a b : string) : t ++ a = t ++ b -> a = b.
Proof.
  induction t as [|c t IH]; [easy|]. rewrite !append_cons.
  intros [= H]. now apply IH.
Qed.

End RenderFacts.

(** * Properties *)

(** ** The Redis client *)

Module RedisFacts.
Import Py Redis.

(** A connection on which every probe is answered. *)
Definition alive (w : world) : Prop := forall k, link w k = Pong.

(** What a key holds, read as a list or as a set. *)
Definition list_at (w : world) (table : string) : list string :=
  match keyspace w !! table with
  | Some (EList items) => items
  | _ => []
  end.

Definition set_at (w : world) (table : string) : list string :=
  match keyspace w !! table with
  | Some (ESet members) => members
  | _ => []
  end.

Definition holds_list (w : world) (table : string) : Prop :=
  match keyspace w !! table with
  | Some (ESet _) => False
  | _ => True
  end.

Definition holds_set (w : world) (table : string) : Prop :=
  match keyspace w !! table with
  | Some (EList _) => False
  | _ => True
  end.

(** The elements a call of [lpop] hands back. *)
Definition elements (p : popped) : list reply :=
  match p with
  | One RNone => []
  | One r => [r]
  | Many l => l
  end.

Lemma alive_ping w : alive w -> ping w = (Ret true, with_ping w).
Proof. intros H. unfold ping. now rewrite H. Qed.

Lemma alive_with_ping w : alive w -> alive (with_ping w).
Proof. intros H k. apply H. Qed.

Lemma alive_redis fuel w : alive w -> _redis fuel w = Some (Ret tt, with_ping w).
Proof. intros H. unfold _redis. now rewrite alive_ping. Qed.

Lemma sdelete_loop_initial rounds fuel table w :
  sdelete_loop rounds fuel table (CurStr "0") w = Some (Ret tt, w).
Proof. destruct rounds; reflexivity. Qed.

(** C10: [sdelete] enters its scan loop with the cursor ["0"], so the
    loop condition [cursor != "0"] is false at once: for every table it
    returns [None] and leaves the whole world, the stored set included, as
    it was; no command and not even a probe is sent. *)
Theorem sdelete_is_a_no_op (rounds fuel : nat) (table : string) (w : world) :
  sdelete rounds fuel table w = Some (Ret RNone, w).
Proof.
  unfold sdelete, task_bind. now rewrite sdelete_loop_initial.
Qed.

(** *** The reconnect loop *)

(** A probe outcome after which [_reconnect] sleeps and tries again. *)
Definition retryable (o : ping_outcome) : bool :=
  match o with
  | NoPong | PingRaises ConnectionError | PingRaises TimeoutError => true
  | _ => false
  end.

(** The world after [k] failed attempts and a successful one. *)
Definition reconnected (k : nat) (w : world) : world :=
  {| configured := configured w; keyspace := keyspace w; link := link w;
     pings := pings w + k + 1; dice := dice w; rolls := rolls w;
     slept := slept w + 2 * Z.of_nat k |}.

Lemma retry_step fuel rc w :
  configured w = true -> retryable (link w (pings w)) = true ->
  _reconnect (S fuel) rc w
  = _reconnect fuel (rc + 1) (time_sleep 2 (with_ping w)).
Proof.
  intros Hc Hr. cbn [_reconnect]. unfold get_connect, ping. rewrite Hc.
  destruct (link w (pings w)) as [| |[]]; simpl in Hr; try discriminate;
    reflexivity.
Qed.

Lemma reconnect_running fuel : forall rc w,
  configured w = true ->
  (forall j, (j < fuel)%nat -> retryable (link w (pings w + j)) = true) ->
  _reconnect fuel rc w = None.
Proof.
  induction fuel as [|fuel IH]; intros rc w Hc Hr; [reflexivity|].
  rewrite retry_step; auto.
  - apply IH; [exact Hc|]. intros j Hj. simpl.
    replace (S (pings w + j)) with (pings w + S j)%nat by lia.
    apply Hr. lia.
  - replace (pings w) with (pings w + 0)%nat by lia. apply Hr. lia.
Qed.

Lemma reconnect_success k : forall fuel rc w,
  configured w = true ->
  (forall j, (j < k)%nat -> retryable (link w (pings w + j)) = true) ->
  link w (pings w + k) = Pong -> (k < fuel)%nat ->
  _reconnect fuel rc w = Some (Ret true, reconnected k w).
Proof.
  induction k as [|k IH]; intros fuel rc w Hc Hr Hp Hk.
  - destruct fuel as [|fuel]; [lia|]. cbn [_reconnect].
    unfold get_connect, ping. rewrite Hc.
    replace (pings w + 0)%nat with (pings w) in Hp by lia. rewrite Hp.
    unfold reconnected, with_ping. do 3 f_equal; simpl; lia.
  - destruct fuel as [|fuel]; [lia|].
    rewrite retry_step; auto.
    + rewrite IH; auto.
      * unfold reconnected, time_sleep, with_ping; simpl.
        do 3 f_equal; lia.
      * intros j Hj. simpl.
        replace (S (pings w + j)) with (pings w + S j)%nat by lia.
        apply Hr. lia.
      * simpl. replace (S (pings w + k)) with (pings w + S k)%nat by lia.
        exact Hp.
      * lia.
    + replace (pings w) with (pings w + 0)%nat by lia. apply Hr. lia.
Qed.

(** A client whose server never answers again. *)
Definition dead_link : world :=
  {| configured := true; keyspace := ∅;
     link := fun _ => PingRaises ConnectionError; pings := 0;
     dice := fun k => k; rolls := 0; slept := 0 |}.

(** A call that has not returned after any number of reconnect attempts. *)
Definition still_running {A : Type} (call : nat -> option A) : Prop :=
  forall fuel, call fuel = None.

(** C4, as stated, fails on the Redis client: with a server that never
    answers, the reconnect loop is still running after any number of
    attempts, and so is the operation that probed; no error reaches the
    caller. *)
Lemma redis_reconnect_never_gives_up :
  still_running (fun fuel => _reconnect fuel 0 dead_link)
  /\ still_running (fun fuel => lget_count fuel "queue" dead_link).
Proof.
  split; intros fuel.
  - apply reconnect_running; reflexivity.
  - unfold lget_count, task_bind, _redis. simpl.
    rewrite reconnect_running; reflexivity.
Qed.

End RedisFacts.

(** ** The RabbitMQ connection loop *)

Module RabbitMqFacts.
Import Py RabbitMq.

Lemma connect_loop_attempts n d todo : forall w,
  (attempts (snd (connect_loop n d todo w)) <= attempts w + List.length todo)%nat.
Proof.
  induction todo as [|a todo IH]; intros w; simpl; [lia|].
  destruct (broker w (attempts w)); simpl; [lia|].
  destruct (a <? n); simpl; [|lia].
  etransitivity; [apply IH|]. simpl. lia.
Qed.

Lemma connect_loop_exhausted n d len : forall first w,
  (Z.of_nat first + Z.of_nat len = n)%Z ->
  (forall j, (j <= len)%nat -> broker w (attempts w + j) = false) ->
  connect_loop n d (map Z.of_nat (seq first (S len))) w
  = (Raise ConnectionError,
     {| broker := broker w; attempts := attempts w + S len;
        slept := slept w + Z.of_nat len * d; connected := connected w |}).
Proof.
  induction len as [|len IH]; intros first w Hn Hb.
  - simpl. replace (broker w (attempts w)) with false
      by (symmetry; replace (attempts w) with (attempts w + 0)%nat by lia;
          apply Hb; lia).
    replace (Z.of_nat first <? n) with false by (symmetry; apply Z.ltb_ge; lia).
    simpl. f_equal. f_equal; lia.
  - change (seq first (S (S len))) with (first :: seq (S first) (S len)).
    rewrite map_cons. cbn [connect_loop]. unfold try_connect.
    replace (broker w (attempts w)) with false
      by (symmetry; replace (attempts w) with (attempts w + 0)%nat by lia;
          apply Hb; lia).
    replace (Z.of_nat first <? n) with true by (symmetry; apply Z.ltb_lt; lia).
    cbv iota. rewrite IH.
    + simpl. f_equal. f_equal; lia.
    + lia.
    + intros j Hj. simpl.
      replace (S (attempts w + j)) with (attempts w + S j)%nat by lia.
      apply Hb. lia.
Qed.

End RabbitMqFacts.

Module ReconnectFacts.
Import Py.

(** C4 (amended): on the Redis client a failed probe starts a reconnect
    loop with a fixed backoff of 2 seconds and no attempt bound.  While the
    first [k] attempts fail in a way the loop retries, the loop is still
    running after [k] iterations, whatever [k] is; it returns [True] at the
    first attempt that succeeds, having slept [2 * k] seconds.  The bounded
    loop is [RabbitMqDB._connect]: it never makes more than
    [reconnect_attempts] attempts, and when all of them fail it raises
    [ConnectionError] after [reconnect_attempts - 1] sleeps of
    [reconnect_delay]. *)
Theorem reconnect_loops (w : Redis.world) (k fuel : nat) (retry_count : Z)
    (b : RabbitMq.world) (reconnect_attempts reconnect_delay : Z) :
  Redis.configured w = true ->
  (forall j, (j < k)%nat ->
     RedisFacts.retryable (Redis.link w (Redis.pings w + j)) = true) ->
  ((fuel <= k)%nat -> Redis._reconnect fuel retry_count w = None)
  /\ (Redis.link w (Redis.pings w + k) = Redis.Pong -> (k < fuel)%nat ->
      Redis._reconnect fuel retry_count w
      = Some (Ret true, RedisFacts.reconnected k w))
  /\ (RabbitMq.attempts
        (snd (RabbitMq._connect reconnect_attempts reconnect_delay b))
      <= RabbitMq.attempts b + Z.to_nat reconnect_attempts)%nat
  /\ (1 <= reconnect_attempts ->
      (forall j, (j < Z.to_nat reconnect_attempts)%nat ->
         RabbitMq.broker b (RabbitMq.attempts b + j) = false) ->
      RabbitMq._connect reconnect_attempts reconnect_delay b
      = (Raise ConnectionError,
         {| RabbitMq.broker := RabbitMq.broker b;
            RabbitMq.attempts :=
              RabbitMq.attempts b + Z.to_nat reconnect_attempts;
            RabbitMq.slept :=
              RabbitMq.slept b + (reconnect_attempts - 1) * reconnect_delay;
            RabbitMq.connected := RabbitMq.connected b |})).
Proof.
  intros Hc Hr. repeat split.
  - intros Hf. apply RedisFacts.reconnect_running; [exact Hc|].
    intros j Hj. apply Hr. lia.
  - intros Hp Hk. now apply RedisFacts.reconnect_success.
  - unfold RabbitMq._connect.
    etransitivity; [apply RabbitMqFacts.connect_loop_attempts|].
    unfold RabbitMq.range1. rewrite length_map, length_seq.
    replace (reconnect_attempts + 1 - 1) with reconnect_attempts by lia. lia.
  - intros Hn Hb. unfold RabbitMq._connect, RabbitMq.range1.
    replace (reconnect_attempts + 1 - 1) with reconnect_attempts by lia.
    destruct (Z.to_nat reconnect_attempts) as [|len] eqn:Hlen; [lia|].
    rewrite (RabbitMqFacts.connect_loop_exhausted reconnect_attempts
               reconnect_delay len 1 b).
    + f_equal. f_equal; lia.
    + lia.
    + intros j Hj. apply Hb. lia.
Qed.

Definition flaky_link : Redis.world :=
  {| Redis.configured := true; Redis.keyspace := ∅;
     Redis.link := fun k => if (k <? 2)%nat then Redis.NoPong else Redis.Pong;
     Redis.pings := 0; Redis.dice := fun k => k; Redis.rolls := 0;
     Redis.slept := 0 |}.

Definition no_broker : RabbitMq.world :=
  {| RabbitMq.broker := fun _ => false; RabbitMq.attempts := 0;
     RabbitMq.slept := 0; RabbitMq.connected := false |}.

Lemma reconnect_loops_witness :
  Redis._reconnect 3 0 flaky_link
  = Some (Ret true, RedisFacts.reconnected 2 flaky_link)
  /\ RabbitMq._connect 3 5 no_broker
     = (Raise ConnectionError,
        {| RabbitMq.broker := RabbitMq.broker no_broker;
           RabbitMq.attempts := 3; RabbitMq.slept := 10;
           RabbitMq.connected := false |}).
Proof.
  assert (Hc : Redis.configured flaky_link = true) by reflexivity.
  assert (Hr : forall j, (j < 2)%nat ->
            RedisFacts.retryable
              (Redis.link flaky_link (Redis.pings flaky_link + j)) = true).
  { intros [|[|j]] Hj; [reflexivity | reflexivity | lia]. }
  destruct (reconnect_loops flaky_link 2 3 0 no_broker 3 5 Hc Hr)
    as (_ & Hok & _ & Hrabbit).
  split.
  - apply Hok; [reflexivity | lia].
  - apply Hrabbit; [lia | reflexivity].
Defined.

End ReconnectFacts.

(** ** Popping more than a container holds *)

Module PopFacts.
Import Py Redis RedisFacts.

Lemma collect_rets (l : list reply) : collect (map Ret l) = Ret l.
Proof. induction l as [|r l IH]; simpl; [reflexivity|]. now rewrite IH. Qed.

Lemma with_keyspace_twice ks1 ks2 w :
  with_keyspace ks2 (with_keyspace ks1 w) = with_keyspace ks2 w.
Proof. reflexivity. Qed.

Lemma store_emptied table w :
  keyspace (store table (EList []) w) = delete table (keyspace w).
Proof. reflexivity. Qed.

(** A pipeline of as many [LPOP]s as the list has items returns the items
    in order and removes the key. *)
Lemma execute_lpops table items : forall w,
  keyspace w !! table = Some (EList items) -> items <> [] ->
  execute_all (repeat (CmdLpop table) (List.length items)) w
  = (map (fun x => Ret (RStr x)) items,
     with_keyspace (delete table (keyspace w)) w).
Proof.
  induction items as [|x items IH]; intros w Hk Hne; [contradiction|].
  cbn [List.length repeat execute_all run_command]. unfold cmd_lpop at 1.
  rewrite Hk. destruct items as [|y items].
  - reflexivity.
  - rewrite (IH (store table (EList (y :: items)) w)).
    + cbn [store keyspace with_keyspace map]. rewrite delete_insert_eq.
      reflexivity.
    + cbn [store keyspace with_keyspace]. apply lookup_insert_eq.
    + discriminate.
Qed.

Lemma take_out_spec members : forall i,
  (i < List.length members)%nat ->
  exists x rest,
    take_out i members = Some (x, rest)
    /\ Permutation members (x :: rest)
    /\ List.length members = S (List.length rest).
Proof.
  induction members as [|m members IH]; intros i Hi; simpl in Hi; [lia|].
  destruct i as [|i]; simpl.
  - exists m, members. auto.
  - destruct (IH i) as (x & rest & -> & Hp & Hl); [lia|].
    exists x, (m :: rest). repeat split.
    + rewrite Hp. apply perm_swap.
    + simpl. lia.
Qed.

(** A pipeline of as many [SPOP]s as the set has members returns every
    member once, in the order the server draws them, and removes the key. *)
Lemma execute_spops table n : forall members w,
  keyspace w !! table = Some (ESet members) ->
  List.length members = n -> n <> O ->
  exists l w',
    execute_all (repeat (CmdSpop table) n) w = (map Ret l, w')
    /\ Permutation l (map RStr members)
    /\ keyspace w' = delete table (keyspace w).
Proof.
  induction n as [|n IH]; intros members w Hk Hl Hn; [contradiction|].
  destruct members as [|m ms]; [discriminate|].
  cbn [repeat execute_all run_command]. unfold cmd_spop at 1. rewrite Hk.
  set (i := (dice w (rolls w) mod List.length (m :: ms))%nat).
  destruct (take_out_spec (m :: ms) i) as (x & rest & Ht & Hp & Hlen).
  { apply Nat.mod_upper_bound. discriminate. }
  rewrite Ht. destruct rest as [|r rest].
  - assert (n = O) by (simpl in *; lia). subst n.
    exists [RStr x], (store table (ESet []) (with_roll w)). repeat split.
    rewrite Hp. reflexivity.
  - destruct (IH (r :: rest) (store table (ESet (r :: rest)) (with_roll w)))
      as (l & w' & He & Hpl & Hks).
    + cbn [store keyspace with_keyspace with_roll]. apply lookup_insert_eq.
    + simpl in *. lia.
    + intros ->. simpl in *. lia.
    + exists (RStr x :: l), w'. rewrite He. repeat split.
      * rewrite Hpl, Hp. reflexivity.
      * rewrite Hks. cbn [store keyspace with_keyspace with_roll].
        apply delete_insert_eq.
Qed.

Lemma alive_count_list fuel table w :
  alive w -> holds_list w table ->
  lget_count fuel table w
  = Some (Ret (Z.of_nat (List.length (list_at w table))), with_ping w).
Proof.
  intros Ha Hh. unfold lget_count, task_bind, task_io, llen, list_at.
  rewrite alive_redis by exact Ha. cbn [keyspace with_ping].
  unfold holds_list in Hh.
  destruct (keyspace w !! table) as [[items|members]|]; easy.
Qed.

Lemma alive_count_set fuel table w :
  alive w -> holds_set w table ->
  sget_count fuel table w
  = Some (Ret (Z.of_nat (List.length (set_at w table))), with_ping w).
Proof.
  intros Ha Hh. unfold sget_count, task_bind, task_io, scard, set_at.
  rewrite alive_redis by exact Ha. cbn [keyspace with_ping].
  unfold holds_set in Hh.
  destruct (keyspace w !! table) as [[items|members]|]; easy.
Qed.

Lemma lpop_under_supply fuel table count w :
  alive w -> holds_list w table ->
  Z.of_nat (List.length (list_at w table)) < count ->
  exists p w',
    lpop fuel table count w = Some (Ret p, w')
    /\ elements p = map RStr (list_at w table)
    /\ list_at w' table = []
    /\ forall other, other <> table ->
         keyspace w' !! other = keyspace w !! other.
Proof.
  intros Ha Hh Hlt. unfold lpop, task_bind at 1.
  rewrite alive_count_list by assumption.
  replace (count <=? Z.of_nat (List.length (list_at w table))) with false
    by (symmetry; apply Z.leb_gt; lia).
  assert (Ha1 : alive (with_ping w)) by now apply alive_with_ping.
  unfold list_at in *. unfold holds_list in Hh.
  destruct (keyspace w !! table) as [[items|members]|] eqn:Hk;
    [ | contradiction | ].
  - destruct items as [|x [|y items]].
    + exists (One RNone), (with_ping w). cbn. rewrite Hk. auto.
    + exists (One (RStr x)), (store table (EList []) (with_ping (with_ping w))).
      replace (Z.of_nat (List.length [x]) =? 0) with false by reflexivity.
      replace (1 <? Z.of_nat (List.length [x])) with false by reflexivity.
      unfold task_bind. rewrite alive_redis by exact Ha1.
      unfold task_io, cmd_lpop. cbn [keyspace with_ping]. rewrite Hk.
      cbn. rewrite lookup_delete_eq. repeat split.
      intros other Ho. now rewrite lookup_delete_ne.
    + set (items' := x :: y :: items) in *.
      assert (Hn : List.length items' = S (S (List.length items)))
        by reflexivity.
      replace (Z.of_nat (List.length items') =? 0) with false
        by (symmetry; apply Z.eqb_neq; lia).
      replace (1 <? Z.of_nat (List.length items')) with true
        by (symmetry; apply Z.ltb_lt; lia).
      unfold task_bind. rewrite alive_redis by exact Ha1.
      unfold task_io, execute. rewrite Nat2Z.id.
      rewrite (execute_lpops table items' (with_ping (with_ping w)));
        [ | exact Hk | discriminate ].
      rewrite <- (map_map RStr Ret), collect_rets.
      eexists _, _. split; [reflexivity|]. cbn [elements keyspace with_keyspace].
      rewrite lookup_delete_eq. repeat split.
      intros other Ho. now rewrite lookup_delete_ne.
  - exists (One RNone), (with_ping w). cbn. rewrite Hk. auto.
Qed.

Lemma sget_under_supply fuel table count w :
  alive w -> holds_set w table ->
  Z.of_nat (List.length (set_at w table)) < count ->
  exists l w',
    sget fuel table count true w = Some (Ret l, w')
    /\ Permutation l (map RStr (set_at w table))
    /\ set_at w' table = []
    /\ forall other, other <> table ->
         keyspace w' !! other = keyspace w !! other.
Proof.
  intros Ha Hh Hlt. unfold sget, task_bind at 1 2.
  rewrite alive_count_set by assumption.
  replace (count <=? Z.of_nat (List.length (set_at w table))) with false
    by (symmetry; apply Z.leb_gt; lia).
  assert (Ha1 : alive (with_ping w)) by now apply alive_with_ping.
  assert (Ha2 : alive (with_ping (with_ping w))) by now apply alive_with_ping.
  rewrite alive_count_set by assumption.
  replace (set_at (with_ping w) table) with (set_at w table) by reflexivity.
  unfold set_at in *. unfold holds_set in Hh.
  destruct (keyspace w !! table) as [[items|members]|] eqn:Hk;
    [ contradiction | | ].
  - destruct members as [|x [|y members]].
    + exists [], (with_ping (with_ping w)). cbn. rewrite Hk. auto.
    + replace (Z.of_nat (List.length [x]) =? 0) with false by reflexivity.
      replace (1 <? Z.of_nat (List.length [x])) with false by reflexivity.
      unfold task_bind. rewrite alive_redis by exact Ha2.
      unfold task_io, cmd_spop. cbn [keyspace with_ping]. rewrite Hk.
      cbn. eexists _, _. split; [reflexivity|].
      cbn. rewrite lookup_delete_eq. repeat split; [reflexivity|].
      intros other Ho. now rewrite lookup_delete_ne.
    + set (members' := x :: y :: members) in *.
      assert (Hn : List.length members' = S (S (List.length members)))
        by reflexivity.
      replace (Z.of_nat (List.length members') =? 0) with false
        by (symmetry; apply Z.eqb_neq; lia).
      replace (1 <? Z.of_nat (List.length members')) with true
        by (symmetry; apply Z.ltb_lt; lia).
      unfold task_bind. rewrite alive_redis by exact Ha2.
      unfold task_io, execute. rewrite Nat2Z.id.
      destruct (execute_spops table (List.length members') members'
                  (with_ping (with_ping (with_ping w))))
        as (l & w' & He & Hp & Hks); [exact Hk | reflexivity | lia | ].
      rewrite He, collect_rets. exists l, w'. split; [reflexivity|].
      rewrite Hks. cbn [keyspace with_ping]. rewrite lookup_delete_eq.
      repeat split; [exact Hp|].
      intros other Ho. now rewrite lookup_delete_ne.
  - exists [], (with_ping (with_ping w)). cbn. rewrite Hk. auto.
Qed.

(** C6: on a live connection, when a list or a set holds [K] elements and
    more than [K] are asked for, [lpop] and [sget] with [is_pop] clamp the
    request to [K]: they return without raising, hand back exactly the [K]
    elements the container held (for a set, in the order the server draws
    them), leave the container empty and touch no other key. *)
Theorem pop_clamps_to_size (fuel : nat) (table : string) (count : Z)
    (w : world) :
  alive w ->
  (holds_list w table ->
   Z.of_nat (List.length (list_at w table)) < count ->
   exists p w',
     lpop fuel table count w = Some (Ret p, w')
     /\ elements p = map RStr (list_at w table)
     /\ List.length (elements p) = List.length (list_at w table)
     /\ list_at w' table = []
     /\ forall other, other <> table ->
          keyspace w' !! other = keyspace w !! other)
  /\ (holds_set w table ->
      Z.of_nat (List.length (set_at w table)) < count ->
      exists l w',
        sget fuel table count true w = Some (Ret l, w')
        /\ Permutation l (map RStr (set_at w table))
        /\ List.length l = List.length (set_at w table)
        /\ set_at w' table = []
        /\ forall other, other <> table ->
             keyspace w' !! other = keyspace w !! other).
Proof.
  intros Ha. split; intros Hh Hlt.
  - destruct (lpop_under_supply fuel table count w Ha Hh Hlt)
      as (p & w' & Hr & He & Hl & Hf).
    exists p, w'. repeat split; auto. now rewrite He, length_map.
  - destruct (sget_under_supply fuel table count w Ha Hh Hlt)
      as (l & w' & Hr & Hp & Hl & Hf).
    exists l, w'. repeat split; auto.
    now rewrite (Permutation_length Hp), length_map.
Qed.

(** A live client with a three-item list and a two-member set. *)
Definition stocked : world :=
  {| configured := true;
     keyspace :=
       <["queue" := EList ["a"; "b"; "c"]]>
         (<["seen" := ESet ["x"; "y"]]> ∅);
     link := fun _ => Pong; pings := 0;
     dice := fun k => S k; rolls := 0; slept := 0 |}.

Lemma pop_clamps_to_size_witness :
  (exists p w',
     lpop 0 "queue" 5 stocked = Some (Ret p, w')
     /\ elements p = [RStr "a"; RStr "b"; RStr "c"]
     /\ list_at w' "queue" = [])
  /\ (exists l w',
        sget 0 "seen" 5 true stocked = Some (Ret l, w')
        /\ List.length l = 2%nat
        /\ set_at w' "seen" = []).
Proof.
  assert (Ha : alive stocked) by (intros k; reflexivity).
  split.
  - destruct (proj1 (pop_clamps_to_size 0 "queue" 5 stocked Ha))
      as (p & w' & Hr & He & _ & Hl & _).
    + vm_compute. exact I.
    + vm_compute. reflexivity.
    + exists p, w'. repeat split; assumption.
  - destruct (proj2 (pop_clamps_to_size 0 "seen" 5 stocked Ha))
      as (l & w' & Hr & _ & Hn & Hl & _).
    + vm_compute. exact I.
    + vm_compute. reflexivity.
    + exists l, w'. repeat split; assumption.
Defined.

End PopFacts.

(** ** The MongoDB upsert executors *)

Module MongoFacts.
Import Py Mysql Mongo MemoryCollection.

(** The number of duplicate-key conflicts among the write errors. *)
Definition conflicts_in (errs : list write_error) : nat :=
  List.length (List.filter (fun e => code e =? 11000) errs).

(** The update or the replace policy: a conflict is to be resolved. *)
Definition resolves (replace : bool) (update_columns : list string) : Prop :=
  update_columns <> [] \/ replace = true.

Section Conflict.
Context {St : Type} (coll : collection St).

(** Without condition fields the loop of [add_batch] ends at the first
    duplicate-key conflict: its condition is asked of the method the class
    does not define, and neither [update_one] nor [replace_one] is called.
    Write errors with another code before it are passed over. *)
Lemma resolve_raises replace update_columns update_columns_value errs :
  forall add_count w,
  resolves replace update_columns ->
  conflicts_in errs <> 0%nat ->
  resolve coll replace update_columns update_columns_value [] errs add_count w
  = (Raise AttributeError, w).
Proof.
  induction errs as [|e errs IH]; intros add_count w Hmode Hc.
  - now contradiction Hc.
  - cbn [resolve]. unfold conflicts_in in Hc. cbn [List.filter] in Hc.
    destruct (code e =? 11000).
    + destruct update_columns as [|key keys].
      * destruct Hmode as [?| ->]; [contradiction | reflexivity].
      * reflexivity.
    + apply IH; assumption.
Qed.

(** [add] only ever reports the count it starts with. *)
Lemma add_reports_one data replace update_columns update_columns_value
    insert_ignore w n w' :
  add coll data replace update_columns update_columns_value insert_ignore w
  = (Ret n, w') ->
  n = 1.
Proof.
  unfold add, io_bind, io_lift, io_ret, on_server, get_update_condition.
  destruct (insert_one coll data (server w)) as [[[]|e] s1].
  - now intros [= <- _].
  - destruct e; try discriminate.
    destruct (columns_truthy update_columns); [discriminate|].
    destruct replace; [discriminate|].
    destruct insert_ignore; simpl; [now intros [= <- _] | discriminate].
Qed.

End Conflict.

(** C1 on the code: in the update and in the replace policy, with the
    default [condition_fields], a batch whose bulk insert reports at least
    one duplicate-key conflict makes [add_batch] raise [AttributeError]:
    the condition of the first conflict is asked of
    [__get_update_condition], which the class does not define.  No count is
    returned, and the collection is as the bulk insert left it: no conflict
    is updated, replaced or logged. *)
Theorem add_batch_conflict_raises {St : Type} (coll : collection St)
    (datas : list document) (replace : bool) (update_columns : columns)
    (update_columns_value : list value) (w w1 : world St)
    (errs : list write_error) :
  datas <> [] ->
  on_server (insert_many coll datas) w = (Raise (BulkWriteError errs), w1) ->
  conflicts_in errs <> 0%nat ->
  resolves replace (columns_list update_columns) ->
  add_batch coll datas replace update_columns update_columns_value [] w
  = (Raise AttributeError, w1).
Proof.
  intros Hne Hins Hc Hmode. unfold add_batch.
  destruct datas as [|d datas]; [contradiction|].
  rewrite Hins. now apply resolve_raises.
Qed.

(** A collection that already holds the record with [id] 1, and a batch
    of three records of which two collide: the first with the stored
    record, the third with the second. *)
Definition seeded : world (list document) :=
  {| server := [[("id", VInt 1); ("name", VStr "a")]]; logged := [] |}.

Definition batch : list document :=
  [[("id", VInt 1); ("name", VStr "b")];
   [("id", VInt 2); ("name", VStr "c")];
   [("id", VInt 2); ("name", VStr "z")]].

Definition batch_errors : list write_error :=
  [{| code := 11000; op := [("id", VInt 1); ("name", VStr "b")];
      errmsg := dup_errmsg "id" [("id", VInt 1)] |};
   {| code := 11000; op := [("id", VInt 2); ("name", VStr "z")];
      errmsg := dup_errmsg "id" [("id", VInt 2)] |}].

(** The collection after the bulk insert of [batch] into [seeded]. *)
Definition inserted : world (list document) :=
  {| server := [[("id", VInt 1); ("name", VStr "a")];
                [("id", VInt 2); ("name", VStr "c")]];
     logged := [] |}.

Lemma add_batch_conflict_raises_witness :
  add_batch (memory "id") batch false (ColSeq ["name"]) [] [] seeded
  = (Raise AttributeError, inserted)
  /\ add_batch (memory "id") batch true (ColSeq []) [] [] seeded
     = (Raise AttributeError, inserted).
Proof.
  split.
  - apply (add_batch_conflict_raises (memory "id") batch false
             (ColSeq ["name"]) [] seeded inserted batch_errors).
    + discriminate.
    + vm_compute. reflexivity.
    + vm_compute. discriminate.
    + left. discriminate.
  - apply (add_batch_conflict_raises (memory "id") batch true
             (ColSeq []) [] seeded inserted batch_errors).
    + discriminate.
    + vm_compute. reflexivity.
    + vm_compute. discriminate.
    + right. reflexivity.
Defined.

(** C2 on the code: inserting [{"id":1,"name":"a"}] returns 1 and stores
    the row.  Adding [{"id":1,"name":"b"}] with [update_columns=["name"]]
    then raises [AttributeError], from the call of
    [__get_update_condition]: no count is returned, [update_one] is not
    reached and the stored row is still [{"id":1,"name":"a"}].  Whatever
    the arguments, a count that [add] returns is 1, never 0. *)
Theorem add_conflict_scenario :
  add (memory "id") [("id", VInt 1); ("name", VStr "a")] false (ColSeq []) []
    false {| server := []; logged := [] |}
  = (Ret 1, seeded)
  /\ add (memory "id") [("id", VInt 1); ("name", VStr "b")] false
       (ColSeq ["name"]) [] false seeded
     = (Raise AttributeError, seeded)
  /\ forall replace update_columns update_columns_value insert_ignore w n w',
       add (memory "id") [("id", VInt 1); ("name", VStr "b")] replace
         update_columns update_columns_value insert_ignore w
       = (Ret n, w') ->
       n = 1.
Proof.
  split; [vm_compute; reflexivity|]. split; [vm_compute; reflexivity|].
  intros replace update_columns update_columns_value insert_ignore w n w'.
  apply add_reports_one.
Qed.

(** C9 on the code: when the insert hits a duplicate key, [add] in the
    update or in the replace policy raises [AttributeError], not a
    [ConflictResolutionError]: the condition is never derived from the
    error message, whatever the message is, because the method that would
    do it does not exist.  The collection is as the failed insert left it,
    so no update and no replace is applied, with any condition.  The same
    holds for a conflict that [add_batch] meets without condition
    fields. *)
Theorem conflict_condition_aborts {St : Type} (coll : collection St)
    (data : document) (replace : bool) (update_columns : columns)
    (update_columns_value : list value) (insert_ignore : bool)
    (w w1 : world St) (msg : string) :
  on_server (insert_one coll data) w = (Raise (DuplicateKeyError msg), w1) ->
  columns_truthy update_columns = true \/ replace = true ->
  add coll data replace update_columns update_columns_value insert_ignore w
  = (Raise AttributeError, w1)
  /\ forall error rest add_count columns w0,
       code error = 11000 ->
       resolves replace columns ->
       resolve coll replace columns update_columns_value [] (error :: rest)
         add_count w0
       = (Raise AttributeError, w0).
Proof.
  intros Hins Hmode. split.
  - unfold add. rewrite Hins.
    destruct (columns_truthy update_columns); [reflexivity|].
    destruct Hmode as [?| ->]; [discriminate | reflexivity].
  - intros error rest add_count columns w0 Hcode Hcols.
    apply resolve_raises; [exact Hcols|].
    unfold conflicts_in. cbn [List.filter]. rewrite Hcode. discriminate.
Qed.

(** A server whose duplicate-key message names no key. *)
Definition terse (index : string) : collection (list document) := {|
  insert_one := fun d docs =>
    if conflicts index d docs
    then (Raise (DuplicateKeyError "E11000 duplicate key error"), docs)
    else (Ret tt, (docs ++ [d])%list);
  insert_many := insert_many (memory index);
  update_one := update_one (memory index);
  replace_one := replace_one (memory index)
|}.

Lemma conflict_condition_aborts_witness :
  add (terse "id") [("id", VInt 1); ("name", VStr "b")] false
    (ColSeq ["name"]) [] false seeded
  = (Raise AttributeError, seeded)
  /\ add (terse "id") [("id", VInt 1); ("name", VStr "b")] true
       (ColSeq []) [] false seeded
     = (Raise AttributeError, seeded).
Proof.
  split.
  - apply (conflict_condition_aborts (terse "id")
             [("id", VInt 1); ("name", VStr "b")] false (ColSeq ["name"]) []
             false seeded seeded "E11000 duplicate key error").
    + vm_compute. reflexivity.
    + left. reflexivity.
  - apply (conflict_condition_aborts (terse "id")
             [("id", VInt 1); ("name", VStr "b")] true (ColSeq []) []
             false seeded seeded "E11000 duplicate key error").
    + vm_compute. reflexivity.
    + right. reflexivity.
Defined.

End MongoFacts.


(** * Further properties of the tools *)

(** ** [list2str] for every length *)

Module TupleFacts.
Import Py Mysql MysqlFacts RenderFacts.

Fixpoint last_char (s : string) : option ascii :=
  match s with
  | EmptyString => None
  | String c s' =>
      match last_char s' with
      | Some d => Some d
      | None => Some c
      end
  end.

Lemma last_char_append a b :
  last_char (a ++ b)
  = match last_char b with
    | Some c => Some c
    | None => last_char a
    end.
Proof.
  induction a as [|x a IH];
    [rewrite append_nil_l; now destruct (last_char b)|].
  rewrite append_cons. cbn [last_char]. rewrite IH.
  now destruct (last_char b), (last_char a).
Qed.

Lemma last_char_all p s c :
  all_chars p s = true -> last_char s = Some c -> p c = true.
Proof.
  induction s as [|x s IH]; [discriminate|]. cbn [all_chars last_char].
  intros H. apply andb_true_iff in H as [Hx Hs].
  destruct (last_char s) as [d|]; intros [= <-]; auto.
Qed.

Lemma last_char_nonempty s : s <> "" -> exists c, last_char s = Some c.
Proof.
  destruct s as [|c s]; [contradiction|]. intros _. cbn [last_char].
  destruct (last_char s); eauto.
Qed.

Lemma str_int_last z : exists c, last_char (str_int z) = Some c /\ c <> ","%char.
Proof.
  assert (Hne : exists c, last_char (str_int z) = Some c).
  { apply last_char_nonempty.
    unfold str_int, NilZero.string_of_int, NilZero.string_of_uint.
    destruct (Z.to_int z) as [d|d]; destruct d; discriminate. }
  destruct Hne as [c Hc]. exists c. split; [exact Hc|].
  intros ->. pose proof (last_char_all _ _ _ (str_int_chars z) Hc). discriminate.
Qed.

(** The text of an object never ends in a comma. *)
Lemma repr_last a : exists c, last_char (repr a) = Some c /\ c <> ","%char.
Proof.
  destruct a as [|z|s].
  - exists "e"%char. split; [reflexivity | discriminate].
  - apply str_int_last.
  - exists (repr_quote s). split.
    + unfold repr, repr_str. cbn [last_char]. rewrite last_char_append.
      reflexivity.
    + unfold repr_quote. destruct (_ && _); discriminate.
Qed.

Lemma join_last sep x l :
  last_char (join sep (l ++ [x])%list)
  = match last_char x with
    | Some c => Some c
    | None => last_char (join sep (l ++ [x])%list)
    end.
Proof.
  induction l as [|y l IH]; cbn [List.app join].
  - now destruct (last_char x).
  - destruct (l ++ [x])%list as [|z l'] eqn:E; [now destruct l|].
    rewrite !last_char_append. rewrite IH.
    destruct (last_char x); reflexivity.
Qed.

(** [re.sub] leaves a text alone that does not end in [",)"]. *)
Lemma re_sub_comma_paren_other s :
  (forall p, s <> p ++ ",)") ->
  (forall p, s <> p ++ String "," (String ")" (String newline ""))) ->
  re_sub_comma_paren s = s.
Proof.
  induction s as [|c s IH]; intros H1 H2; [reflexivity|].
  cbn [re_sub_comma_paren].
  destruct (String.eqb_spec (String c s) ",)") as [E|_];
    [exfalso; apply (H1 ""); exact E|].
  destruct (String.eqb_spec (String c s)
              (String "," (String ")" (String newline "")))) as [E|_];
    [exfalso; apply (H2 ""); exact E|].
  f_equal. apply IH.
  - intros p E. apply (H1 (String c p)). rewrite append_cons. now f_equal.
  - intros p E. apply (H2 (String c p)). rewrite append_cons. now f_equal.
Qed.

(** With two elements or more [re.sub] finds nothing to remove. *)
Lemma list2str_long (x y : atom) (datas : list atom) :
  list2str (x :: y :: datas)
  = "(" ++ join ", " (map repr (x :: y :: datas)) ++ ")".
Proof.
  unfold list2str. cbn [tuple_str].
  set (J := join ", " (map repr (x :: y :: datas))).
  assert (HJ : exists c, last_char J = Some c /\ c <> ","%char).
  { unfold J. destruct (exists_last (l := x :: y :: datas)) as (l & z & ->);
      [discriminate|].
    rewrite map_app. cbn [map]. rewrite join_last.
    destruct (repr_last z) as (c & -> & Hc). eauto. }
  destruct HJ as (c & HJ & Hc).
  apply re_sub_comma_paren_other.
  - intros p E.
    change ("(" ++ J ++ ")") with (String "(" (J ++ ")")) in E.
    rewrite <- append_cons in E.
    change (p ++ ",)") with (p ++ "," ++ ")") in E.
    rewrite <- append_assoc in E. apply append_inj_r in E.
    apply (f_equal last_char) in E. cbn [last_char] in E.
    rewrite HJ, last_char_append in E. cbn in E. congruence.
  - intros p E. apply (f_equal last_char) in E.
    change ("(" ++ J ++ ")") with (String "(" (J ++ ")")) in E.
    cbn [last_char] in E. rewrite !last_char_append in E. cbn in E.
    discriminate.
Qed.

Lemma list2str_join (datas : list atom) :
  list2str datas = "(" ++ join ", " (map repr datas) ++ ")".
Proof.
  destruct datas as [|x [|y datas]];
    [reflexivity | apply list2str_single | apply list2str_long].
Qed.

(** X1: [list2str] renders a list of any length as its objects' texts,
    separated by [", "] and enclosed in parentheses: the comma that Python
    puts after the only element of a one-element tuple is removed, and
    nothing else is; the empty list gives [()]. *)
Theorem list2str_joined (datas : list atom) :
  list2str datas = "(" ++ join ", " (map repr datas) ++ ")"
  /\ list2str [] = "()"
  /\ forall x, list2str [x] = "(" ++ repr x ++ ")".
Proof.
  split; [|split; [reflexivity | intros x; apply list2str_single]].
  destruct datas as [|x [|y datas]].
  - reflexivity.
  - apply list2str_single.
  - apply list2str_long.
Qed.

End TupleFacts.

(** ** The update statement *)

Module UpdateFacts.
Import Py Mysql MysqlFacts RenderFacts.

(** The SQL text of a value in a [set] clause. *)
Definition sql_literal (v : value) : string :=
  match v with
  | VNone => "null"
  | VBool b => if b then "1" else "0"
  | VInt z => str_int z
  | VStr s => repr_str (strip s)
  | VTemporal iso => repr_str iso
  | VComposite dumped => repr_str dumped
  end.

Definition set_clause (kv : string * value) : string :=
  "`" ++ fst kv ++ "`=" ++ sql_literal (snd kv).

Lemma format_update table key_values condition :
  format "update `{table}` set {key_values} where {condition}"
    [("table", table); ("key_values", key_values); ("condition", condition)]
  = Ret ("update `" ++ table ++ "` set " ++ key_values ++ " where "
           ++ condition).
Proof.
  rewrite <- (append_nil_r condition). vm_compute. now rewrite !append_nil_r.
Qed.

(** X2: [make_update_sql] returns a statement for every table, record and
    condition, braces and quotes included: the [set] clause lists the fields
    in the record's order, [None] as [null], an integer in decimal, a boolean
    as [1] or [0], a string as the [repr] of its stripped text, and the
    condition follows [where] verbatim.  An empty record gives an empty
    [set] clause. *)
Theorem make_update_sql_statement (table : string) (data : dict value)
    (condition : string) :
  make_update_sql table data condition
  = Ret ("update `" ++ table ++ "` set " ++ join ", " (map set_clause data)
           ++ " where " ++ condition)
  /\ make_update_sql table [] condition
     = Ret ("update `" ++ table ++ "` set  where " ++ condition).
Proof.
  split.
  - unfold make_update_sql. rewrite format_update. do 6 f_equal.
    apply map_ext. intros [key v]. unfold set_clause. cbn [fst snd].
    destruct v as [|[]|z|s|iso|dumped]; reflexivity.
  - unfold make_update_sql. cbn [map join]. now rewrite format_update.
Qed.

End UpdateFacts.

(** ** The single-record statement with update columns *)

Module DuplicateFacts.
Import Py Mysql MysqlFacts RenderFacts.

Definition brace (c : ascii) : bool := Ascii.eqb c "{" || Ascii.eqb c "}".

(** A text [str.format] copies as it is. *)
Definition brace_free (s : string) : Prop :=
  all_chars (fun c => negb (brace c)) s = true.

Lemma all_chars_append p a b :
  all_chars p (a ++ b) = all_chars p a && all_chars p b.
Proof.
  induction a as [|c a IH]; [now rewrite append_nil_l|].
  rewrite append_cons. cbn [all_chars]. rewrite IH. apply andb_assoc.
Qed.

Lemma all_chars_join p sep l :
  all_chars p sep = true -> Forall (fun x => all_chars p x = true) l ->
  all_chars p (join sep l) = true.
Proof.
  intros Hsep H. induction H as [|x l Hx Hl IH]; [reflexivity|].
  cbn [join]. destruct l as [|y l]; [exact Hx|].
  rewrite !all_chars_append, Hx, Hsep, IH. reflexivity.
Qed.

Lemma not_brace c :
  negb (brace c) = true -> Ascii.eqb c "{" = false /\ Ascii.eqb c "}" = false.
Proof.
  unfold brace. destruct (Ascii.eqb c "{"), (Ascii.eqb c "}"); auto;
    discriminate.
Qed.

Lemma format_from_text kw X :
  brace_free X -> format_from kw FText X = Ret X.
Proof.
  unfold brace_free. induction X as [|c X IH]; [reflexivity|].
  cbn [all_chars format_from]. intros H. apply andb_true_iff in H as [Hc HX].
  apply not_brace in Hc as [-> ->]. now rewrite IH.
Qed.

Lemma format_from_unclosed kw X :
  brace_free X -> forall st, st <> FText ->
  format_from kw st X = Raise FormatError.
Proof.
  unfold brace_free. induction X as [|c X IH]; intros H st Hst.
  - destruct st; [contradiction | reflexivity..].
  - cbn [all_chars] in H. apply andb_true_iff in H as [Hc HX].
    apply not_brace in Hc as [Ho Hc]. cbn [format_from].
    destruct st; [contradiction | | | ]; rewrite ?Ho, ?Hc;
      [apply IH | reflexivity | apply IH]; auto; discriminate.
Qed.

(** A brace-free text after a template is appended to the result. *)
Lemma format_from_append kw X :
  brace_free X -> forall P st,
  format_from kw st (P ++ X) = do r <- format_from kw st P; Ret (r ++ X).
Proof.
  intros HX. induction P as [|c P IH]; intros st.
  - rewrite append_nil_l. destruct st; cbn [format_from bind].
    + rewrite append_nil_l. now apply format_from_text.
    + apply format_from_unclosed; [exact HX | discriminate].
    + apply format_from_unclosed; [exact HX | discriminate].
    + apply format_from_unclosed; [exact HX | discriminate].
  - rewrite append_cons. cbn [format_from].
    destruct st as [| | |name].
    + destruct (Ascii.eqb c "{"); [apply IH|].
      destruct (Ascii.eqb c "}"); [apply IH|].
      rewrite IH. now destruct (format_from kw FText P).
    + destruct (Ascii.eqb c "{").
      * rewrite IH. now destruct (format_from kw FText P).
      * destruct (Ascii.eqb c "}"); [reflexivity | apply IH].
    + destruct (Ascii.eqb c "}"); [|reflexivity].
      rewrite IH. now destruct (format_from kw FText P).
    + destruct (Ascii.eqb c "}").
      * destruct (dict_get name kw) as [v|]; [|reflexivity].
        rewrite IH. destruct (format_from kw FText P); [|reflexivity].
        cbn [bind]. now rewrite append_assoc.
      * destruct (Ascii.eqb c "{"); [reflexivity | apply IH].
Qed.

Definition values_of (key : string) : string :=
  key ++ "=values(" ++ key ++ ")".

Lemma values_of_brace_free key : brace_free key -> brace_free (values_of key).
Proof.
  unfold brace_free, values_of. intros H.
  rewrite !all_chars_append, H. reflexivity.
Qed.

Lemma format_insert_head ignore table keys values :
  ignore = "" \/ ignore = " ignore" ->
  format
    ("insert" ++ ignore
       ++ " into `{table}` {keys} values {values} on duplicate key update ")
    [("table", table); ("keys", keys); ("values", values)]
  = Ret ("insert" ++ ignore ++ " into `" ++ table ++ "` " ++ keys
           ++ " values " ++ values ++ " on duplicate key update ").
Proof. intros [-> | ->]; vm_compute; reflexivity. Qed.

(** X3: with update columns whose names hold no brace, [make_insert_sql]
    returns the insert statement followed by [on duplicate key update] and
    one [c=values(c)] per column, the names as given, without backticks;
    [auto_update] plays no part in it, and [insert_ignore] still adds
    [ignore].  The [None] to [null] replacement covers the whole
    statement. *)
Theorem make_insert_sql_on_duplicate (table : string) (data : dict value)
    (auto_update : bool) (update_columns : columns) (insert_ignore : bool) :
  columns_truthy update_columns = true ->
  Forall brace_free (columns_list update_columns) ->
  make_insert_sql table data auto_update update_columns insert_ignore
  = Ret (replace "None" "null"
           ("insert" ++ (if insert_ignore then " ignore" else "")
              ++ " into `" ++ table ++ "` " ++ batch_header (dict_keys data)
              ++ " values "
              ++ list2str (map format_sql_value (dict_values data))
              ++ " on duplicate key update "
              ++ join ", " (map values_of (columns_list update_columns)))).
Proof.
  intros Ht Hb. unfold make_insert_sql. rewrite Ht.
  fold (batch_header (dict_keys data)).
  change (fun key : string => key ++ "=values(" ++ key ++ ")") with values_of.
  assert (HU : brace_free
                 (join ", " (map values_of (columns_list update_columns)))).
  { apply all_chars_join; [reflexivity|].
    induction Hb as [|key l Hk Hl IH]; constructor;
      [now apply values_of_brace_free | exact IH]. }
  set (U := join ", " (map values_of (columns_list update_columns))) in *.
  set (ignore := if insert_ignore then " ignore" else "").
  assert (Hi : ignore = "" \/ ignore = " ignore")
    by (unfold ignore; destruct insert_ignore; auto).
  unfold format.
  replace ("insert" ++ ignore
             ++ " into `{table}` {keys} values {values} on duplicate key update "
             ++ U)
    with (("insert" ++ ignore
             ++ " into `{table}` {keys} values {values} on duplicate key update ")
            ++ U)
    by (now rewrite !append_assoc).
  rewrite (format_from_append _ U HU).
  fold (format ("insert" ++ ignore
                  ++ " into `{table}` {keys} values {values} on duplicate key update ")
          [("table", table); ("keys", batch_header (dict_keys data));
           ("values", list2str (map format_sql_value (dict_values data)))]).
  rewrite format_insert_head by exact Hi. cbn [bind].
  now rewrite !append_assoc.
Qed.

Lemma make_insert_sql_on_duplicate_witness :
  make_insert_sql "t" [("id", VInt 1); ("n", VStr "a")] true (ColSeq ["n"])
    true
  = Ret "insert ignore into `t` (`id`, `n`) values (1, 'a') on duplicate key update n=values(n)".
Proof.
  rewrite (make_insert_sql_on_duplicate "t" [("id", VInt 1); ("n", VStr "a")]
             true (ColSeq ["n"]) true).
  - vm_compute. reflexivity.
  - reflexivity.
  - repeat constructor.
Defined.

End DuplicateFacts.

(** ** The column list and the placeholders of a batch *)

Module HeaderFacts.
Import Py Mysql MysqlFacts RenderFacts TupleFacts DuplicateFacts.

(** [s.replace("'", "")] drops every single quote. *)
Fixpoint without_quotes (s : string) : string :=
  match s with
  | EmptyString => ""
  | String c s' =>
      if Ascii.eqb c squote then without_quotes s'
      else String c (without_quotes s')
  end.

Lemma replace_quote s : replace "'" "" s = without_quotes s.
Proof.
  unfold replace. induction s as [|c s IH]; [reflexivity|].
  cbn [replace_from without_quotes String.prefix].
  destruct (ascii_dec "'" c) as [<-|Hc].
  - replace (String.prefix "" s) with true by (now destruct s).
    rewrite append_nil_l. exact IH.
  - replace (Ascii.eqb c squote) with false; [now rewrite IH|].
    symmetry. apply Ascii.eqb_neq. intros ->. now apply Hc.
Qed.

Lemma without_quotes_append a b :
  without_quotes (a ++ b) = without_quotes a ++ without_quotes b.
Proof.
  induction a as [|c a IH]; [now rewrite !append_nil_l|].
  rewrite append_cons. cbn [without_quotes].
  destruct (Ascii.eqb c squote); [exact IH|].
  now rewrite append_cons, IH.
Qed.

Lemma without_quotes_none s :
  contains_char squote s = false -> without_quotes s = s.
Proof.
  induction s as [|c s IH]; [reflexivity|]. cbn [contains_char without_quotes].
  intros H. apply orb_false_iff in H as [Hc Hs].
  rewrite Ascii.eqb_sym in Hc. now rewrite Hc, IH.
Qed.

(** A character [repr] copies and the quote removal keeps. *)
Definition plain_char (c : ascii) : bool :=
  printable c && negb (Ascii.eqb c squote) && negb (Ascii.eqb c backslash).

Definition plain (s : string) : Prop := all_chars plain_char s = true.

Lemma plain_no_quote s : plain s -> contains_char squote s = false.
Proof.
  intros H. apply (all_chars_excludes plain_char); [exact H | reflexivity].
Qed.

Lemma repr_char_plain c : plain_char c = true -> repr_char squote c = String c "".
Proof.
  unfold plain_char, repr_char. intros H.
  apply andb_true_iff in H as [H Hb]. apply andb_true_iff in H as [Hp Hq].
  apply negb_true_iff in Hb, Hq. rewrite Hb, Hq, Hp. cbn [orb].
  destruct (Ascii.eqb_spec c "009") as [->|_]; [discriminate|].
  destruct (Ascii.eqb_spec c "010") as [->|_]; [discriminate|].
  destruct (Ascii.eqb_spec c "013") as [->|_]; [discriminate|].
  reflexivity.
Qed.

Lemma repr_body_plain s : plain s -> repr_body squote s = s.
Proof.
  unfold plain. induction s as [|c s IH]; [reflexivity|].
  cbn [all_chars repr_body]. intros H. apply andb_true_iff in H as [Hc Hs].
  now rewrite repr_char_plain, IH.
Qed.

Definition ticked (key : string) : string := "`" ++ key ++ "`".

Lemma ticked_plain key : plain key -> plain (ticked key).
Proof.
  unfold plain, ticked. intros H. rewrite !all_chars_append.
  now rewrite H.
Qed.

Lemma repr_plain s :
  plain s -> repr (AStr s) = String squote (s ++ String squote "").
Proof.
  intros H. unfold repr, repr_str, repr_quote.
  rewrite (plain_no_quote s H). cbn [andb]. now rewrite repr_body_plain.
Qed.

Lemma without_quotes_repr s : plain s -> without_quotes (repr (AStr s)) = s.
Proof.
  intros H. rewrite (repr_plain s H). cbn [without_quotes].
  rewrite Ascii.eqb_refl, without_quotes_append.
  cbn [without_quotes]. rewrite Ascii.eqb_refl, append_nil_r.
  apply without_quotes_none, plain_no_quote, H.
Qed.

Lemma without_quotes_join (l : list string) :
  Forall plain l ->
  without_quotes (join ", " (map (fun s => repr (AStr s)) l)) = join ", " l.
Proof.
  induction 1 as [|x l Hx Hl IH]; [reflexivity|].
  cbn [map join]. destruct l as [|y l].
  - now apply without_quotes_repr.
  - cbn [map] in *. rewrite !without_quotes_append, IH.
    now rewrite without_quotes_repr.
Qed.

Lemma list2str_unquoted (l : list string) :
  Forall plain l ->
  replace "'" "" (list2str (map AStr l)) = "(" ++ join ", " l ++ ")".
Proof.
  intros H. rewrite replace_quote, list2str_join, map_map.
  rewrite !without_quotes_append, without_quotes_join by exact H.
  reflexivity.
Qed.

Lemma batch_header_ticked keys :
  Forall plain keys ->
  batch_header keys = "(" ++ join ", " (map ticked keys) ++ ")".
Proof.
  intros H. unfold batch_header.
  replace (map backticked keys) with (map AStr (map ticked keys))
    by (now rewrite map_map).
  apply list2str_unquoted.
  induction H; constructor; [now apply ticked_plain | assumption].
Qed.

Lemma batch_placeholders_marks (keys : list string) :
  batch_placeholders keys
  = "(" ++ join ", " (map (fun _ => "%s") keys) ++ ")".
Proof.
  unfold batch_placeholders.
  replace (map (fun _ : string => AStr "%s") keys)
    with (map AStr (map (fun _ : string => "%s") keys))
    by (now rewrite map_map).
  apply list2str_unquoted.
  induction keys; constructor; [reflexivity | assumption].
Qed.

Lemma batch_keys_plain order datas :
  Forall (fun data => Forall plain (dict_keys data)) datas ->
  Forall plain (batch_keys order datas).
Proof.
  intros H. apply List.Forall_forall. intros k Hk.
  apply batch_keys_union in Hk as (d & Hd & Hkd).
  rewrite List.Forall_forall in H. specialize (H d Hd).
  rewrite List.Forall_forall in H. now apply H.
Qed.

(** X4: when the column names of a non-empty batch are printable and hold
    neither a single quote nor a backslash, [make_batch_sql] without update
    columns returns [replace into] or [insert ignore into] the table,
    followed by the backticked column names in parentheses, separated by
    [", "], then [values] and one [%s] per column, with no quote left in
    either list; the rows are bound separately. *)
Theorem batch_statement_plain (order : set_order) (table : string)
    (datas : list (dict value)) (auto_update : bool) :
  datas <> [] ->
  Forall (fun data => Forall plain (dict_keys data)) datas ->
  let keys := batch_keys order datas in
  batch_header keys = "(" ++ join ", " (map ticked keys) ++ ")"
  /\ batch_placeholders keys
     = "(" ++ join ", " (map (fun _ => "%s") keys) ++ ")"
  /\ make_batch_sql order table datas auto_update (ColSeq []) []
     = Ret (Some (batch_verb auto_update ++ " into `" ++ table ++ "` ("
                    ++ join ", " (map ticked keys) ++ ") values ("
                    ++ join ", " (map (fun _ => "%s") keys) ++ ")",
                  map (batch_row keys) datas)).
Proof.
  intros Hne Hp keys.
  assert (Hh := batch_header_ticked keys (batch_keys_plain order datas Hp)).
  assert (Hm := batch_placeholders_marks keys).
  split; [exact Hh|]. split; [exact Hm|].
  rewrite make_batch_sql_plain by (exact Hne || reflexivity).
  fold keys. rewrite Hh, Hm. do 3 f_equal.
  now rewrite !append_assoc.
Qed.

Lemma batch_statement_plain_witness :
  make_batch_sql insertion_order "t"
    [[("id", VInt 1); ("n", VStr "a")]; [("id", VInt 2); ("age", VNone)]]
    true (ColSeq []) []
  = Ret (Some ("replace into `t` (`id`, `n`, `age`) values (%s, %s, %s)",
               [[AInt 1; AStr "a"; ANone]; [AInt 2; ANone; ANone]])).
Proof.
  refine (proj2 (proj2 (batch_statement_plain insertion_order "t"
            [[("id", VInt 1); ("n", VStr "a")]; [("id", VInt 2); ("age", VNone)]]
            true _ _))).
  - discriminate.
  - repeat constructor.
Defined.

End HeaderFacts.

(** ** The executors when the database fails *)

Module ExecutorFacts.
Import Py Mysql.

(** X22: when no connection can be obtained, the exception is logged and
    handed to the callback, and nothing is closed; [add] then fails on
    [cursor.lastrowid] with [AttributeError], with or without a callback
    that returns, while [add_batch] returns [None]. *)
Theorem executors_without_connection {W : Type} (db : driver W)
    (sql : string) (params : list atom) (datas : list (list atom))
    (e : exn) (w w1 : W) :
  get_connection db w = (Raise e, w1) ->
  add db sql params None w = (Raise AttributeError, w1)
  /\ (forall callfunc w2,
        callfunc e w1 = (Ret tt, w2) ->
        add db sql params (Some callfunc) w = (Raise AttributeError, w2))
  /\ (forall callfunc e2 w2,
        callfunc e w1 = (Raise e2, w2) ->
        add db sql params (Some callfunc) w = (Raise e2, w2))
  /\ add_batch db sql datas w = (Ret None, w1).
Proof.
  intros Hget. unfold add, add_batch. rewrite Hget. cbn.
  split; [reflexivity|]. split; [|split; [|reflexivity]].
  - intros callfunc w2 Hcall. now rewrite Hcall.
  - intros callfunc e2 w2 Hcall. now rewrite Hcall.
Qed.

(** A pool that hands out no connection. *)
Definition no_pool : driver unit :=
  {| get_connection := io_raise TimeoutError;
     cursor_execute := fun _ _ => io_ret 1;
     cursor_executemany := fun _ _ => io_ret 1;
     cursor_fetchone := io_ret None;
     cursor_fetchmany := fun _ => io_ret [];
     cursor_fetchall := io_ret [];
     cursor_description := fun _ => [];
     conn_commit := io_ret tt;
     conn_close := io_ret tt;
     cursor_close := io_ret tt;
     cursor_lastrowid := fun _ => 0 |}.

Lemma executors_without_connection_witness :
  add no_pool "insert into `t` (`a`) values (1)" [] None tt
  = (Raise AttributeError, tt)
  /\ add_batch no_pool "insert ignore into `t` (`a`) values (%s)" [[AInt 1]] tt
     = (Ret None, tt).
Proof.
  split.
  - exact (proj1 (executors_without_connection no_pool _ [] [] TimeoutError
                    tt tt eq_refl)).
  - exact (proj2 (proj2 (proj2
             (executors_without_connection no_pool _ [] _ TimeoutError
                tt tt eq_refl)))).
Defined.

(** The connection and the cursor close without error. *)
Definition closes {W : Type} (db : driver W) (w w' : W) : Prop :=
  exists w1, conn_close db w = (Ret tt, w1) /\ cursor_close db w1 = (Ret tt, w').

(** X23: a failure after the connection was obtained is logged and not
    reported.  When the statement or the commit raises, [add] without a
    callback still returns [cursor.lastrowid]; when [executemany] raises,
    [add_batch] returns [None]; and when [executemany] has returned [n] rows
    and the commit raises, [add_batch] still returns [n].  In each case the
    connection and the cursor are closed. *)
Theorem executors_report_no_failure {W : Type} (db : driver W)
    (sql : string) (params : list atom) (datas : list (list atom))
    (e : exn) (w w1 : W) :
  get_connection db w = (Ret tt, w1) ->
  (forall w2 w3,
     cursor_execute db sql params w1 = (Raise e, w2) -> closes db w2 w3 ->
     add db sql params None w = (Ret (cursor_lastrowid db w3), w3))
  /\ (forall n w2 w3 w4,
        cursor_execute db sql params w1 = (Ret n, w2) ->
        conn_commit db w2 = (Raise e, w3) -> closes db w3 w4 ->
        add db sql params None w = (Ret (cursor_lastrowid db w4), w4))
  /\ (forall w2 w3,
        cursor_executemany db sql datas w1 = (Raise e, w2) ->
        closes db w2 w3 ->
        add_batch db sql datas w = (Ret None, w3))
  /\ (forall n w2 w3 w4,
        cursor_executemany db sql datas w1 = (Ret n, w2) ->
        conn_commit db w2 = (Raise e, w3) -> closes db w3 w4 ->
        add_batch db sql datas w = (Ret (Some n), w4)).
Proof.
  intros Hget. unfold add, add_batch, close_connection, io_bind.
  rewrite Hget. split; [|split; [|split]].
  - intros w2 w3 He (wc & Hc1 & Hc2). now rewrite He, Hc1, Hc2.
  - intros n w2 w3 w4 He Hc (wc & Hc1 & Hc2).
    now rewrite He, Hc, Hc1, Hc2.
  - intros w2 w3 He (wc & Hc1 & Hc2). now rewrite He, Hc1, Hc2.
  - intros n w2 w3 w4 He Hc (wc & Hc1 & Hc2).
    now rewrite He, Hc, Hc1, Hc2.
Qed.

(** A server that records the statements it ran and whether the connection
    is open, and whose commit fails. *)
Definition no_commit : driver (list string * bool) :=
  {| get_connection := fun s => (Ret tt, (fst s, true));
     cursor_execute := fun sql _ s => (Ret 1, ((fst s ++ [sql])%list, snd s));
     cursor_executemany := fun sql datas s =>
       (Ret (Z.of_nat (List.length datas)), ((fst s ++ [sql])%list, snd s));
     cursor_fetchone := io_ret None;
     cursor_fetchmany := fun _ => io_ret [];
     cursor_fetchall := io_ret [];
     cursor_description := fun _ => [];
     conn_commit := io_raise (OtherError "commit");
     conn_close := fun s => (Ret tt, (fst s, false));
     cursor_close := io_ret tt;
     cursor_lastrowid := fun s => Z.of_nat (List.length (fst s)) |}.

Lemma executors_report_no_failure_witness :
  add_batch no_commit "insert ignore into `t` (`a`) values (%s)"
    [[AInt 1]; [AInt 2]] ([], false)
  = (Ret (Some 2), (["insert ignore into `t` (`a`) values (%s)"], false)).
Proof.
  destruct (executors_report_no_failure no_commit
              "insert ignore into `t` (`a`) values (%s)" []
              [[AInt 1]; [AInt 2]] (OtherError "commit") ([], false)
              ([], true) eq_refl)
    as (_ & _ & _ & H).
  apply (H 2 (["insert ignore into `t` (`a`) values (%s)"], true)
           (["insert ignore into `t` (`a`) values (%s)"], true)).
  - reflexivity.
  - reflexivity.
  - eexists. split; reflexivity.
Defined.

(** X24: [find] has no [finally] clause.  When the statement raises, the
    exception reaches the caller and the connection is not closed.  With
    [limit=1] and no row, [find] returns [None] without [to_json], and with
    [to_json] it raises [TypeError], again without closing.  With a row and
    [to_json] it returns the dict that pairs the column names with the
    row's values by position, converted when [conver_col] is set, and
    closes the connection. *)
Theorem find_failure_paths {W : Type} (db : driver W)
    (json_loads : string -> pyres value) (sql : string) (params : list atom)
    (conver_col : bool) (w w1 : W) :
  get_connection db w = (Ret tt, w1) ->
  (forall limit to_json e w2,
     cursor_execute db sql params w1 = (Raise e, w2) ->
     find db json_loads sql params limit to_json conver_col w = (Raise e, w2))
  /\ (forall n w2 w3,
        cursor_execute db sql params w1 = (Ret n, w2) ->
        cursor_fetchone db w2 = (Ret None, w3) ->
        find db json_loads sql params 1 true conver_col w
        = (Raise TypeError, w3)
        /\ forall w4, closes db w3 w4 ->
             find db json_loads sql params 1 false conver_col w
             = (Ret FoundNone, w4))
  /\ (forall n row w2 w3 w4,
        cursor_execute db sql params w1 = (Ret n, w2) ->
        cursor_fetchone db w2 = (Ret (Some row), w3) ->
        closes db w3 w4 ->
        find db json_loads sql params 1 true conver_col w
        = (Ret (FoundDict
                  (dict_of_pairs
                     (combine (cursor_description db w3)
                        (if conver_col then map (convert json_loads) row
                         else row)))), w4)).
Proof.
  intros Hget. unfold find, close_connection, io_bind, io_ret.
  rewrite Hget. split; [|split].
  - intros limit to_json e w2 He. now rewrite He.
  - intros n w2 w3 He Hf. rewrite He. cbn [Z.eqb Pos.eqb]. rewrite Hf.
    split; [reflexivity|]. intros w4 (wc & Hc1 & Hc2). now rewrite Hc1, Hc2.
  - intros n row w2 w3 w4 He Hf (wc & Hc1 & Hc2).
    rewrite He. cbn [Z.eqb Pos.eqb]. now rewrite Hf, Hc1, Hc2.
Qed.

(** A server whose table is missing; it records whether the connection is
    open. *)
Definition no_table : driver bool :=
  {| get_connection := fun _ => (Ret tt, true);
     cursor_execute := fun _ _ => io_raise (OtherError "1146");
     cursor_executemany := fun _ _ => io_raise (OtherError "1146");
     cursor_fetchone := io_ret None;
     cursor_fetchmany := fun _ => io_ret [];
     cursor_fetchall := io_ret [];
     cursor_description := fun _ => [];
     conn_commit := io_ret tt;
     conn_close := fun _ => (Ret tt, false);
     cursor_close := io_ret tt;
     cursor_lastrowid := fun _ => 0 |}.

Lemma find_failure_paths_witness :
  find no_table (fun _ => Raise (OtherError "json")) "select * from `t`" []
    0 true true false
  = (Raise (OtherError "1146"), true).
Proof.
  apply (proj1 (find_failure_paths no_table (fun _ => Raise (OtherError "json"))
                  "select * from `t`" [] true false true eq_refl)).
  reflexivity.
Defined.

End ExecutorFacts.

(** ** The values of the single-record statement *)

Module InsertFacts.
Import Py Mysql MysqlFacts RenderFacts TupleFacts DuplicateFacts.

(** [None] occurs in the text. *)
Fixpoint occurs_None (s : string) : bool :=
  match s with
  | EmptyString => false
  | String c s' => String.prefix "None" s || occurs_None s'
  end.

Lemma prefix_None_head c s : String.prefix "None" (String c s) = true -> c = "N"%char.
Proof. intros H. now destruct (prefix_None_inv _ H) as [t [= -> _]]. Qed.

(** The replacement goes past a character that is not [N]. *)
Lemma none_to_null_step c X :
  c <> "N"%char ->
  none_to_null 0 (String c X) = String c (none_to_null 0 X).
Proof.
  intros Hc. unfold none_to_null. cbn [replace_from].
  destruct (String.prefix "None" (String c X)) eqn:Hp; [|reflexivity].
  now apply prefix_None_head in Hp.
Qed.

(** The replacement leaves a text without [None] as it is. *)
Lemma none_to_null_clean s : occurs_None s = false -> none_to_null 0 s = s.
Proof.
  unfold none_to_null. induction s as [|c s IH]; [reflexivity|].
  cbn [occurs_None replace_from]. intros H.
  apply orb_false_iff in H as [Hp Hs]. rewrite Hp. f_equal. now apply IH.
Qed.

Lemma occurs_None_skip a Y :
  contains_char "N" a = false -> occurs_None (a ++ Y) = occurs_None Y.
Proof.
  induction a as [|x a IH]; [reflexivity|]. rewrite append_cons.
  cbn [contains_char occurs_None]. intros H.
  apply orb_false_iff in H as [Hx Ha]. rewrite (IH Ha).
  destruct (String.prefix "None" (String x (a ++ Y))) eqn:Hp; [|reflexivity].
  apply prefix_None_head in Hp. subst x. discriminate.
Qed.

Lemma occurs_None_append a t :
  occurs_None (a ++ t) = false -> occurs_None a = false.
Proof.
  induction a as [|x a IH]; [reflexivity|]. rewrite append_cons.
  cbn [occurs_None]. intros H. apply orb_false_iff in H as [Hp Ha].
  rewrite (IH Ha), orb_false_r.
  destruct (String.prefix "None" (String x a)) eqn:Hq; [|reflexivity].
  apply (prefix_None_append _ t) in Hq. rewrite append_cons in Hq. congruence.
Qed.

(** *** [strip] keeps a text free of [None] *)

Lemma lstrip_clean s : occurs_None s = false -> occurs_None (lstrip s) = false.
Proof.
  induction s as [|c s IH]; [reflexivity|]. intros H. cbn [lstrip].
  destruct (whitespace c); [|exact H].
  cbn [occurs_None] in H. apply orb_false_iff in H as [_ H]. now apply IH.
Qed.

Lemma rstrip_prefix s : exists t, s = rstrip s ++ t.
Proof.
  induction s as [|c s [t IH]]; [now exists ""|]. cbn [rstrip].
  destruct (rstrip s) as [|x r].
  - destruct (whitespace c).
    + now exists (String c s).
    + exists s. reflexivity.
  - exists t. rewrite append_cons. now f_equal.
Qed.

Lemma strip_clean s : occurs_None s = false -> occurs_None (strip s) = false.
Proof.
  intros H. apply lstrip_clean in H. unfold strip.
  destruct (rstrip_prefix (lstrip s)) as [t Ht]. rewrite Ht in H.
  now apply occurs_None_append in H.
Qed.

(** *** [repr] keeps a text free of [None] *)

Definition quote (q : ascii) : Prop := q = squote \/ q = dquote.

Lemma repr_quote_cases s : quote (repr_quote s).
Proof. unfold quote, repr_quote. destruct (_ && _); auto. Qed.

(** A character is rendered as itself, or as an escape sequence that
    holds no [N]. *)
Lemma repr_char_shape q c :
  quote q ->
  repr_char q c = String c ""
  \/ exists r, repr_char q c = String backslash r /\ contains_char "N" r = false.
Proof.
  intros [-> | ->];
    destruct c as [[|] [|] [|] [|] [|] [|] [|] [|]]; vm_compute;
    first [left; reflexivity | right; eexists; split; reflexivity].
Qed.

Lemma repr_char_head q c X x Y :
  quote q -> x <> backslash ->
  repr_char q c ++ X = String x Y -> c = x /\ X = Y.
Proof.
  intros Hq Hx H. destruct (repr_char_shape q c Hq) as [E | (r & E & _)];
    rewrite E in H; rewrite append_cons in H; injection H as H1 H2.
  - now rewrite append_nil_l in H2.
  - now subst x.
Qed.

(** [None] does not begin in the rendered text unless it begins in the
    text itself. *)
Lemma repr_body_prefix q s r :
  quote q ->
  String.prefix "None" (repr_body q s ++ String q r) = true ->
  String.prefix "None" s = true.
Proof.
  intros Hq H. apply prefix_None_inv in H as [t H].
  assert (Hend : forall x Y, x <> squote -> x <> dquote ->
                   String q r <> String x Y).
  { intros x Y H1 H2 [= E _]. destruct Hq; congruence. }
  assert (Hstep : forall s x Y,
            x <> backslash -> x <> squote -> x <> dquote ->
            repr_body q s ++ String q r = String x Y ->
            exists s', s = String x s' /\ repr_body q s' ++ String q r = Y).
  { intros [|c s'] x Y Hb H1 H2 E; cbn [repr_body] in E.
    - rewrite append_nil_l in E. now apply Hend in E.
    - rewrite append_assoc in E.
      apply repr_char_head in E as [-> E]; eauto. }
  apply Hstep in H as (s1 & -> & H); [|discriminate..].
  apply Hstep in H as (s2 & -> & H); [|discriminate..].
  apply Hstep in H as (s3 & -> & H); [|discriminate..].
  apply Hstep in H as (s4 & -> & H); [|discriminate..].
  apply prefix_None_intro.
Qed.

Lemma repr_body_clean q r :
  quote q -> occurs_None (String q r) = false ->
  forall s, occurs_None s = false ->
  occurs_None (repr_body q s ++ String q r) = false.
Proof.
  intros Hq Hr. induction s as [|c s IH]; intros H.
  - now rewrite append_nil_l.
  - pose proof H as Hs. cbn [occurs_None] in Hs.
    apply orb_false_iff in Hs as [Hp Hs].
    destruct (repr_char_shape q c Hq) as [E | (e & E & He)].
    + destruct (String.prefix "None" (repr_body q (String c s) ++ String q r))
        eqn:Hq'.
      * apply repr_body_prefix in Hq'; [congruence | exact Hq].
      * cbn [repr_body] in *. rewrite append_assoc in *. rewrite E in *.
        rewrite append_cons, append_nil_l in *. cbn [occurs_None].
        rewrite Hq'. now apply IH.
    + cbn [repr_body]. rewrite append_assoc, occurs_None_skip; [now apply IH|].
      rewrite E. cbn [contains_char]. now rewrite He.
Qed.

Lemma repr_str_clean s :
  occurs_None s = false -> occurs_None (repr_str s) = false.
Proof.
  intros H. unfold repr_str.
  generalize (repr_quote_cases s). generalize (repr_quote s). intros q Hq.
  assert (Hend : occurs_None (String q "") = false)
    by (destruct Hq as [-> | ->]; reflexivity).
  cbn [occurs_None]. rewrite (repr_body_clean q "" Hq Hend s H), orb_false_r.
  destruct (String.prefix "None" (String q (repr_body q s ++ String q "")))
    eqn:Hp; [|reflexivity].
  apply prefix_None_head in Hp. destruct Hq; subst q; discriminate.
Qed.

(** *** The text of a value *)

(** The text of a value in the statement, by the coercion rules: [None] is
    the null literal, a boolean is the integer 1 or 0, a string is stripped
    and quoted, a date or a time is its [str] text, quoted. *)
Definition sql_text (v : value) : string :=
  match v with
  | VNone => "null"
  | VBool b => if b then "1" else "0"
  | VInt z => str_int z
  | VStr s => repr_str (strip s)
  | VTemporal iso => repr_str iso
  | VComposite dumped => repr_str dumped
  end.

(** The text of the value does not contain [None]. *)
Definition without_None (v : value) : Prop :=
  match v with
  | VStr s | VTemporal s | VComposite s => occurs_None s = false
  | _ => True
  end.

Lemma str_int_kept z : none_to_null 0 (str_int z) = str_int z.
Proof.
  apply none_to_null_without_N.
  now apply (all_chars_excludes number_char "N" _ (str_int_chars z)).
Qed.

Lemma value_text v :
  without_None v -> none_to_null 0 (repr (format_sql_value v)) = sql_text v.
Proof.
  destruct v as [|b|z|s|iso|dumped]; cbn [without_None format_sql_value repr];
    intros H.
  - reflexivity.
  - destruct b; reflexivity.
  - apply str_int_kept.
  - now apply none_to_null_clean, repr_str_clean, strip_clean.
  - now apply none_to_null_clean, repr_str_clean.
  - now apply none_to_null_clean, repr_str_clean.
Qed.

(** The replacement over the texts of a tuple is done text by text. *)
Lemma tuple_texts values :
  Forall without_None values ->
  none_to_null 0 (join ", " (map repr (map format_sql_value values)))
  = join ", " (map sql_text values).
Proof.
  induction 1 as [|v values Hv Hrest IH]; [reflexivity|].
  destruct values as [|v' values]; [now apply value_text|].
  cbn [map join] in *.
  change (", " ++ ?X) with (String "," (String " " X)).
  rewrite none_to_null_split by (discriminate || apply Nat.le_0_l).
  rewrite !none_to_null_step by discriminate.
  now rewrite value_text, IH.
Qed.

(** *** The statement around the value tuple *)

(** The update columns that reach the statement. *)
Definition update_names (update_columns : columns) : list string :=
  if columns_truthy update_columns then columns_list update_columns else [].

Definition statement_verb (auto_update : bool) (update_columns : columns)
    (insert_ignore : bool) : string :=
  if columns_truthy update_columns
  then "insert" ++ (if insert_ignore then " ignore" else "")
  else insert_verb auto_update insert_ignore.

(** The text before the value tuple: the verb, the table and the column
    list, as the statement has them. *)
Definition insert_head (table : string) (keys : list string)
    (auto_update : bool) (update_columns : columns) (insert_ignore : bool)
  : string :=
  replace "None" "null"
    (statement_verb auto_update update_columns insert_ignore ++ " into `"
       ++ table ++ "` " ++ batch_header keys ++ " values ").

Definition update_clause (update_columns : columns) : string :=
  if columns_truthy update_columns
  then " on duplicate key update "
         ++ join ", " (map values_of (columns_list update_columns))
  else "".

(** The text after the value tuple: nothing, or the update clause. *)
Definition update_tail (update_columns : columns) : string :=
  replace "None" "null" (update_clause update_columns).

(** The statement before the [None] replacement, in every mode. *)
Lemma make_insert_sql_raw table data auto_update update_columns
    insert_ignore :
  Forall brace_free (update_names update_columns) ->
  make_insert_sql table data auto_update update_columns insert_ignore
  = Ret (replace "None" "null"
           ((statement_verb auto_update update_columns insert_ignore
               ++ " into `" ++ table ++ "` " ++ batch_header (dict_keys data)
               ++ " values ")
              ++ list2str (map format_sql_value (dict_values data))
              ++ update_clause update_columns)).
Proof.
  unfold update_names, statement_verb, update_clause.
  destruct (columns_truthy update_columns) eqn:Ht; intros Hb.
  - unfold make_insert_sql. rewrite Ht.
    fold (batch_header (dict_keys data)).
    change (fun key : string => key ++ "=values(" ++ key ++ ")")
      with values_of.
    assert (HU : brace_free
                   (join ", " (map values_of (columns_list update_columns)))).
    { apply all_chars_join; [reflexivity|].
      induction Hb as [|key l Hk Hl IH]; constructor;
        [now apply values_of_brace_free | exact IH]. }
    set (U := join ", " (map values_of (columns_list update_columns))) in *.
    set (ignore := if insert_ignore then " ignore" else "").
    assert (Hi : ignore = "" \/ ignore = " ignore")
      by (unfold ignore; destruct insert_ignore; auto).
    unfold format.
    replace ("insert" ++ ignore
               ++ " into `{table}` {keys} values {values} on duplicate key update "
               ++ U)
      with (("insert" ++ ignore
               ++ " into `{table}` {keys} values {values} on duplicate key update ")
              ++ U)
      by (now rewrite !append_assoc).
    rewrite (format_from_append _ U HU).
    fold (format ("insert" ++ ignore
                    ++ " into `{table}` {keys} values {values} on duplicate key update ")
            [("table", table); ("keys", batch_header (dict_keys data));
             ("values", list2str (map format_sql_value (dict_values data)))]).
    rewrite format_insert_head by exact Hi. cbn [bind].
    now rewrite !append_assoc.
  - rewrite make_insert_sql_plain by exact Ht.
    now rewrite append_nil_r, !append_assoc.
Qed.

(** The replacement is done separately on the head, on each text of the
    tuple and on the tail. *)
Lemma none_to_null_statement head values tail :
  Forall without_None values ->
  replace "None" "null"
    (head ++ list2str (map format_sql_value values) ++ tail)
  = replace "None" "null" head
      ++ "(" ++ join ", " (map sql_text values) ++ ")"
      ++ replace "None" "null" tail.
Proof.
  intros Hv. rewrite list2str_join. unfold replace. fold none_to_null.
  set (J := join ", " (map repr (map format_sql_value values))).
  replace (head ++ ("(" ++ J ++ ")") ++ tail)
    with (head ++ String "(" (J ++ String ")" tail)).
  2:{ f_equal. change ("(" ++ J ++ ")") with (String "(" (J ++ ")")).
      rewrite append_cons. f_equal. now rewrite append_assoc. }
  rewrite none_to_null_split by (discriminate || apply Nat.le_0_l).
  rewrite none_to_null_step by discriminate.
  rewrite none_to_null_split by (discriminate || apply Nat.le_0_l).
  rewrite none_to_null_step by discriminate.
  unfold J. now rewrite tuple_texts.
Qed.

(** *** Reading a quoted text back *)

Inductive escape : Type :=
  | Plain
  | Escaped
  | Hex1
  | Hex2 (high : nat).

Definition hex_value (c : ascii) : nat :=
  let n := nat_of_ascii c in
  if (n <? 58)%nat then (n - 48)%nat else (n - 87)%nat.

(** The text whose [repr] body is [s]. *)
Fixpoint unescape (st : escape) (s : string) : string :=
  match s with
  | EmptyString => ""
  | String c s' =>
      match st with
      | Plain =>
          if Ascii.eqb c backslash then unescape Escaped s'
          else String c (unescape Plain s')
      | Escaped =>
          if Ascii.eqb c "t" then String "009" (unescape Plain s')
          else if Ascii.eqb c "n" then String "010" (unescape Plain s')
          else if Ascii.eqb c "r" then String "013" (unescape Plain s')
          else if Ascii.eqb c "x" then unescape Hex1 s'
          else String c (unescape Plain s')
      | Hex1 => unescape (Hex2 (hex_value c)) s'
      | Hex2 high =>
          String (ascii_of_nat (16 * high + hex_value c)) (unescape Plain s')
      end
  end.

Lemma unescape_char q c X :
  quote q ->
  unescape Plain (repr_char q c ++ X) = String c (unescape Plain X).
Proof.
  intros [-> | ->];
    destruct c as [[|] [|] [|] [|] [|] [|] [|] [|]];
    match goal with
    | |- context [repr_char ?q ?c] =>
        let e := eval vm_compute in (repr_char q c) in
        change (repr_char q c) with e
    end;
    reflexivity.
Qed.

Lemma unescape_body q X :
  quote q -> forall s,
  unescape Plain (repr_body q s ++ X) = s ++ unescape Plain X.
Proof.
  intros Hq. induction s as [|c s IH]; [reflexivity|].
  cbn [repr_body]. rewrite append_assoc, unescape_char by exact Hq.
  now rewrite IH.
Qed.

(** [repr] of a text tells the text. *)
Lemma repr_str_inj s1 s2 : repr_str s1 = repr_str s2 -> s1 = s2.
Proof.
  unfold repr_str.
  generalize (repr_quote_cases s1) (repr_quote_cases s2).
  generalize (repr_quote s1) (repr_quote s2). intros q1 q2 H1 H2 [= -> H].
  apply (f_equal (unescape Plain)) in H.
  rewrite (unescape_body q2 (String q2 "") H2 s1) in H.
  rewrite (unescape_body q2 (String q2 "") H2 s2) in H.
  now apply append_inj_r in H.
Qed.

(** *** Values that keep apart *)

(** The values the coercion does not change: [None], an integer, a text
    without surrounding whitespace. *)
Definition exact (v : value) : Prop :=
  match v with
  | VNone | VInt _ => True
  | VStr s => strip s = s
  | _ => False
  end.

Definition temporal (v : value) : Prop :=
  match v with
  | VTemporal _ => True
  | _ => False
  end.

Lemma repr_str_quoted s :
  exists q r, quote q /\ repr_str s = String q r.
Proof.
  unfold repr_str. exists (repr_quote s). eexists.
  split; [apply repr_quote_cases | reflexivity].
Qed.

Lemma str_int_unquoted z s : str_int z <> repr_str s.
Proof.
  destruct (repr_str_quoted s) as (q & r & Hq & ->). intros E.
  pose proof (str_int_chars z) as Hc. rewrite E in Hc.
  cbn [all_chars] in Hc. apply andb_true_iff in Hc as [Hc _].
  destruct Hq; subst q; discriminate.
Qed.

Lemma null_unquoted s : "null" <> repr_str s.
Proof.
  destruct (repr_str_quoted s) as (q & r & Hq & ->). intros [= E _].
  destruct Hq; subst q; discriminate.
Qed.

Lemma null_not_int z : "null" <> str_int z.
Proof.
  intros E. pose proof (str_int_chars z) as Hc. rewrite <- E in Hc.
  discriminate.
Qed.

Lemma sql_text_inj v1 v2 :
  (exact v1 /\ exact v2) \/ (temporal v1 /\ temporal v2) ->
  sql_text v1 = sql_text v2 -> v1 = v2.
Proof.
  intros [[H1 H2] | [H1 H2]];
    destruct v1 as [|b1|z1|s1|i1|d1], v2 as [|b2|z2|s2|i2|d2];
    try contradiction; cbn [sql_text exact] in *; intros E.
  - reflexivity.
  - now apply null_not_int in E.
  - now apply null_unquoted in E.
  - symmetry in E. now apply null_not_int in E.
  - f_equal. now apply str_int_inj.
  - now apply str_int_unquoted in E.
  - symmetry in E. now apply null_unquoted in E.
  - symmetry in E. now apply str_int_unquoted in E.
  - f_equal. apply repr_str_inj in E. congruence.
  - f_equal. now apply repr_str_inj.
Qed.

(** One text of a joined list, between what comes before it and what comes
    after it. *)
Fixpoint leading (sep : string) (l : list string) : string :=
  match l with
  | [] => ""
  | x :: l' => x ++ sep ++ leading sep l'
  end.

Definition trailing (sep : string) (l : list string) : string :=
  match l with
  | [] => ""
  | _ => sep ++ join sep l
  end.

Lemma join_middle sep t after : forall before,
  join sep (before ++ t :: after)%list
  = leading sep before ++ t ++ trailing sep after.
Proof.
  induction before as [|x before IH].
  - cbn [List.app leading]. rewrite append_nil_l.
    destruct after; cbn [join trailing]; [now rewrite append_nil_r | reflexivity].
  - cbn [List.app leading]. rewrite !append_assoc, <- IH.
    cbn [join]. now destruct (before ++ t :: after)%list eqn:E;
      [destruct before; discriminate|].
Qed.

(** The statement of a record whose texts hold no [None]. *)
Lemma make_insert_sql_texts table data auto_update update_columns
    insert_ignore :
  Forall without_None (dict_values data) ->
  Forall brace_free (update_names update_columns) ->
  make_insert_sql table data auto_update update_columns insert_ignore
  = Ret (insert_head table (dict_keys data) auto_update update_columns
           insert_ignore
           ++ "(" ++ join ", " (map sql_text (dict_values data)) ++ ")"
           ++ update_tail update_columns).
Proof.
  intros Hv Hb. rewrite make_insert_sql_raw by exact Hb.
  now rewrite none_to_null_statement by exact Hv.
Qed.

(** *** The claim *)

(** C8, as stated, fails: the coercion is not lossless.  In a record of
    several columns, [True] and [1] render to the same statement, a string
    renders as the string without its surrounding whitespace does, and a
    date renders as the string of its text does. *)
Lemma coercion_not_lossless :
  VBool true <> VInt 1
  /\ make_insert_sql "t" [("k", VBool true); ("m", VNone)] false (ColSeq [])
       false
     = make_insert_sql "t" [("k", VInt 1); ("m", VNone)] false (ColSeq [])
         false
  /\ VStr " a " <> VStr "a"
  /\ make_insert_sql "t" [("k", VInt 2); ("m", VStr " a ")] false (ColSeq [])
       false
     = make_insert_sql "t" [("k", VInt 2); ("m", VStr "a")] false (ColSeq [])
         false
  /\ VTemporal "2024-01-02" <> VStr "2024-01-02"
  /\ make_insert_sql "t" [("k", VTemporal "2024-01-02")] false (ColSeq [])
       false
     = make_insert_sql "t" [("k", VStr "2024-01-02")] false (ColSeq []) false.
Proof. repeat split; try discriminate; vm_compute; reflexivity. Qed.

(** C8 (amended): for every record whose text and date/time values hold no
    [None], and update columns without braces, the statement is the head
    (verb, table, column list), the value tuple and the update clause, and
    the tuple holds one text per value, in the order of the columns,
    separated by [", "]: [None] as the SQL null literal, an integer as its
    decimal text, a boolean as the integer 1 or 0, a string stripped of
    surrounding whitespace and quoted as [repr] quotes it, a date or a time
    as its [str] text, quoted the same way.  The rendering is a function of
    the record, and it keeps some values apart: replacing one value of the
    record by a different one changes the statement when both are among
    [None], the integers and the strings without surrounding whitespace,
    or both are dates or times. *)
Theorem insert_values_render (table : string) (data : dict value)
    (auto_update : bool) (update_columns : columns) (insert_ignore : bool) :
  Forall without_None (dict_values data) ->
  Forall brace_free (update_names update_columns) ->
  make_insert_sql table data auto_update update_columns insert_ignore
  = Ret (insert_head table (dict_keys data) auto_update update_columns
           insert_ignore
           ++ "(" ++ join ", " (map sql_text (dict_values data)) ++ ")"
           ++ update_tail update_columns)
  /\ forall before key v1 after v2,
       data = (before ++ (key, v1) :: after)%list ->
       without_None v2 ->
       (exact v1 /\ exact v2) \/ (temporal v1 /\ temporal v2) ->
       make_insert_sql table (before ++ (key, v2) :: after)%list auto_update
         update_columns insert_ignore
       = make_insert_sql table data auto_update update_columns insert_ignore ->
       v1 = v2.
Proof.
  intros Hv Hb. split; [now apply make_insert_sql_texts|].
  intros before key v1 after v2 -> Hv2 Hkind E.
  assert (Hv' : Forall without_None
                  (dict_values (before ++ (key, v2) :: after)%list)).
  { unfold dict_values in *. rewrite map_app in *. cbn [map snd] in *.
    apply Forall_app in Hv as [Ha Hc]. apply Forall_app. split; [exact Ha|].
    inversion Hc; subst. now constructor. }
  rewrite !make_insert_sql_texts in E by assumption.
  injection E as E.
  replace (dict_keys (before ++ (key, v2) :: after)%list)
    with (dict_keys (before ++ (key, v1) :: after)%list) in E
    by (unfold dict_keys; now rewrite !map_app).
  apply append_inj_l in E.
  change ("(" ++ ?J ++ ?R) with (String "(" (J ++ R)) in E.
  injection E as E. apply append_inj_r in E.
  unfold dict_values in E. rewrite !map_app in E. cbn [map snd] in E.
  rewrite !join_middle in E. apply append_inj_l, append_inj_r in E.
  symmetry. apply sql_text_inj; [|now symmetry].
  destruct Hkind as [[? ?]|[? ?]]; auto.
Qed.

Lemma insert_values_render_witness :
  make_insert_sql "t"
    [("a", VNone); ("b", VInt 7); ("c", VBool true); ("d", VStr " x ");
     ("e", VTemporal "2024-01-02")] false (ColSeq []) false
  = Ret "insert into `t` (`a`, `b`, `c`, `d`, `e`) values (null, 7, 1, 'x', '2024-01-02')"
  /\ make_insert_sql "t" [("a", VInt 7); ("d", VStr "x")] false
       (ColSeq ["d"]) true
     = Ret "insert ignore into `t` (`a`, `d`) values (7, 'x') on duplicate key update d=values(d)".
Proof.
  split.
  - refine (eq_trans
              (proj1 (insert_values_render "t"
                        [("a", VNone); ("b", VInt 7); ("c", VBool true);
                         ("d", VStr " x "); ("e", VTemporal "2024-01-02")]
                        false (ColSeq []) false _ _)) _).
    + repeat constructor.
    + constructor.
    + vm_compute. reflexivity.
  - refine (eq_trans
              (proj1 (insert_values_render "t"
                        [("a", VInt 7); ("d", VStr "x")]
                        false (ColSeq ["d"]) true _ _)) _).
    + repeat constructor.
    + repeat constructor.
    + vm_compute. reflexivity.
Defined.

End InsertFacts.

(** ** Writing to a key *)

Module StoreFacts.
Import Py Redis RedisFacts.

Lemma store_store table e1 e2 w :
  store table e2 (store table e1 w) = store table e2 w.
Proof.
  destruct e1 as [[|x1 l1]|[|x1 l1]], e2 as [[|x2 l2]|[|x2 l2]];
    unfold store, with_keyspace; cbn [keyspace configured link pings dice rolls slept];
    f_equal;
    first [ apply delete_delete_eq | apply insert_delete_eq
          | apply delete_insert_eq | apply insert_insert_eq ].
Qed.

Lemma lookup_store table e w :
  keyspace (store table e w) !! table
  = match e with
    | EList [] | ESet [] => None
    | _ => Some e
    end.
Proof.
  destruct e as [[|x l]|[|x l]]; cbn [store keyspace with_keyspace];
    first [ apply lookup_delete_eq | apply lookup_insert_eq ].
Qed.

Lemma lookup_store_ne table other e w :
  other <> table -> keyspace (store table e w) !! other = keyspace w !! other.
Proof.
  intros H. destruct e as [[|x l]|[|x l]]; cbn [store keyspace with_keyspace];
    first [ now apply lookup_delete_ne | now apply lookup_insert_ne ].
Qed.

Lemma list_at_store table l w : list_at (store table (EList l) w) table = l.
Proof. unfold list_at. rewrite lookup_store. now destruct l. Qed.

Lemma set_at_store table l w : set_at (store table (ESet l) w) table = l.
Proof. unfold set_at. rewrite lookup_store. now destruct l. Qed.

Lemma alive_store table e w : alive w -> alive (store table e w).
Proof. intros H k. destruct e as [[|x l]|[|x l]]; apply H. Qed.

Lemma holds_list_store table l w : holds_list (store table (EList l) w) table.
Proof. unfold holds_list. rewrite lookup_store. now destruct l. Qed.

Lemma holds_set_store table l w : holds_set (store table (ESet l) w) table.
Proof. unfold holds_set. rewrite lookup_store. now destruct l. Qed.

(** A key that holds a list holds [list_at] of it. *)
Lemma holds_list_lookup table w :
  holds_list w table -> list_at w table <> [] ->
  keyspace w !! table = Some (EList (list_at w table)).
Proof.
  unfold holds_list, list_at.
  destruct (keyspace w !! table) as [[items|members]|]; easy.
Qed.

Lemma holds_set_lookup table w :
  holds_set w table -> set_at w table <> [] ->
  keyspace w !! table = Some (ESet (set_at w table)).
Proof.
  unfold holds_set, set_at.
  destruct (keyspace w !! table) as [[items|members]|]; easy.
Qed.

End StoreFacts.

(** ** Lists: [lpop], [lpush] and [rpoplpush] *)

Module QueueFacts.
Import Py Redis RedisFacts PopFacts StoreFacts.

(** A pipeline of [n] [LPOP]s on a list of at least [n] items returns the
    first [n] in order and leaves the rest. *)
Lemma execute_lpops_front table : forall n items w,
  keyspace w !! table = Some (EList items) ->
  (1 <= n <= List.length items)%nat ->
  execute_all (repeat (CmdLpop table) n) w
  = (map (fun x => Ret (RStr x)) (firstn n items),
     store table (EList (skipn n items)) w).
Proof.
  induction n as [|n IH]; intros items w Hk Hn; [lia|].
  destruct items as [|x items]; [simpl in Hn; lia|].
  cbn [repeat execute_all run_command]. unfold cmd_lpop at 1. rewrite Hk.
  destruct n as [|n].
  - reflexivity.
  - rewrite (IH items (store table (EList items) w)).
    + now rewrite store_store.
    + rewrite lookup_store. destruct items; [simpl in Hn; lia | reflexivity].
    + simpl in Hn. lia.
Qed.

(** How many items a call of [lpop] takes from a list of [size] items: none
    for the count 0, one for a negative count, else the count clamped to the
    size. *)
Definition pop_count (count : Z) (size : nat) : nat :=
  if count =? 0 then 0
  else if count <? 0 then 1
  else Nat.min (Z.to_nat count) size.

(** The object [lpop] returns for the clamped count [asked]: the list of
    replies of the pipeline, or the bare reply of one [LPOP]. *)
Definition pop_result (asked : Z) (front : list reply) : popped :=
  if 1 <? asked then Many front else One (hd RNone front).

Lemma lpop_any fuel table count w :
  alive w -> holds_list w table ->
  exists w',
    lpop fuel table count w
    = Some (Ret (pop_result
                   (Z.min count (Z.of_nat (List.length (list_at w table))))
                   (map RStr
                      (firstn (pop_count count (List.length (list_at w table)))
                         (list_at w table)))), w')
    /\ list_at w' table
       = skipn (pop_count count (List.length (list_at w table)))
           (list_at w table)
    /\ alive w' /\ holds_list w' table
    /\ forall other, other <> table ->
         keyspace w' !! other = keyspace w !! other.
Proof.
  intros Ha Hh. unfold lpop, task_bind at 1.
  rewrite alive_count_list by assumption.
  set (items := list_at w table). set (L := Z.of_nat (List.length items)).
  assert (Ha1 : alive (with_ping w)) by now apply alive_with_ping.
  assert (Ha2 : alive (with_ping (with_ping w))) by now apply alive_with_ping.
  replace (if count <=? L then count else L) with (Z.min count L)
    by (destruct (Z.leb_spec count L); lia).
  destruct (Z.eqb_spec (Z.min count L) 0) as [E0|N0].
  - exists (with_ping w).
    assert (Hk : pop_count count (List.length items) = O).
    { unfold pop_count. destruct (Z.eqb_spec count 0); [reflexivity|].
      destruct (Z.ltb_spec count 0); [lia|]. subst L. lia. }
    rewrite Hk, E0. cbn. repeat split; auto.
  - destruct (Z.ltb_spec 1 (Z.min count L)) as [H1|H1].
    + assert (Hk : pop_count count (List.length items)
                   = Z.to_nat (Z.min count L)).
      { unfold pop_count. destruct (Z.eqb_spec count 0); [lia|].
        destruct (Z.ltb_spec count 0); [lia|]. subst L. lia. }
      rewrite Hk. unfold task_bind. rewrite alive_redis by exact Ha1.
      unfold task_io, execute.
      rewrite (execute_lpops_front table _ items (with_ping (with_ping w))).
      * rewrite <- (map_map RStr Ret), collect_rets.
        unfold task_ret, pop_result.
        replace (1 <? Z.min count L) with true
          by (symmetry; apply Z.ltb_lt; lia).
        eexists. split; [reflexivity|]. rewrite list_at_store.
        repeat split.
        -- now apply alive_store.
        -- apply holds_list_store.
        -- intros other Ho. now rewrite lookup_store_ne.
      * change (keyspace (with_ping (with_ping w))) with (keyspace w).
        apply holds_list_lookup; [exact Hh|].
        intros E. subst L. unfold items in H1. rewrite E in H1.
        simpl in H1. lia.
      * subst L. lia.
    + assert (Hk : items <> [] -> pop_count count (List.length items) = 1%nat).
      { intros Hne. unfold pop_count.
        destruct (Z.eqb_spec count 0); [lia|].
        destruct (Z.ltb_spec count 0); [reflexivity|].
        assert (0 < List.length items)%nat
          by (destruct items; [contradiction | simpl; lia]).
        subst L. lia. }
      unfold task_bind. rewrite alive_redis by exact Ha1.
      unfold task_io, cmd_lpop, task_ret, pop_result.
      cbn [keyspace with_ping].
      replace (1 <? Z.min count L) with false
        by (symmetry; apply Z.ltb_ge; lia).
      clear N0 H1. subst L.
      assert (Hc : (items = []
                    /\ (keyspace w !! table = None
                        \/ keyspace w !! table = Some (EList [])))
                   \/ exists x its,
                        items = x :: its
                        /\ keyspace w !! table = Some (EList (x :: its))).
      { unfold items, list_at. unfold holds_list in Hh.
        destruct (keyspace w !! table) as [[[|x its]|ms]|];
          [auto | right; eauto | contradiction | auto]. }
      destruct Hc as [[-> Hl]|(x & its & -> & Hl)].
      * rewrite firstn_nil, skipn_nil. exists (with_ping (with_ping w)).
        split; [destruct Hl as [-> | ->]; reflexivity|].
        repeat split; auto.
        unfold list_at. cbn [keyspace with_ping].
        destruct Hl as [-> | ->]; reflexivity.
      * rewrite Hk by discriminate. rewrite Hl. eexists.
        split; [reflexivity|]. rewrite list_at_store. repeat split.
        -- now apply alive_store.
        -- apply holds_list_store.
        -- intros other Ho. now rewrite lookup_store_ne.
Qed.

Lemma pop_count_single count size :
  Z.min count (Z.of_nat size) <= 1 -> (pop_count count size <= 1)%nat.
Proof.
  unfold pop_count. intros H. destruct (Z.eqb_spec count 0); [lia|].
  destruct (Z.ltb_spec count 0); lia.
Qed.

Lemma elements_pop_result asked (front : list string) :
  (asked <= 1 -> (List.length front <= 1)%nat) ->
  elements (pop_result asked (map RStr front)) = map RStr front.
Proof.
  unfold pop_result. intros H. destruct (Z.ltb_spec 1 asked); [reflexivity|].
  destruct front as [|x [|y front]]; [reflexivity | reflexivity |].
  specialize (H ltac:(lia)). simpl in H. lia.
Qed.

(** X5: on a live connection and a key holding a list (or nothing),
    [lpop] returns for every count: nothing is taken for the count 0, one
    item for a negative count, and otherwise as many items as asked for,
    clamped to the length of the list.  The items come from the front of
    the list, in order, and the rest of the list stays.  The returned object
    is the list of replies only when the clamped count exceeds 1; otherwise
    it is the bare item, or [None] when nothing was taken.  No other key is
    touched. *)
Theorem lpop_takes_the_front (fuel : nat) (table : string) (count : Z)
    (w : world) :
  alive w -> holds_list w table ->
  let items := list_at w table in
  let k := pop_count count (List.length items) in
  exists p w',
    lpop fuel table count w = Some (Ret p, w')
    /\ p = pop_result (Z.min count (Z.of_nat (List.length items)))
             (map RStr (firstn k items))
    /\ elements p = map RStr (firstn k items)
    /\ list_at w' table = skipn k items
    /\ forall other, other <> table ->
         keyspace w' !! other = keyspace w !! other.
Proof.
  intros Ha Hh items k.
  destruct (lpop_any fuel table count w Ha Hh) as (w' & Hr & Hl & _ & _ & Ho).
  eexists _, w'. split; [exact Hr|]. split; [reflexivity|].
  split; [|split; [exact Hl | exact Ho]].
  apply elements_pop_result. intros H1. rewrite length_firstn.
  pose proof (pop_count_single count (List.length (list_at w table)) H1).
  subst k items. lia.
Qed.

Lemma lpop_takes_the_front_witness :
  (exists w',
     lpop 0 "queue" 2 stocked = Some (Ret (Many [RStr "a"; RStr "b"]), w')
     /\ list_at w' "queue" = ["c"])
  /\ (exists w',
        lpop 0 "queue" (-4) stocked = Some (Ret (One (RStr "a")), w')
        /\ list_at w' "queue" = ["b"; "c"]).
Proof.
  assert (Ha : alive stocked) by (intros k; reflexivity).
  assert (Hh : holds_list stocked "queue") by (vm_compute; exact I).
  split.
  - destruct (lpop_takes_the_front 0 "queue" 2 stocked Ha Hh)
      as (p & w' & Hr & Hp & _ & Hl & _).
    exists w'. subst p. split; [exact Hr | exact Hl].
  - destruct (lpop_takes_the_front 0 "queue" (-4) stocked Ha Hh)
      as (p & w' & Hr & Hp & _ & Hl & _).
    exists w'. subst p. split; [exact Hr | exact Hl].
Defined.

(** *** [lpush] *)

Lemma cmd_lpush_holds table value w :
  holds_list w table ->
  cmd_lpush table value w
  = (Ret (RInt (Z.of_nat (S (List.length (list_at w table))))),
     store table (EList (value :: list_at w table)) w).
Proof.
  unfold holds_list, cmd_lpush, list_at.
  destruct (keyspace w !! table) as [[items|members]|]; easy.
Qed.

(** A pipeline of [LPUSH]es puts the values before the list, the last one
    first. *)
Lemma execute_lpushes table : forall values w,
  holds_list w table -> values <> [] ->
  exists rs,
    execute_queue (map (cmd_lpush table) values) w
    = (map Ret rs,
       store table (EList (rev values ++ list_at w table)%list) w).
Proof.
  induction values as [|v values IH]; intros w Hh Hne; [contradiction|].
  cbn [map execute_queue]. rewrite cmd_lpush_holds by exact Hh.
  destruct values as [|v' values].
  - eexists [_]. reflexivity.
  - destruct (IH (store table (EList (v :: list_at w table)) w)) as [rs Hrs];
      [apply holds_list_store | discriminate |].
    rewrite Hrs. eexists (_ :: rs). rewrite list_at_store, store_store.
    cbn [map rev]. now rewrite <- !app_assoc.
Qed.

Lemma lpush_any fuel table values w :
  alive w -> holds_list w table ->
  exists w',
    lpush fuel table (Several values) w = Some (Ret RNone, w')
    /\ list_at w' table = (rev values ++ list_at w table)%list
    /\ alive w' /\ holds_list w' table
    /\ forall other, other <> table ->
         keyspace w' !! other = keyspace w !! other.
Proof.
  intros Ha Hh. unfold lpush, task_bind. rewrite alive_redis by exact Ha.
  unfold task_io, pipe_execute, task_ret.
  destruct values as [|v values].
  - exists (with_ping w). cbn. repeat split; auto.
  - destruct (execute_lpushes table (v :: values) (with_ping w)) as [rs Hrs];
      [exact Hh | discriminate |].
    rewrite Hrs, collect_rets. eexists. split; [reflexivity|].
    rewrite list_at_store. repeat split.
    + apply alive_store. now apply alive_with_ping.
    + apply holds_list_store.
    + intros other Ho. now rewrite lookup_store_ne.
Qed.

(** X6: on a live connection and a key holding a list (or nothing),
    [lpush] with a list of values returns [None] and leaves the values in
    front of the list in reverse order, the last value first; with a single
    value it returns the new length of the list and puts the value first.
    No other key is touched. *)
Theorem lpush_prepends_reversed (fuel : nat) (table : string) (w : world) :
  alive w -> holds_list w table ->
  (forall values, exists w',
     lpush fuel table (Several values) w = Some (Ret RNone, w')
     /\ list_at w' table = (rev values ++ list_at w table)%list
     /\ forall other, other <> table ->
          keyspace w' !! other = keyspace w !! other)
  /\ (forall value, exists w',
        lpush fuel table (Single value) w
        = Some (Ret (RInt (Z.of_nat (List.length (list_at w table)) + 1)), w')
        /\ list_at w' table = value :: list_at w table
        /\ forall other, other <> table ->
             keyspace w' !! other = keyspace w !! other).
Proof.
  intros Ha Hh. split.
  - intros values.
    destruct (lpush_any fuel table values w Ha Hh) as (w' & Hr & Hl & _ & _ & Ho).
    exists w'. auto.
  - intros value. unfold lpush, task_bind. rewrite alive_redis by exact Ha.
    unfold task_io. rewrite cmd_lpush_holds by exact Hh.
    change (list_at (with_ping w) table) with (list_at w table).
    replace (Z.of_nat (S (List.length (list_at w table))))
      with (Z.of_nat (List.length (list_at w table)) + 1) by lia.
    eexists. split; [reflexivity|].
    rewrite list_at_store. split; [reflexivity|].
    intros other Ho. now rewrite lookup_store_ne.
Qed.

Lemma lpush_prepends_reversed_witness :
  exists w',
    lpush 0 "queue" (Several ["x"; "y"]) stocked = Some (Ret RNone, w')
    /\ list_at w' "queue" = ["y"; "x"; "a"; "b"; "c"].
Proof.
  assert (Ha : alive stocked) by (intros k; reflexivity).
  assert (Hh : holds_list stocked "queue") by (vm_compute; exact I).
  destruct (proj1 (lpush_prepends_reversed 0 "queue" stocked Ha Hh) ["x"; "y"])
    as (w' & Hr & Hl & _).
  exists w'. split; [exact Hr | exact Hl].
Defined.

(** X7: what [lpush] put on a list, [lpop] with the number of values as
    count hands back, last pushed first, and the list is again what it was
    before the push. *)
Theorem lpush_then_lpop (fuel : nat) (table : string) (values : list string)
    (w : world) :
  alive w -> holds_list w table ->
  exists w1 p w2,
    lpush fuel table (Several values) w = Some (Ret RNone, w1)
    /\ lpop fuel table (Z.of_nat (List.length values)) w1 = Some (Ret p, w2)
    /\ elements p = map RStr (rev values)
    /\ list_at w2 table = list_at w table
    /\ forall other, other <> table ->
         keyspace w2 !! other = keyspace w !! other.
Proof.
  intros Ha Hh.
  destruct (lpush_any fuel table values w Ha Hh)
    as (w1 & Hr1 & Hl1 & Ha1 & Hh1 & Ho1).
  destruct (lpop_any fuel table (Z.of_nat (List.length values)) w1 Ha1 Hh1)
    as (w2 & Hr2 & Hl2 & _ & _ & Ho2).
  assert (Hk : pop_count (Z.of_nat (List.length values))
                 (List.length (list_at w1 table))
               = List.length (rev values)).
  { rewrite Hl1, length_app, length_rev. unfold pop_count.
    destruct (Z.eqb_spec (Z.of_nat (List.length values)) 0) as [E|E]; [lia|].
    destruct (Z.ltb_spec (Z.of_nat (List.length values)) 0); lia. }
  rewrite Hk, Hl1 in Hr2, Hl2.
  rewrite firstn_app, firstn_all, Nat.sub_diag, firstn_O, app_nil_r in Hr2.
  rewrite skipn_app, skipn_all, Nat.sub_diag, skipn_O in Hl2.
  eexists w1, _, w2. split; [exact Hr1|]. split; [exact Hr2|].
  split; [|split; [exact Hl2|]].
  - apply elements_pop_result. rewrite length_rev, length_app, length_rev. lia.
  - intros other Ho. now rewrite Ho2, Ho1.
Qed.

Lemma lpush_then_lpop_witness :
  exists w1 w2,
    lpush 0 "queue" (Several ["x"; "y"]) stocked = Some (Ret RNone, w1)
    /\ lpop 0 "queue" 2 w1 = Some (Ret (Many [RStr "y"; RStr "x"]), w2)
    /\ list_at w2 "queue" = ["a"; "b"; "c"].
Proof.
  assert (Ha : alive stocked) by (intros k; reflexivity).
  assert (Hh : holds_list stocked "queue") by (vm_compute; exact I).
  destruct (lpush_then_lpop 0 "queue" ["x"; "y"] stocked Ha Hh)
    as (w1 & p & w2 & Hr1 & Hr2 & Hp & Hl & _).
  exists w1, w2. split; [exact Hr1|]. split; [|exact Hl].
  change (Z.of_nat (List.length ["x"; "y"])) with 2 in Hr2. rewrite Hr2.
  destruct p as [[|s|z]|l]; simpl in Hp; try discriminate. now subst l.
Defined.

(** *** [rpoplpush] *)

(** A destination [rpoplpush] replaces by the source. *)
Definition falsy (to_table : option string) : Prop :=
  to_table = None \/ to_table = Some "".

(** X8: on a live connection and a source list that ends in [x],
    [rpoplpush] returns [x].  Without a destination, and with the empty name
    as destination, the list is rotated: [x] moves from its end to its
    front.  With another destination that holds a list (or nothing), [x]
    leaves the source and becomes the first item of the destination. *)
Theorem rpoplpush_moves_the_last (fuel : nat) (from_table : string)
    (front : list string) (x : string) (w : world) :
  alive w ->
  keyspace w !! from_table = Some (EList (front ++ [x])%list) ->
  (forall to_table, falsy to_table \/ to_table = Some from_table ->
     exists w',
       rpoplpush fuel from_table to_table w = Some (Ret (RStr x), w')
       /\ list_at w' from_table = x :: front
       /\ forall other, other <> from_table ->
            keyspace w' !! other = keyspace w !! other)
  /\ (forall to_table,
        to_table <> "" -> to_table <> from_table -> holds_list w to_table ->
        exists w',
          rpoplpush fuel from_table (Some to_table) w
          = Some (Ret (RStr x), w')
          /\ list_at w' from_table = front
          /\ list_at w' to_table = x :: list_at w to_table
          /\ forall other, other <> from_table -> other <> to_table ->
               keyspace w' !! other = keyspace w !! other).
Proof.
  intros Ha Hk.
  assert (Hrev : rev (front ++ [x])%list = x :: rev front)
    by (now rewrite rev_app_distr).
  split.
  - intros to_table Hto.
    assert (Hdest :
              match to_table with
              | None | Some EmptyString => from_table
              | Some t => t
              end = from_table).
    { destruct Hto as [[-> | ->] | ->]; [reflexivity | reflexivity |].
      now destruct from_table. }
    unfold rpoplpush. rewrite Hdest. unfold task_bind.
    rewrite alive_redis by exact Ha. unfold task_io, cmd_rpoplpush.
    cbn [keyspace with_ping]. rewrite Hk, Hrev, rev_involutive.
    rewrite lookup_store.
    exists (store from_table (EList (x :: front)) (with_ping w)). split.
    + destruct front as [|y front]; now rewrite store_store.
    + rewrite list_at_store. split; [reflexivity|].
      intros other Ho. now rewrite lookup_store_ne.
  - intros to_table Hne Hto Hh.
    unfold rpoplpush.
    replace (match to_table with
             | EmptyString => from_table
             | String _ _ => to_table
             end) with to_table by (now destruct to_table).
    unfold task_bind. rewrite alive_redis by exact Ha.
    unfold task_io, cmd_rpoplpush.
    cbn [keyspace with_ping]. rewrite Hk, Hrev, rev_involutive.
    rewrite lookup_store_ne by auto.
    exists (store to_table (EList (x :: list_at w to_table))
              (store from_table (EList front) (with_ping w))).
    split.
    + unfold holds_list, list_at in *. cbn [keyspace with_ping].
      destruct (keyspace w !! to_table) as [[items|members]|]; easy.
    + rewrite list_at_store. unfold list_at at 1.
      rewrite lookup_store_ne by auto.
      fold (list_at (store from_table (EList front) (with_ping w)) from_table).
      rewrite list_at_store. repeat split.
      intros other Ho1 Ho2. now rewrite !lookup_store_ne.
Qed.

Lemma rpoplpush_moves_the_last_witness :
  exists w',
    rpoplpush 0 "queue" None stocked = Some (Ret (RStr "c"), w')
    /\ list_at w' "queue" = ["c"; "a"; "b"].
Proof.
  assert (Ha : alive stocked) by (intros k; reflexivity).
  destruct (proj1 (rpoplpush_moves_the_last 0 "queue" ["a"; "b"] "c" stocked
                     Ha eq_refl) None)
    as (w' & Hr & Hl & _).
  - left. left. reflexivity.
  - exists w'. split; [exact Hr | exact Hl].
Defined.

End QueueFacts.

(** ** Sets: [sadd], [srem] and [sismember] *)

Module SetFacts.
Import Py Redis RedisFacts PopFacts StoreFacts.

(** The only key a call may have changed is [table]; the connection is as
    before. *)
Definition touches_only (table : string) (w w' : world) : Prop :=
  link w' = link w
  /\ forall other, other <> table -> keyspace w' !! other = keyspace w !! other.

Lemma touches_only_refl table w : touches_only table w w.
Proof. split; auto. Qed.

Lemma touches_only_trans table w1 w2 w3 :
  touches_only table w1 w2 -> touches_only table w2 w3 ->
  touches_only table w1 w3.
Proof.
  intros [Hl1 Ho1] [Hl2 Ho2]. split; [congruence|].
  intros other Ho. now rewrite Ho2, Ho1.
Qed.

Lemma touches_only_store table e w : touches_only table w (store table e w).
Proof.
  split; [now destruct e as [[|x l]|[|x l]]|].
  intros other Ho. now apply lookup_store_ne.
Qed.

Lemma touches_only_ping table w : touches_only table w (with_ping w).
Proof. split; auto. Qed.

Lemma touches_only_alive table w w' :
  touches_only table w w' -> alive w -> alive w'.
Proof. intros [Hl _] Ha k. rewrite Hl. apply Ha. Qed.

(** [SADD] of one value: the set with the value added at most once. *)
Definition add_member (value : string) (members : list string) : list string :=
  if existsb (String.eqb value) members then members
  else (members ++ [value])%list.

Definition add_members (values members : list string) : list string :=
  fold_left (fun ms v => add_member v ms) values members.

Lemma existsb_eqb_In value members :
  existsb (String.eqb value) members = true <-> In value members.
Proof.
  rewrite existsb_exists. split.
  - intros (x & Hx & E). apply String.eqb_eq in E. now subst.
  - intros H. exists value. split; [exact H | apply String.eqb_refl].
Qed.

Lemma add_member_In value members x :
  In x (add_member value members) <-> In x members \/ x = value.
Proof.
  unfold add_member.
  destruct (existsb (String.eqb value) members) eqn:E.
  - apply existsb_eqb_In in E. split; [auto|]. intros [H| ->]; auto.
  - rewrite in_app_iff. simpl. intuition.
Qed.

Lemma add_member_NoDup value members :
  List.NoDup members -> List.NoDup (add_member value members).
Proof.
  intros H. unfold add_member.
  destruct (existsb (String.eqb value) members) eqn:E; [exact H|].
  assert (Hn : ~ In value members).
  { intros Hin. apply existsb_eqb_In in Hin. congruence. }
  clear E. induction H as [|x l Hx Hl IH]; cbn [List.app].
  - constructor; [intros [] | constructor].
  - constructor.
    + rewrite in_app_iff. intros [Hin|[->|[]]]; [now apply Hx|].
      apply Hn. now left.
    + apply IH. intros Hin. apply Hn. now right.
Qed.

Lemma add_members_In values : forall members x,
  In x (add_members values members) <-> In x members \/ In x values.
Proof.
  induction values as [|v values IH]; intros members x; cbn [add_members fold_left].
  - simpl. intuition.
  - fold (add_members values (add_member v members)).
    rewrite IH, add_member_In. simpl. intuition.
Qed.

Lemma add_members_NoDup values : forall members,
  List.NoDup members -> List.NoDup (add_members values members).
Proof.
  induction values as [|v values IH]; intros members H; [exact H|].
  apply IH. now apply add_member_NoDup.
Qed.

(** *** [sadd] *)

Lemma cmd_sadd_holds table value w :
  holds_set w table ->
  exists w',
    cmd_sadd table value w
    = (Ret (RInt (if existsb (String.eqb value) (set_at w table)
                  then 0 else 1)), w')
    /\ set_at w' table = add_member value (set_at w table)
    /\ holds_set w' table /\ touches_only table w w'.
Proof.
  intros Hh. unfold cmd_sadd, add_member.
  assert (Hs : set_at w table
               = match keyspace w !! table with
                 | Some (ESet members) => members
                 | _ => []
                 end) by reflexivity.
  rewrite Hs. clear Hs. pose proof Hh as Hh0. unfold holds_set in Hh.
  destruct (keyspace w !! table) as [[items|members]|] eqn:Hk;
    [contradiction | | ].
  - destruct (existsb (String.eqb value) members).
    + exists w. unfold set_at. rewrite Hk. repeat split; auto.
    + eexists. split; [reflexivity|]. rewrite set_at_store.
      split; [reflexivity|]. split; [apply holds_set_store|].
      apply touches_only_store.
  - eexists. split; [reflexivity|]. rewrite set_at_store.
    split; [reflexivity|]. split; [apply holds_set_store|].
    apply touches_only_store.
Qed.

Lemma execute_sadds table : forall values w,
  holds_set w table ->
  exists rs w',
    execute_queue (map (cmd_sadd table) values) w = (map Ret rs, w')
    /\ set_at w' table = add_members values (set_at w table)
    /\ holds_set w' table /\ touches_only table w w'.
Proof.
  induction values as [|v values IH]; intros w Hh.
  - exists [], w. repeat split; auto.
  - cbn [map execute_queue].
    destruct (cmd_sadd_holds table v w Hh) as (w1 & -> & Hs1 & Hh1 & Ht1).
    destruct (IH w1 Hh1) as (rs & w2 & -> & Hs2 & Hh2 & Ht2).
    eexists (_ :: rs), w2. split; [reflexivity|].
    split; [now rewrite Hs2, Hs1|]. split; [exact Hh2|].
    eapply touches_only_trans; eassumption.
Qed.

Lemma sadd_several fuel table values w :
  alive w -> holds_set w table ->
  exists w',
    sadd fuel table (Several values) w = Some (Ret RNone, w')
    /\ set_at w' table = add_members values (set_at w table)
    /\ holds_set w' table /\ touches_only table w w'.
Proof.
  intros Ha Hh. unfold sadd, task_bind. rewrite alive_redis by exact Ha.
  unfold task_io, pipe_execute, task_ret.
  destruct (execute_sadds table values (with_ping w) Hh)
    as (rs & w' & -> & Hs & Hh' & Ht).
  rewrite collect_rets. exists w'. split; [reflexivity|].
  split; [exact Hs|]. split; [exact Hh'|].
  eapply touches_only_trans; [apply touches_only_ping | exact Ht].
Qed.

Lemma sadd_single fuel table value w :
  alive w -> holds_set w table ->
  exists w',
    sadd fuel table (Single value) w
    = Some (Ret (RInt (if existsb (String.eqb value) (set_at w table)
                       then 0 else 1)), w')
    /\ set_at w' table = add_member value (set_at w table)
    /\ holds_set w' table /\ touches_only table w w'.
Proof.
  intros Ha Hh. unfold sadd, task_bind. rewrite alive_redis by exact Ha.
  unfold task_io.
  destruct (cmd_sadd_holds table value (with_ping w) Hh)
    as (w' & -> & Hs & Hh' & Ht).
  exists w'. split; [reflexivity|]. split; [exact Hs|]. split; [exact Hh'|].
  eapply touches_only_trans; [apply touches_only_ping | exact Ht].
Qed.

Lemma sismember_holds fuel table key w :
  alive w -> holds_set w table ->
  sismember fuel table key w
  = Some (Ret (existsb (String.eqb key) (set_at w table)), with_ping w).
Proof.
  intros Ha Hh. unfold sismember, task_bind. rewrite alive_redis by exact Ha.
  unfold task_io, cmd_sismember, set_at. cbn [keyspace with_ping].
  unfold holds_set in Hh.
  destruct (keyspace w !! table) as [[items|members]|]; easy.
Qed.

Lemma touches_only_other table w w' :
  touches_only table w w' ->
  forall other, other <> table -> keyspace w' !! other = keyspace w !! other.
Proof. now intros [_ H]. Qed.

(** X9: on a live connection and a key holding a set (or nothing), [sadd]
    with a list of values returns [None]; afterwards the set holds what it
    held before and every value of the list, still each member once.  With
    a single value it returns 1 when the value is new and 0 when the set
    held it already.  No other key is touched. *)
Theorem sadd_adds_members (fuel : nat) (table : string) (w : world) :
  alive w -> holds_set w table ->
  (forall values, exists w',
     sadd fuel table (Several values) w = Some (Ret RNone, w')
     /\ (forall x, In x (set_at w' table)
                   <-> In x (set_at w table) \/ In x values)
     /\ (List.NoDup (set_at w table) -> List.NoDup (set_at w' table))
     /\ forall other, other <> table ->
          keyspace w' !! other = keyspace w !! other)
  /\ (forall value, exists w',
        sadd fuel table (Single value) w
        = Some (Ret (RInt (if existsb (String.eqb value) (set_at w table)
                           then 0 else 1)), w')
        /\ (forall x, In x (set_at w' table)
                      <-> In x (set_at w table) \/ x = value)
        /\ (List.NoDup (set_at w table) -> List.NoDup (set_at w' table))
        /\ forall other, other <> table ->
             keyspace w' !! other = keyspace w !! other).
Proof.
  intros Ha Hh. split.
  - intros values.
    destruct (sadd_several fuel table values w Ha Hh) as (w' & Hr & Hs & _ & Ht).
    exists w'. split; [exact Hr|]. rewrite Hs. split; [|split].
    + intros x. apply add_members_In.
    + apply add_members_NoDup.
    + now apply touches_only_other.
  - intros value.
    destruct (sadd_single fuel table value w Ha Hh) as (w' & Hr & Hs & _ & Ht).
    exists w'. split; [exact Hr|]. rewrite Hs. split; [|split].
    + intros x. apply add_member_In.
    + apply add_member_NoDup.
    + now apply touches_only_other.
Qed.

(** A live client whose key [seen] holds the set of [x] and [y]. *)
Lemma sadd_adds_members_witness :
  exists w',
    sadd 0 "seen" (Several ["y"; "z"; "z"]) stocked = Some (Ret RNone, w')
    /\ set_at w' "seen" = ["x"; "y"; "z"].
Proof.
  assert (Ha : alive stocked) by (intros k; reflexivity).
  assert (Hh : holds_set stocked "seen") by (vm_compute; exact I).
  destruct (proj1 (sadd_adds_members 0 "seen" stocked Ha Hh) ["y"; "z"; "z"])
    as (w' & Hr & _).
  exists w'. split; [exact Hr|].
  vm_compute in Hr. injection Hr as <-. vm_compute. reflexivity.
Defined.

Lemma add_members_present values : forall members,
  (forall v, In v values -> In v members) ->
  add_members values members = members.
Proof.
  induction values as [|v values IH]; intros members H; [reflexivity|].
  cbn [add_members fold_left]. fold (add_members values (add_member v members)).
  assert (E : add_member v members = members).
  { unfold add_member.
    replace (existsb (String.eqb v) members) with true; [reflexivity|].
    symmetry. apply existsb_eqb_In, H. now left. }
  rewrite E. apply IH. intros v' Hv'. apply H. now right.
Qed.

Lemma existsb_add_members key values members :
  existsb (String.eqb key) (add_members values members)
  = existsb (String.eqb key) members || existsb (String.eqb key) values.
Proof.
  apply Bool.eq_iff_eq_true.
  rewrite orb_true_iff, !existsb_eqb_In. apply add_members_In.
Qed.

(** X10: after [sadd] of a list of values, [sismember] answers [True] for
    exactly the keys the set held before or the list holds, and a second
    [sadd] of the same values leaves the set as it is. *)
Theorem sadd_then_sismember (fuel : nat) (table : string)
    (values : list string) (w : world) :
  alive w -> holds_set w table ->
  exists w1,
    sadd fuel table (Several values) w = Some (Ret RNone, w1)
    /\ (forall key, exists w2,
          sismember fuel table key w1
          = Some (Ret (existsb (String.eqb key) (set_at w table)
                       || existsb (String.eqb key) values), w2)
          /\ keyspace w2 = keyspace w1)
    /\ exists w2,
         sadd fuel table (Several values) w1 = Some (Ret RNone, w2)
         /\ set_at w2 table = set_at w1 table.
Proof.
  intros Ha Hh.
  destruct (sadd_several fuel table values w Ha Hh)
    as (w1 & Hr1 & Hs1 & Hh1 & Ht1).
  assert (Ha1 : alive w1) by (eapply touches_only_alive; eassumption).
  exists w1. split; [exact Hr1|]. split.
  - intros key. exists (with_ping w1).
    rewrite sismember_holds by assumption.
    now rewrite Hs1, existsb_add_members.
  - destruct (sadd_several fuel table values w1 Ha1 Hh1)
      as (w2 & Hr2 & Hs2 & _ & _).
    exists w2. split; [exact Hr2|]. rewrite Hs2. apply add_members_present.
    intros v Hv. rewrite Hs1. apply add_members_In. now right.
Qed.

Lemma sadd_then_sismember_witness :
  exists w1 w2,
    sadd 0 "seen" (Several ["z"]) stocked = Some (Ret RNone, w1)
    /\ sismember 0 "seen" "z" w1 = Some (Ret true, w2)
    /\ sismember 0 "seen" "q" w1 = Some (Ret false, w2).
Proof.
  assert (Ha : alive stocked) by (intros k; reflexivity).
  assert (Hh : holds_set stocked "seen") by (vm_compute; exact I).
  destruct (sadd_then_sismember 0 "seen" ["z"] stocked Ha Hh)
    as (w1 & Hr & Hm & _).
  exists w1, (with_ping w1). split; [exact Hr|].
  vm_compute in Hr. injection Hr as <-. split; vm_compute; reflexivity.
Defined.

(** *** [srem] *)

(** The values of the argument, whichever form it has. *)
Definition values_list (values : values_arg) : list string :=
  match values with
  | Several values => values
  | Single value => [value]
  end.

Definition remove_members (values members : list string) : list string :=
  List.filter (fun x => negb (existsb (String.eqb x) values)) members.

Lemma filter_absent value members :
  existsb (String.eqb value) members = false ->
  List.filter (fun x => negb (String.eqb value x)) members = members.
Proof.
  induction members as [|m members IH]; [reflexivity|].
  cbn [existsb List.filter]. intros H. apply orb_false_iff in H as [-> H].
  cbn [negb]. now rewrite IH.
Qed.

Lemma remove_members_cons value values members :
  remove_members values
    (List.filter (fun x => negb (String.eqb value x)) members)
  = remove_members (value :: values) members.
Proof.
  unfold remove_members. induction members as [|m members IH]; [reflexivity|].
  cbn [List.filter existsb]. rewrite (String.eqb_sym m value).
  destruct (String.eqb value m); cbn [negb orb List.filter]; [exact IH|].
  destruct (existsb (String.eqb m) values); cbn [negb]; now rewrite IH.
Qed.

Lemma cmd_srem_holds table value w :
  holds_set w table ->
  exists r w',
    cmd_srem table value w = (Ret r, w')
    /\ set_at w' table
       = List.filter (fun x => negb (String.eqb value x)) (set_at w table)
    /\ holds_set w' table /\ touches_only table w w'.
Proof.
  intros Hh. unfold cmd_srem.
  assert (Hs : set_at w table
               = match keyspace w !! table with
                 | Some (ESet members) => members
                 | _ => []
                 end) by reflexivity.
  rewrite Hs. clear Hs. pose proof Hh as Hh0. unfold holds_set in Hh.
  destruct (keyspace w !! table) as [[items|members]|] eqn:Hk;
    [contradiction | | ].
  - destruct (existsb (String.eqb value) members) eqn:E.
    + eexists _, _. split; [reflexivity|]. rewrite set_at_store.
      split; [reflexivity|]. split; [apply holds_set_store|].
      apply touches_only_store.
    + exists (RInt 0), w. unfold set_at. rewrite Hk, filter_absent by exact E.
      repeat split; auto.
  - exists (RInt 0), w. unfold set_at. rewrite Hk. repeat split; auto.
Qed.

Lemma execute_srems table : forall values w,
  holds_set w table ->
  exists rs w',
    execute_all (map (CmdSrem table) values) w = (map Ret rs, w')
    /\ set_at w' table = remove_members values (set_at w table)
    /\ holds_set w' table /\ touches_only table w w'.
Proof.
  induction values as [|v values IH]; intros w Hh.
  - exists [], w. split; [reflexivity|]. split; [|split; auto].
    + unfold remove_members. cbn [existsb negb].
      induction (set_at w table) as [|m ms IHm]; [reflexivity|].
      cbn [List.filter]. now rewrite <- IHm.
    + apply touches_only_refl.
  - cbn [map execute_all run_command].
    destruct (cmd_srem_holds table v w Hh) as (r & w1 & -> & Hs1 & Hh1 & Ht1).
    destruct (IH w1 Hh1) as (rs & w2 & -> & Hs2 & Hh2 & Ht2).
    exists (r :: rs), w2. split; [reflexivity|].
    split; [now rewrite Hs2, Hs1, remove_members_cons|]. split; [exact Hh2|].
    eapply touches_only_trans; eassumption.
Qed.

Lemma srem_any fuel table values w :
  alive w -> holds_set w table ->
  exists w',
    srem fuel table values w = Some (Ret RNone, w')
    /\ set_at w' table = remove_members (values_list values) (set_at w table)
    /\ holds_set w' table /\ touches_only table w w'.
Proof.
  intros Ha Hh. unfold srem. destruct values as [values|value];
    unfold task_bind; rewrite alive_redis by exact Ha;
    unfold task_io, execute, task_ret.
  - destruct (execute_srems table values (with_ping w) Hh)
      as (rs & w' & -> & Hs & Hh' & Ht).
    rewrite collect_rets. exists w'. split; [reflexivity|].
    split; [exact Hs|]. split; [exact Hh'|].
    eapply touches_only_trans; [apply touches_only_ping | exact Ht].
  - destruct (cmd_srem_holds table value (with_ping w) Hh)
      as (r & w' & -> & Hs & Hh' & Ht).
    exists w'. split; [reflexivity|]. split.
    + rewrite Hs. change (set_at (with_ping w) table) with (set_at w table).
      rewrite <- (remove_members_cons value []). unfold remove_members.
      cbn [existsb negb].
      induction (List.filter _ (set_at w table)) as [|m ms IHm];
        [reflexivity|]. cbn [List.filter]. now rewrite <- IHm.
    + split; [exact Hh'|].
      eapply touches_only_trans; [apply touches_only_ping | exact Ht].
Qed.

Lemma remove_members_In values members x :
  In x (remove_members values members) <-> In x members /\ ~ In x values.
Proof.
  unfold remove_members. rewrite filter_In, negb_true_iff.
  rewrite <- (existsb_eqb_In x values).
  destruct (existsb (String.eqb x) values); intuition congruence.
Qed.

(** X11: on a live connection and a key holding a set (or nothing),
    [srem] returns [None] for a list of values and for a single value, and
    the set keeps, in their order, the members that are not among the
    values; [sismember] then answers [False] for each of the values.  No
    other key is touched. *)
Theorem srem_removes_members (fuel : nat) (table : string)
    (values : values_arg) (w : world) :
  alive w -> holds_set w table ->
  exists w',
    srem fuel table values w = Some (Ret RNone, w')
    /\ set_at w' table = remove_members (values_list values) (set_at w table)
    /\ (forall x, In x (set_at w' table)
                  <-> In x (set_at w table) /\ ~ In x (values_list values))
    /\ (forall key, In key (values_list values) ->
          sismember fuel table key w' = Some (Ret false, with_ping w'))
    /\ forall other, other <> table ->
         keyspace w' !! other = keyspace w !! other.
Proof.
  intros Ha Hh.
  destruct (srem_any fuel table values w Ha Hh) as (w' & Hr & Hs & Hh' & Ht).
  exists w'. split; [exact Hr|]. split; [exact Hs|]. split; [|split].
  - intros x. rewrite Hs. apply remove_members_In.
  - intros key Hkey. rewrite sismember_holds;
      [|eapply touches_only_alive; eassumption | exact Hh'].
    do 3 f_equal. apply not_true_is_false. rewrite existsb_eqb_In, Hs.
    rewrite remove_members_In. tauto.
  - now apply touches_only_other.
Qed.

Lemma srem_removes_members_witness :
  exists w',
    srem 0 "seen" (Several ["x"; "q"]) stocked = Some (Ret RNone, w')
    /\ set_at w' "seen" = ["y"]
    /\ sismember 0 "seen" "x" w' = Some (Ret false, with_ping w').
Proof.
  assert (Ha : alive stocked) by (intros k; reflexivity).
  assert (Hh : holds_set stocked "seen") by (vm_compute; exact I).
  destruct (srem_removes_members 0 "seen" (Several ["x"; "q"]) stocked Ha Hh)
    as (w' & Hr & Hs & _ & Hm & _).
  exists w'. split; [exact Hr|]. split; [exact Hs|].
  apply Hm. now left.
Defined.

End SetFacts.

(** ** [sget]: drawing members of a set *)

Module DrawFacts.
Import Py Redis RedisFacts PopFacts StoreFacts SetFacts.

Lemma touches_only_roll table w : touches_only table w (with_roll w).
Proof. split; auto. Qed.

(** What a draw leaves of the world: only the server's dice have moved. *)
Definition rolled (w w' : world) : Prop :=
  keyspace w' = keyspace w /\ link w' = link w.

Lemma rolled_refl w : rolled w w.
Proof. split; reflexivity. Qed.

Lemma rolled_step w w' : rolled (with_roll w) w' -> rolled w w'.
Proof. intros [Hk Hl]. split; [exact Hk | exact Hl]. Qed.

(** [SRANDMEMBER] with a count that is not negative: distinct members, as
    many as asked for or as the set holds. *)
Lemma draw_distinct_spec n : forall members w,
  exists drawn rest w',
    draw_distinct n members w = (map RStr drawn, w')
    /\ Permutation members (drawn ++ rest)
    /\ List.length drawn = Nat.min n (List.length members)
    /\ rolled w w'.
Proof.
  induction n as [|n IH]; intros members w.
  - exists [], members, w. repeat split; auto.
  - destruct members as [|m ms].
    + exists [], [], w. repeat split; auto.
    + cbn [draw_distinct].
      set (i := (dice w (rolls w) mod List.length (m :: ms))%nat).
      destruct (take_out_spec (m :: ms) i) as (x & rest & Ht & Hp & Hlen).
      { apply Nat.mod_upper_bound. discriminate. }
      rewrite Ht.
      destruct (IH rest (with_roll w)) as (drawn & rest' & w' & -> & Hp' & Hl' & Hr).
      exists (x :: drawn), rest', w'. split; [reflexivity|]. split; [|split].
      * rewrite Hp. cbn [List.app]. now rewrite Hp'.
      * cbn [List.length] in *. lia.
      * now apply rolled_step.
Qed.

(** [SRANDMEMBER] with a negative count: that many draws, with repeats. *)
Lemma draw_repeated_spec n members : forall w,
  exists drawn w',
    draw_repeated n members w = (map RStr drawn, w')
    /\ (forall x, In x drawn -> In x members)
    /\ (members <> [] -> List.length drawn = n)
    /\ rolled w w'.
Proof.
  induction n as [|n IH]; intros w.
  - exists [], w. repeat split; auto. intros x [].
  - cbn [draw_repeated].
    set (i := (dice w (rolls w) mod List.length members)%nat).
    destruct (nth_error members i) as [x|] eqn:E.
    + destruct (IH (with_roll w)) as (drawn & w' & -> & Hin & Hl & Hr).
      exists (x :: drawn), w'. split; [reflexivity|]. split; [|split].
      * intros y [<-|Hy]; [eapply nth_error_In; eassumption | now apply Hin].
      * intros Hne. cbn [List.length]. now rewrite Hl.
      * now apply rolled_step.
    + exists [], w. split; [reflexivity|]. split; [intros x []|].
      split; [|apply rolled_refl]. intros Hne. exfalso.
      apply nth_error_None in E.
      assert (i < List.length members)%nat; [|lia].
      apply Nat.mod_upper_bound. now destruct members.
Qed.

(** X12: on a live connection and a key holding a set (or nothing),
    [sget] with [is_pop=False] returns members of the set and leaves every
    key, the set included, as it was.  For a count that is not negative it
    returns distinct members, as many as asked for or as the set holds; for
    a negative count on a set that is not empty it returns as many members
    as the count's size, possibly with repeats. *)
Theorem sget_without_pop (fuel : nat) (table : string) (count : Z)
    (w : world) :
  alive w -> holds_set w table ->
  exists drawn w',
    sget fuel table count false w = Some (Ret (map RStr drawn), w')
    /\ keyspace w' = keyspace w
    /\ (forall x, In x drawn -> In x (set_at w table))
    /\ (0 <= count ->
        List.length drawn
        = Nat.min (Z.to_nat count) (List.length (set_at w table))
        /\ exists rest, Permutation (set_at w table) (drawn ++ rest))
    /\ (count < 0 -> set_at w table <> [] ->
        List.length drawn = Z.to_nat (- count)).
Proof.
  intros Ha Hh. unfold sget, task_bind. rewrite alive_redis by exact Ha.
  unfold task_io, srandmember, set_at. cbn [keyspace with_ping].
  unfold holds_set in Hh.
  destruct (keyspace w !! table) as [[items|members]|] eqn:Hk;
    [contradiction | | ].
  - destruct (Z.leb_spec 0 count) as [Hc|Hc].
    + destruct (draw_distinct_spec (Z.to_nat count) members (with_ping w))
        as (drawn & rest & w' & -> & Hp & Hl & Hr1 & _).
      exists drawn, w'. split; [reflexivity|]. split; [exact Hr1|].
      split; [|split; [|lia]].
      * intros x Hx. apply (Permutation_in x (Permutation_sym Hp)).
        apply in_or_app. now left.
      * intros _. split; [exact Hl | now exists rest].
    + destruct (draw_repeated_spec (Z.to_nat (- count)) members (with_ping w))
        as (drawn & w' & -> & Hin & Hl & Hr1 & _).
      exists drawn, w'. split; [reflexivity|]. split; [exact Hr1|].
      split; [exact Hin|]. split; [lia|]. intros _ Hne. now apply Hl.
  - exists [], (with_ping w). split; [reflexivity|]. split; [reflexivity|].
    split; [intros x []|]. split.
    + intros _. split; [now rewrite Nat.min_0_r | now exists []].
    + intros _ Hne. now contradiction Hne.
Qed.

Lemma sget_without_pop_witness :
  exists drawn w',
    sget 0 "seen" 5 false stocked = Some (Ret (map RStr drawn), w')
    /\ keyspace w' = keyspace stocked
    /\ List.length drawn = 2%nat.
Proof.
  assert (Ha : alive stocked) by (intros k; reflexivity).
  assert (Hh : holds_set stocked "seen") by (vm_compute; exact I).
  destruct (sget_without_pop 0 "seen" 5 stocked Ha Hh)
    as (drawn & w' & Hr & Hk & _ & Hl & _).
  exists drawn, w'. split; [exact Hr|]. split; [exact Hk|].
  destruct Hl as [Hl _]; [lia|]. exact Hl.
Defined.

(** *** Popping members *)

Lemma cmd_spop_member table members w :
  keyspace w !! table = Some (ESet members) -> members <> [] ->
  exists x rest,
    cmd_spop table w
    = (Ret (RStr x), store table (ESet rest) (with_roll w))
    /\ Permutation members (x :: rest)
    /\ List.length members = S (List.length rest).
Proof.
  intros Hk Hne. unfold cmd_spop. rewrite Hk.
  destruct members as [|m ms]; [contradiction|].
  set (i := (dice w (rolls w) mod List.length (m :: ms))%nat).
  destruct (take_out_spec (m :: ms) i) as (x & rest & Ht & Hp & Hlen).
  { apply Nat.mod_upper_bound. discriminate. }
  rewrite Ht. now exists x, rest.
Qed.

(** A pipeline of [n] [SPOP]s on a set of at least [n] members removes [n]
    distinct members and returns them in the order drawn. *)
Lemma execute_spops_some table : forall n members w,
  keyspace w !! table = Some (ESet members) ->
  (1 <= n <= List.length members)%nat ->
  exists drawn w',
    execute_all (repeat (CmdSpop table) n) w = (map Ret (map RStr drawn), w')
    /\ List.length drawn = n
    /\ Permutation members (drawn ++ set_at w' table)
    /\ holds_set w' table /\ touches_only table w w'.
Proof.
  induction n as [|n IH]; intros members w Hk Hn; [lia|].
  cbn [repeat execute_all run_command].
  destruct (cmd_spop_member table members w Hk) as (x & rest & -> & Hp & Hlen).
  { intros ->. simpl in Hn. lia. }
  set (w1 := store table (ESet rest) (with_roll w)).
  assert (Ht1 : touches_only table w w1).
  { eapply touches_only_trans; [apply touches_only_roll|].
    apply touches_only_store. }
  destruct n as [|n].
  - exists [x], w1. split; [reflexivity|]. split; [reflexivity|].
    unfold w1. rewrite set_at_store. split; [exact Hp|].
    split; [apply holds_set_store | exact Ht1].
  - destruct (IH rest w1) as (drawn & w2 & -> & Hl & Hp2 & Hh2 & Ht2).
    + unfold w1. rewrite lookup_store.
      destruct rest; [simpl in *; lia | reflexivity].
    + lia.
    + exists (x :: drawn), w2. split; [reflexivity|].
      split; [simpl; lia|]. split; [|split; [exact Hh2|]].
      * rewrite Hp. cbn [List.app]. now rewrite Hp2.
      * eapply touches_only_trans; eassumption.
Qed.

(** What [sget] does once the count is clamped to the size of the set. *)
Definition sget_clamped (fuel : nat) (table : string) (count : Z)
  : task (list reply) :=
  if count =? 0 then task_ret []
  else if 1 <? count then
    go _ <- _redis fuel;
    task_io (execute (repeat (CmdSpop table) (Z.to_nat count)))
  else
    go _ <- _redis fuel;
    go r <- task_io (cmd_spop table);
    task_ret [r].

Lemma sget_pop_clamps fuel table count w :
  alive w -> holds_set w table ->
  exists wc,
    sget fuel table count true w
    = sget_clamped fuel table
        (Z.min count (Z.of_nat (List.length (set_at w table)))) wc
    /\ alive wc /\ keyspace wc = keyspace w.
Proof.
  intros Ha Hh. unfold sget. unfold task_bind at 1.
  rewrite alive_count_set by assumption.
  assert (Ha1 : alive (with_ping w)) by now apply alive_with_ping.
  destruct (Z.leb_spec count (Z.of_nat (List.length (set_at w table)))) as [Hc|Hc].
  - exists (with_ping w). rewrite Z.min_l by exact Hc.
    split; [reflexivity|]. split; [exact Ha1 | reflexivity].
  - exists (with_ping (with_ping w)). rewrite Z.min_r by lia.
    unfold task_bind at 1. rewrite alive_count_set by assumption.
    split; [reflexivity|]. split; [now apply alive_with_ping | reflexivity].
Qed.

Lemma set_at_cases table w :
  holds_set w table ->
  (set_at w table = []
   /\ (keyspace w !! table = None \/ keyspace w !! table = Some (ESet [])))
  \/ (set_at w table <> []
      /\ keyspace w !! table = Some (ESet (set_at w table))).
Proof.
  unfold holds_set, set_at.
  destruct (keyspace w !! table) as [[items|[|m ms]]|];
    [contradiction | auto | right | auto].
  split; [discriminate | reflexivity].
Qed.

Lemma sget_clamped_spec fuel table c w :
  alive w -> holds_set w table ->
  c <= Z.of_nat (List.length (set_at w table)) ->
  exists l w',
    sget_clamped fuel table c w = Some (Ret l, w')
    /\ touches_only table w w'
    /\ (0 <= c ->
        exists drawn,
          l = map RStr drawn /\ List.length drawn = Z.to_nat c
          /\ Permutation (set_at w table) (drawn ++ set_at w' table))
    /\ (c < 0 ->
        (set_at w table = [] -> l = [RNone] /\ set_at w' table = [])
        /\ (set_at w table <> [] ->
            exists x, l = [RStr x]
                      /\ Permutation (set_at w table) (x :: set_at w' table))).
Proof.
  intros Ha Hh Hc. unfold sget_clamped.
  destruct (Z.eqb_spec c 0) as [->|N0].
  - exists [], w. split; [reflexivity|]. split; [apply touches_only_refl|].
    split; [|lia]. intros _. exists []. repeat split. reflexivity.
  - destruct (Z.ltb_spec 1 c) as [H1|H1].
    + unfold task_bind. rewrite alive_redis by exact Ha. unfold task_io, execute.
      destruct (set_at_cases table w Hh) as [[E _]|[Hne Hk]];
        [rewrite E in Hc; simpl in Hc; lia|].
      destruct (execute_spops_some table (Z.to_nat c) (set_at w table)
                  (with_ping w) Hk)
        as (drawn & w' & -> & Hl & Hp & _ & Ht); [lia|].
      rewrite collect_rets. exists (map RStr drawn), w'.
      split; [reflexivity|].
      split; [eapply touches_only_trans; [apply touches_only_ping | exact Ht]|].
      split; [|lia]. intros _. now exists drawn.
    + unfold task_bind. rewrite alive_redis by exact Ha. unfold task_io, task_ret.
      destruct (set_at_cases table w Hh) as [[E Hk]|[Hne Hk]].
      * assert (Hs : cmd_spop table (with_ping w) = (Ret RNone, with_ping w)).
        { unfold cmd_spop. cbn [keyspace with_ping].
          destruct Hk as [-> | ->]; reflexivity. }
        rewrite Hs. exists [RNone], (with_ping w). split; [reflexivity|].
        split; [apply touches_only_ping|]. rewrite E in *. simpl in Hc.
        split; [lia|]. intros _. split; [|intros Hne; now contradiction Hne].
        intros _. split; [reflexivity | exact E].
      * destruct (cmd_spop_member table (set_at w table) (with_ping w) Hk Hne)
          as (x & rest & -> & Hp & Hlen).
        eexists [RStr x], _. split; [reflexivity|]. rewrite set_at_store.
        split.
        { eapply touches_only_trans; [apply touches_only_ping|].
          eapply touches_only_trans; [apply touches_only_roll|].
          apply touches_only_store. }
        split.
        { intros H0. exists [x]. split; [reflexivity|].
          split; [simpl; lia | exact Hp]. }
        intros _. split; [intros E; now contradiction Hne|].
        intros _. now exists x.
Qed.

(** X13: on a live connection and a key holding a set (or nothing), [sget]
    with [is_pop=True] returns for every count.  For a count that is not
    negative it removes and returns distinct members, as many as asked for
    or as the set holds, and the set keeps exactly the others.  For a
    negative count it pops one member, and on an empty set it returns the
    one-element list [[None]].  No other key is touched. *)
Theorem sget_pops_members (fuel : nat) (table : string) (count : Z)
    (w : world) :
  alive w -> holds_set w table ->
  exists l w',
    sget fuel table count true w = Some (Ret l, w')
    /\ (0 <= count ->
        exists drawn,
          l = map RStr drawn
          /\ List.length drawn
             = Nat.min (Z.to_nat count) (List.length (set_at w table))
          /\ Permutation (set_at w table) (drawn ++ set_at w' table))
    /\ (count < 0 ->
        (set_at w table = [] -> l = [RNone])
        /\ (set_at w table <> [] ->
            exists x, l = [RStr x]
                      /\ Permutation (set_at w table) (x :: set_at w' table)))
    /\ forall other, other <> table ->
         keyspace w' !! other = keyspace w !! other.
Proof.
  intros Ha Hh.
  destruct (sget_pop_clamps fuel table count w Ha Hh) as (wc & -> & Hac & Hkc).
  assert (Hsc : set_at wc table = set_at w table)
    by (unfold set_at; now rewrite Hkc).
  assert (Hhc : holds_set wc table) by (unfold holds_set; now rewrite Hkc).
  set (size := List.length (set_at w table)) in *.
  destruct (sget_clamped_spec fuel table (Z.min count (Z.of_nat size)) wc
              Hac Hhc)
    as (l & w' & Hr & Ht & Hpos & Hneg); [rewrite Hsc; fold size; lia|].
  rewrite Hsc in Hpos, Hneg.
  exists l, w'. split; [exact Hr|]. split; [|split].
  - intros H0. destruct Hpos as (drawn & Hl & Hlen & Hp); [lia|].
    exists drawn. split; [exact Hl|]. split; [lia | exact Hp].
  - intros H0. destruct Hneg as [He Hne]; [lia|]. split.
    + intros E. now apply He.
    + exact Hne.
  - intros other Ho. rewrite (touches_only_other _ _ _ Ht other Ho).
    now rewrite Hkc.
Qed.

Lemma sget_pops_members_witness :
  exists l w',
    sget 0 "seen" 1 true stocked = Some (Ret l, w')
    /\ List.length l = 1%nat
    /\ List.length (set_at w' "seen") = 1%nat.
Proof.
  assert (Ha : alive stocked) by (intros k; reflexivity).
  assert (Hh : holds_set stocked "seen") by (vm_compute; exact I).
  destruct (sget_pops_members 0 "seen" 1 stocked Ha Hh)
    as (l & w' & Hr & Hpos & _).
  destruct Hpos as (drawn & -> & Hlen & Hp); [lia|].
  exists (map RStr drawn), w'. split; [exact Hr|].
  rewrite length_map. split; [exact Hlen|].
  apply Permutation_length in Hp. rewrite length_app, Hlen in Hp.
  change (List.length (set_at stocked "seen")) with 2%nat in Hp.
  change (Nat.min (Z.to_nat 1) 2) with 1%nat in Hp. lia.
Defined.

End DrawFacts.

(** ** The probe before every command *)

Module ProbeFacts.
Import Py Redis RedisFacts StoreFacts.

(** [k] attempts that the loop retries and then an attempt whose probe
    raises another exception: the loop lets that exception through. *)
Lemma reconnect_raises k : forall fuel rc w e,
  configured w = true ->
  (forall j, (j < k)%nat -> retryable (link w (pings w + j)) = true) ->
  link w (pings w + k) = PingRaises e -> retryable (PingRaises e) = false ->
  (k < fuel)%nat ->
  _reconnect fuel rc w = Some (Raise e, reconnected k w).
Proof.
  induction k as [|k IH]; intros fuel rc w e Hc Hr Hp He Hk.
  - destruct fuel as [|fuel]; [lia|]. cbn [_reconnect].
    unfold get_connect, ping. rewrite Hc.
    replace (pings w + 0)%nat with (pings w) in Hp by lia. rewrite Hp.
    assert (Hw : with_ping w = reconnected 0 w).
    { unfold reconnected, with_ping. f_equal; lia. }
    rewrite Hw. destruct e; try reflexivity; discriminate.
  - destruct fuel as [|fuel]; [lia|].
    rewrite retry_step; auto.
    + rewrite (IH _ _ _ e); auto.
      * unfold reconnected, time_sleep, with_ping; simpl.
        do 3 f_equal; lia.
      * intros j Hj. simpl.
        replace (S (pings w + j)) with (pings w + S j)%nat by lia.
        apply Hr. lia.
      * simpl. replace (S (pings w + k)) with (pings w + S k)%nat by lia.
        exact Hp.
      * lia.
    + replace (pings w) with (pings w + 0)%nat by lia. apply Hr. lia.
Qed.

(** A probe that is not answered, however it fails, starts the reconnect
    loop in the world after that probe. *)
Lemma failed_probe_reconnects fuel w :
  link w (pings w) <> Pong ->
  _redis fuel w
  = match _reconnect fuel 0 (with_ping w) with
    | None => None
    | Some (Ret _, w2) => Some (Ret tt, w2)
    | Some (Raise e, w2) => Some (Raise e, w2)
    end.
Proof.
  intros Hp. unfold _redis, ping.
  destruct (link w (pings w)) as [| |e]; [contradiction | reflexivity..].
Qed.

(** X14: when the probe that precedes a command is not answered, whatever
    way it fails, the client reconnects before the command is sent.  If the
    next [k] connection attempts fail in a way the loop retries and the one
    after them succeeds, the command runs on the reconnected client, after
    [2 * k] seconds of sleep and with the stored data untouched: [lget_count]
    returns the length the server reports.  If instead that attempt's probe
    raises an exception other than a connection or timeout error, the
    command is not sent and that exception reaches the caller. *)
Theorem failed_probe_recovers (fuel k : nat) (table : string) (w : world) :
  configured w = true ->
  link w (pings w) <> Pong ->
  (forall j, (j < k)%nat -> retryable (link w (S (pings w) + j)) = true) ->
  (k < fuel)%nat ->
  let w' := reconnected k (with_ping w) in
  slept w' = slept w + 2 * Z.of_nat k /\ keyspace w' = keyspace w
  /\ (link w (S (pings w) + k) = Pong ->
      _redis fuel w = Some (Ret tt, w')
      /\ lget_count fuel table w = Some (llen table w'))
  /\ (forall e,
        link w (S (pings w) + k) = PingRaises e ->
        retryable (PingRaises e) = false ->
        _redis fuel w = Some (Raise e, w')
        /\ lget_count fuel table w = Some (Raise e, w')).
Proof.
  intros Hc Hp Hr Hk w'. split; [reflexivity|]. split; [reflexivity|].
  assert (Hprobe := failed_probe_reconnects fuel w Hp).
  split.
  - intros Hok.
    assert (E : _reconnect fuel 0 (with_ping w) = Some (Ret true, w')).
    { apply reconnect_success; auto. }
    rewrite E in Hprobe. split; [exact Hprobe|].
    unfold lget_count, task_bind. rewrite Hprobe. reflexivity.
  - intros e He Hne.
    assert (E : _reconnect fuel 0 (with_ping w) = Some (Raise e, w')).
    { apply reconnect_raises; auto. }
    rewrite E in Hprobe. split; [exact Hprobe|].
    unfold lget_count, task_bind. rewrite Hprobe. reflexivity.
Qed.

(** A server whose first probe fails with a response error and whose second
    times out, and that answers from the third on; it holds a list of two
    items. *)
Definition waking : world :=
  {| configured := true; keyspace := <["queue" := EList ["a"; "b"]]> ∅;
     link := fun k =>
       match k with
       | O => PingRaises ResponseError
       | S O => PingRaises TimeoutError
       | _ => Pong
       end;
     pings := 0; dice := fun k => k; rolls := 0; slept := 0 |}.

Lemma failed_probe_recovers_witness :
  lget_count 2 "queue" waking
  = Some (Ret 2, reconnected 1 (with_ping waking))
  /\ slept (reconnected 1 (with_ping waking)) = 2.
Proof.
  assert (Hc : configured waking = true) by reflexivity.
  assert (Hp : link waking (pings waking) <> Pong) by discriminate.
  assert (Hr : forall j, (j < 1)%nat ->
            retryable (link waking (S (pings waking) + j)) = true).
  { intros [|j] Hj; [reflexivity | lia]. }
  destruct (failed_probe_recovers 2 1 "queue" waking Hc Hp Hr ltac:(lia))
    as (Hs & _ & Hok & _).
  split; [|exact Hs]. destruct (Hok eq_refl) as [_ Hl]. exact Hl.
Defined.

End ProbeFacts.

(** ** The RabbitMQ client: recovering the connection, sending *)

Module ChannelFacts.
Import Py RabbitMq RabbitMqFacts.

(** The broker after [n] failed attempts with [n - 1] sleeps of [d]
    between them. *)
Definition exhausted (n : nat) (d : Z) (b : world) : world :=
  {| broker := broker b; attempts := attempts b + n;
     slept := slept b + (Z.of_nat n - 1) * d; connected := connected b |}.

Lemma connect_exhausted n d b :
  1 <= n ->
  (forall j, (j < Z.to_nat n)%nat -> broker b (attempts b + j) = false) ->
  _connect n d b = (Raise ConnectionError, exhausted (Z.to_nat n) d b).
Proof.
  intros Hn Hb. unfold _connect, range1.
  replace (n + 1 - 1) with n by lia.
  destruct (Z.to_nat n) as [|len] eqn:Hlen; [lia|].
  rewrite (connect_loop_exhausted n d len 1 b).
  - unfold exhausted. f_equal. f_equal; lia.
  - lia.
  - intros j Hj. apply Hb. lia.
Qed.

(** The loop on the client makes the attempts of the loop on the broker;
    when it raises, the client's handles are as before. *)
Lemma client_loop_raises n d todo : forall c e b',
  connect_loop n d todo (net c) = (Raise e, b') ->
  client_connect_loop n d todo c = (Raise e, with_net b' c).
Proof.
  induction todo as [|attempt todo IH]; intros c e b'; [discriminate|].
  cbn [connect_loop client_connect_loop]. unfold try_connect.
  destruct (broker (net c) (attempts (net c))); [discriminate|].
  destruct (attempt <? n).
  - intros H. apply (IH (with_net _ c)) in H. exact H.
  - intros [= <- <-]. reflexivity.
Qed.

Lemma client_connect_exhausted n d c :
  1 <= n ->
  (forall j, (j < Z.to_nat n)%nat ->
     broker (net c) (attempts (net c) + j) = false) ->
  client_connect n d c
  = (Raise ConnectionError, with_net (exhausted (Z.to_nat n) d (net c)) c).
Proof.
  intros Hn Hb. apply client_loop_raises. now apply connect_exhausted.
Qed.

(** The handles call for a recovery that the first step cannot provide
    without the broker. *)
Definition needs_broker (c : client) : Prop :=
  connection c <> Open \/ (channel c <> Open /\ channel_opens c = false).

(** How many times [_ensure_connection] then runs [_connect]. *)
Definition rounds (c : client) : nat :=
  match connection c with
  | Open => 1
  | _ => 2
  end.

Lemma ensure_connection_exhausted (n d : Z) (c : client) :
  needs_broker c -> 1 <= n ->
  (forall j, (j < rounds c * Z.to_nat n)%nat ->
     broker (net c) (attempts (net c) + j) = false) ->
  exists c',
    _ensure_connection n d c = (Raise ConnectionError, c')
    /\ attempts (net c') = (attempts (net c) + rounds c * Z.to_nat n)%nat
    /\ slept (net c') = slept (net c) + Z.of_nat (rounds c) * ((n - 1) * d)
    /\ connection c' = connection c /\ channel c' = channel c
    /\ published c' = published c /\ exchanges c' = exchanges c.
Proof.
  intros Hneed Hn Hb. unfold _ensure_connection.
  assert (Hone : forall c0 : client,
            net c0 = net c ->
            (forall j, (j < Z.to_nat n)%nat ->
               broker (net c) (attempts (net c) + j) = false) ->
            client_connect n d c0
            = (Raise ConnectionError,
               with_net (exhausted (Z.to_nat n) d (net c)) c0)).
  { intros c0 E H. rewrite <- E. apply client_connect_exhausted; [exact Hn|].
    now rewrite E. }
  unfold rounds in *. destruct (connection c) eqn:Hconn.
  - rewrite Hone by (auto; intros j Hj; apply Hb; lia).
    rewrite client_connect_exhausted.
    + eexists. split; [reflexivity|]. cbn. rewrite Hconn.
      repeat split; lia.
    + exact Hn.
    + intros j Hj. cbn.
      replace (attempts (net c) + Z.to_nat n + j)%nat
        with (attempts (net c) + (Z.to_nat n + j))%nat by lia.
      apply Hb. lia.
  - rewrite Hone by (auto; intros j Hj; apply Hb; lia).
    rewrite client_connect_exhausted.
    + eexists. split; [reflexivity|]. cbn. rewrite Hconn.
      repeat split; lia.
    + exact Hn.
    + intros j Hj. cbn.
      replace (attempts (net c) + Z.to_nat n + j)%nat
        with (attempts (net c) + (Z.to_nat n + j))%nat by lia.
      apply Hb. lia.
  - destruct Hneed as [Hneed|[Hchan Hopen]]; [now contradiction Hneed|].
    assert (Hfirst : match channel c with
                     | Open => (Ret tt, c)
                     | _ => open_channel c
                     end = (Raise (OtherError "channel"), c)).
    { unfold open_channel. rewrite Hopen.
      destruct (channel c); [reflexivity | reflexivity | contradiction]. }
    rewrite Hfirst. rewrite Hone by (auto; intros j Hj; apply Hb; lia).
    eexists. split; [reflexivity|]. cbn. rewrite Hconn.
    repeat split; lia.
Qed.

(** X15: when the connection is missing or closed and the broker cannot be
    reached, [_ensure_connection] runs the bounded loop of [_connect] twice:
    it raises [ConnectionError] only after [2 * reconnect_attempts]
    attempts, having slept [reconnect_delay] after all but the last attempt
    of each round.  When only the channel is down and cannot be reopened,
    it runs the loop once.  The handles stay as they were and nothing is
    published. *)
Theorem ensure_connection_rounds (n d : Z) (c : client) :
  needs_broker c -> 1 <= n ->
  (forall j, (j < rounds c * Z.to_nat n)%nat ->
     broker (net c) (attempts (net c) + j) = false) ->
  exists c',
    _ensure_connection n d c = (Raise ConnectionError, c')
    /\ attempts (net c') = (attempts (net c) + rounds c * Z.to_nat n)%nat
    /\ slept (net c') = slept (net c) + Z.of_nat (rounds c) * ((n - 1) * d)
    /\ connection c' = connection c /\ channel c' = channel c
    /\ published c' = published c.
Proof.
  intros Hneed Hn Hb.
  destruct (ensure_connection_exhausted n d c Hneed Hn Hb)
    as (c' & Hr & Ha & Hs & Hc & Hch & Hp & _).
  exists c'. auto 10.
Qed.

(** A client that never connected, facing a broker that is down. *)
Definition stranded : client :=
  {| net := {| broker := fun _ => false; attempts := 0; slept := 0;
               connected := false |};
     connection := Missing; channel := Missing; channel_opens := true;
     exchanges := []; published := [] |}.

Lemma ensure_connection_rounds_witness :
  exists c',
    _ensure_connection 3 5 stranded = (Raise ConnectionError, c')
    /\ attempts (net c') = 6%nat /\ slept (net c') = 20.
Proof.
  destruct (ensure_connection_rounds 3 5 stranded) as (c' & Hr & Ha & Hs & _).
  - left. discriminate.
  - lia.
  - reflexivity.
  - exists c'. split; [exact Hr|]. split; [exact Ha | exact Hs].
Defined.

(** *** [send_message] *)

(** The broker as the client reaches it when its handles can be made
    usable: at once when the connection is open and the channel is open or
    can be reopened, and after one successful attempt when the connection
    is down. *)
Definition recovered (n : Z) (c : client) : option world :=
  match connection c with
  | Open =>
      match channel c with
      | Open => Some (net c)
      | _ => if channel_opens c then Some (net c) else None
      end
  | _ =>
      if (1 <=? n) && broker (net c) (attempts (net c))
      then Some (snd (try_connect (net c)))
      else None
  end.

Lemma range1_first n :
  1 <= n -> exists rest, range1 (n + 1) = 1 :: rest.
Proof.
  intros Hn. unfold range1. replace (n + 1 - 1) with n by lia.
  destruct (Z.to_nat n) as [|k] eqn:E; [lia|].
  eexists. reflexivity.
Qed.

Lemma ensure_connection_recovered n d c b' :
  recovered n c = Some b' ->
  _ensure_connection n d c = (Ret tt, with_handles Open Open (with_net b' c)).
Proof.
  unfold recovered, _ensure_connection.
  destruct c as [b conn chan opens exs pub]. cbn.
  destruct conn.
  - destruct (Z.leb_spec 1 n) as [Hn|]; [|discriminate]. cbn [andb].
    destruct (broker b (attempts b)) eqn:Hb; [|discriminate].
    intros [= <-]. unfold client_connect.
    destruct (range1_first n Hn) as [rest ->].
    cbn. now rewrite Hb.
  - destruct (Z.leb_spec 1 n) as [Hn|]; [|discriminate]. cbn [andb].
    destruct (broker b (attempts b)) eqn:Hb; [|discriminate].
    intros [= <-]. unfold client_connect.
    destruct (range1_first n Hn) as [rest ->].
    cbn. now rewrite Hb.
  - destruct chan.
    + unfold open_channel. cbn. destruct opens; [|discriminate].
      now intros [= <-].
    + unfold open_channel. cbn. destruct opens; [|discriminate].
      now intros [= <-].
    + now intros [= <-].
Qed.

(** X16: when the client's handles are usable or can be made so (the
    connection and the channel are open, or the channel can be reopened, or
    the connection is down and the first attempt reaches the broker),
    [send_message] declares the exchange and publishes the message exactly
    once, with the routing key and the body as given, after everything
    published before; it makes no connection attempt beyond the one that
    succeeded. *)
Theorem send_message_publishes (n d : Z)
    (exchange routing_key text exchange_type : string) (c : client)
    (b' : world) :
  recovered n c = Some b' ->
  send_message n d exchange routing_key text exchange_type c
  = (Ret tt,
     {| net := b'; connection := Open; channel := Open;
        channel_opens := channel_opens c;
        exchanges := (exchanges c ++ [(exchange, exchange_type)])%list;
        published :=
          (published c
             ++ [{| to_exchange := exchange; with_key := routing_key;
                    body := text |}])%list |}).
Proof.
  intros Hrec. unfold send_message, declare_exchange, io_bind.
  rewrite (ensure_connection_recovered n d c b' Hrec).
  rewrite (ensure_connection_recovered n d
             (with_handles Open Open (with_net b' c)) b' eq_refl).
  reflexivity.
Qed.

(** A client whose channel was closed, on an open connection. *)
Definition half_open : client :=
  {| net := {| broker := fun _ => false; attempts := 0; slept := 0;
               connected := true |};
     connection := Open; channel := Closed; channel_opens := true;
     exchanges := []; published := [] |}.

Lemma send_message_publishes_witness :
  exists c',
    send_message 3 5 "logs" "" "hello" "fanout" half_open = (Ret tt, c')
    /\ published c'
       = [{| to_exchange := "logs"; with_key := ""; body := "hello" |}]
    /\ attempts (net c') = 0%nat.
Proof.
  eexists. split.
  - apply (send_message_publishes 3 5 "logs" "" "hello" "fanout" half_open
             (net half_open)).
    reflexivity.
  - split; reflexivity.
Defined.

(** X17: when the handles are not usable and the broker cannot be reached,
    [send_message] still returns normally: the [ConnectionError] of the
    recovery is logged and dropped, the message is not published and no
    exchange is declared, after all the attempts of the recovery. *)
Theorem send_message_drops_silently (n d : Z)
    (exchange routing_key text exchange_type : string) (c : client) :
  needs_broker c -> 1 <= n ->
  (forall j, (j < rounds c * Z.to_nat n)%nat ->
     broker (net c) (attempts (net c) + j) = false) ->
  exists c',
    send_message n d exchange routing_key text exchange_type c = (Ret tt, c')
    /\ published c' = published c /\ exchanges c' = exchanges c
    /\ attempts (net c') = (attempts (net c) + rounds c * Z.to_nat n)%nat.
Proof.
  intros Hneed Hn Hb.
  destruct (ensure_connection_exhausted n d c Hneed Hn Hb)
    as (c' & Hr & Ha & _ & _ & _ & Hp & He).
  exists c'. unfold send_message, io_bind. rewrite Hr. auto.
Qed.

Lemma send_message_drops_silently_witness :
  exists c',
    send_message 3 5 "logs" "" "hello" "fanout" stranded = (Ret tt, c')
    /\ published c' = [] /\ attempts (net c') = 6%nat.
Proof.
  destruct (send_message_drops_silently 3 5 "logs" "" "hello" "fanout"
              stranded)
    as (c' & Hr & Hp & _ & Ha).
  - left. discriminate.
  - lia.
  - reflexivity.
  - exists c'. split; [exact Hr|]. split; [exact Hp | exact Ha].
Defined.

(** *** [_connect]: success after failures, and no attempts at all *)

(** The broker after [k] failed attempts, each followed by a sleep of [d],
    and a successful one. *)
Definition reached (k : nat) (d : Z) (b : world) : world :=
  {| broker := broker b; attempts := attempts b + k + 1;
     slept := slept b + Z.of_nat k * d; connected := true |}.

Lemma client_loop_reaches n d : forall k first len c,
  (k < len)%nat -> Z.of_nat (first + len) = n + 1 ->
  (forall j, (j < k)%nat -> broker (net c) (attempts (net c) + j) = false) ->
  broker (net c) (attempts (net c) + k) = true ->
  client_connect_loop n d (map Z.of_nat (seq first len)) c
  = (Ret tt, with_handles Open Open (with_net (reached k d (net c)) c)).
Proof.
  induction k as [|k IH]; intros first len c Hk Hlen Hfail Hok.
  - destruct len as [|len]; [lia|]. cbn [seq map client_connect_loop].
    unfold try_connect. replace (attempts (net c) + 0)%nat
      with (attempts (net c)) in Hok by lia.
    rewrite Hok.
    replace (reached 0 d (net c))
      with {| broker := broker (net c); attempts := S (attempts (net c));
              slept := slept (net c);
              connected := true || connected (net c) |};
      [reflexivity|].
    unfold reached. cbn [orb]. f_equal; lia.
  - destruct len as [|len]; [lia|]. cbn [seq map client_connect_loop].
    unfold try_connect.
    replace (broker (net c) (attempts (net c))) with false
      by (symmetry; replace (attempts (net c))
            with (attempts (net c) + 0)%nat by lia; apply Hfail; lia).
    replace (Z.of_nat first <? n) with true
      by (symmetry; apply Z.ltb_lt; lia).
    rewrite (IH (S first) len).
    + replace (reached (S k) d (net c))
        with (reached k d
                (net (with_net
                        (time_sleep d
                           {| broker := broker (net c);
                              attempts := S (attempts (net c));
                              slept := slept (net c);
                              connected := false || connected (net c) |})
                        c)));
        [reflexivity|].
      unfold reached, time_sleep. cbn. f_equal; lia.
    + lia.
    + lia.
    + intros j Hj. cbn.
      replace (S (attempts (net c) + j)) with (attempts (net c) + S j)%nat
        by lia. apply Hfail. lia.
    + cbn. replace (S (attempts (net c) + k))
        with (attempts (net c) + S k)%nat by lia. exact Hok.
Qed.

(** X20: when the first [k] attempts fail and the next one reaches the
    broker, with [k] below [reconnect_attempts], [_connect] returns after
    [k + 1] attempts and [k] sleeps of [reconnect_delay], and the client
    holds an open connection and an open channel; what it published and
    declared before is kept. *)
Theorem connect_succeeds_after_failures (n d : Z) (k : nat) (c : client) :
  (k < Z.to_nat n)%nat ->
  (forall j, (j < k)%nat -> broker (net c) (attempts (net c) + j) = false) ->
  broker (net c) (attempts (net c) + k) = true ->
  client_connect n d c
  = (Ret tt,
     {| net := reached k d (net c); connection := Open; channel := Open;
        channel_opens := channel_opens c; exchanges := exchanges c;
        published := published c |})
  /\ attempts (reached k d (net c)) = (attempts (net c) + k + 1)%nat
  /\ slept (reached k d (net c)) = slept (net c) + Z.of_nat k * d.
Proof.
  intros Hk Hfail Hok. split; [|split; reflexivity].
  unfold client_connect, range1. replace (n + 1 - 1) with n by lia.
  rewrite (client_loop_reaches n d k 1 (Z.to_nat n) c); auto. lia.
Qed.

(** A broker that answers the third attempt. *)
Definition late : client :=
  {| net := {| broker := fun k => (2 <=? k)%nat; attempts := 0; slept := 0;
               connected := false |};
     connection := Closed; channel := Closed; channel_opens := false;
     exchanges := []; published := [] |}.

Lemma connect_succeeds_after_failures_witness :
  exists c',
    client_connect 3 5 late = (Ret tt, c')
    /\ connection c' = Open /\ attempts (net c') = 3%nat
    /\ slept (net c') = 10.
Proof.
  destruct (connect_succeeds_after_failures 3 5 2 late) as (Hr & Ha & Hs).
  - lia.
  - intros [|[|j]] Hj; [reflexivity | reflexivity | lia].
  - reflexivity.
  - eexists. split; [exact Hr|]. split; [reflexivity|].
    split; [exact Ha | exact Hs].
Defined.

(** X21: with [reconnect_attempts] at 0 or below, the loop of [_connect]
    has nothing to iterate over: [_connect] returns normally without a
    single attempt.  [_ensure_connection] on a client without connection
    then returns normally too, with the handles still missing, and
    [send_message] drops the message: nothing is published, nothing is
    raised. *)
Theorem no_attempts_no_error (n d : Z)
    (exchange routing_key text exchange_type : string) (c : client) :
  n <= 0 -> connection c = Missing -> channel c = Missing ->
  client_connect n d c = (Ret tt, c)
  /\ _ensure_connection n d c = (Ret tt, c)
  /\ send_message n d exchange routing_key text exchange_type c = (Ret tt, c).
Proof.
  intros Hn Hconn Hchan.
  assert (Hc : client_connect n d c = (Ret tt, c)).
  { unfold client_connect, range1.
    replace (Z.to_nat (n + 1 - 1)) with O by lia. reflexivity. }
  assert (He : _ensure_connection n d c = (Ret tt, c)).
  { unfold _ensure_connection. now rewrite Hconn, Hc. }
  split; [exact Hc|]. split; [exact He|].
  unfold send_message, declare_exchange, io_bind. rewrite He, He.
  unfold exchange_declare, on_channel. now rewrite Hchan.
Qed.

Lemma no_attempts_no_error_witness :
  send_message 0 5 "logs" "" "hello" "fanout" stranded = (Ret tt, stranded)
  /\ published stranded = [].
Proof.
  split; [|reflexivity].
  apply (no_attempts_no_error 0 5 "logs" "" "hello" "fanout" stranded);
    [lia | reflexivity | reflexivity].
Defined.

End ChannelFacts.

(** ** [find]: following the cursor *)

Module FindFacts.
Import Py Mongo.

(** The [batchSize] that [find] passes on with [getMore]. *)
Definition batch_size (kwargs : dict value) : value :=
  match dict_get "batchSize" kwargs with
  | Some size => size
  | None => VInt 100
  end.

Section Paging.
Context {St : Type} (db : database St).

(** The server answers the [getMore] commands for [coll_name], each sent
    with the cursor id of the reply before it, with [replies], in order. *)
Fixpoint pages (coll_name : string) (size : value) (previous : Z)
    (replies : list cursor_reply) (s s' : St) : Prop :=
  match replies with
  | [] => s' = s
  | r :: rest =>
      exists s1,
        run_command db (GetMore previous coll_name size) s = (Ret r, s1)
        /\ pages coll_name size (cursor_id r) rest s1 s'
  end.

(** Every reply but the last leaves the cursor open, the last closes it. *)
Fixpoint closes_at_end (first : cursor_reply) (more : list cursor_reply)
  : Prop :=
  match more with
  | [] => cursor_id first = 0
  | r :: rest => cursor_id first <> 0 /\ closes_at_end r rest
  end.

Lemma find_more_pages coll_name size : forall more fuel first dataset s s',
  pages coll_name size (cursor_id first) more s s' ->
  closes_at_end first more ->
  (List.length more <= fuel)%nat ->
  find_more db fuel coll_name size (cursor_id first) dataset s
  = Some (Ret (dataset ++ concat (map cursor_batch more))%list, s').
Proof.
  induction more as [|r more IH]; intros fuel first dataset s s' Hp Hc Hf.
  - cbn in Hp, Hc. subst s'. rewrite Hc.
    destruct fuel; cbn; now rewrite app_nil_r.
  - destruct Hp as (s1 & Hr & Hp). destruct Hc as [Hne Hc].
    destruct fuel as [|fuel]; [simpl in Hf; lia|].
    cbn [find_more]. replace (cursor_id first =? 0) with false
      by (symmetry; now apply Z.eqb_neq).
    rewrite Hr. rewrite (IH fuel r _ s1 s' Hp Hc) by (simpl in Hf; lia).
    cbn [map concat]. now rewrite app_assoc.
Qed.

End Paging.

(** The filter of the [find] command: [{}] when no condition is given. *)
Definition filter_of (condition : option document) : document :=
  match condition with
  | None => []
  | Some condition => condition
  end.

(** X18: [find] sends one [find] command, with the empty filter when no
    condition is given, and then follows the cursor: as long as the last
    reply's cursor id is not 0 it sends [getMore] with that id, the
    collection name and the [batchSize] keyword argument (100 when absent).
    When the replies end with the cursor id 0, it returns the documents of
    the first batch followed by those of every next batch, in the order
    received, and sends nothing more. *)
Theorem find_follows_the_cursor {St : Type} (db : database St) (fuel : nat)
    (coll_name : string) (condition : option document) (limit : Z)
    (kwargs : dict value) (first : cursor_reply) (more : list cursor_reply)
    (s s0 s' : St) :
  run_command db (Find coll_name (filter_of condition) limit kwargs) s
  = (Ret first, s0) ->
  pages db coll_name (batch_size kwargs) (cursor_id first) more s0 s' ->
  closes_at_end first more ->
  (List.length more <= fuel)%nat ->
  find db fuel coll_name condition limit kwargs s
  = Some (Ret (concat (map cursor_batch (first :: more))), s').
Proof.
  intros Hfirst Hp Hc Hf. unfold find.
  fold (filter_of condition). fold (batch_size kwargs). rewrite Hfirst.
  now apply find_more_pages.
Qed.

(** A server that answers from a script and records what it was sent. *)
Record scripted : Type := {
  pending : list cursor_reply;
  sent : list db_command
}.

Definition script_db : database scripted :=
  {| command := fun c s =>
       match pending s with
       | [] => (Raise (OtherError "no reply"), s)
       | r :: rest =>
           (Ret r, {| pending := rest; sent := (sent s ++ [c])%list |})
       end |}.

Definition three_pages : scripted :=
  {| pending :=
       [{| cursor_id := 7; cursor_batch := [[("a", VInt 1)]] |};
        {| cursor_id := 7; cursor_batch := [[("a", VInt 2)]; [("a", VInt 3)]] |};
        {| cursor_id := 0; cursor_batch := [] |};
        {| cursor_id := 9; cursor_batch := [[("a", VInt 4)]] |}];
     sent := [] |}.

Lemma find_follows_the_cursor_witness :
  find script_db 5 "items" None 0 [("batchSize", VInt 2)] three_pages
  = Some (Ret [[("a", VInt 1)]; [("a", VInt 2)]; [("a", VInt 3)]],
          {| pending := [{| cursor_id := 9; cursor_batch := [[("a", VInt 4)]] |}];
             sent := [Find "items" [] 0 [("batchSize", VInt 2)];
                      GetMore 7 "items" (VInt 2);
                      GetMore 7 "items" (VInt 2)] |}).
Proof.
  apply (find_follows_the_cursor script_db 5 "items" None 0
           [("batchSize", VInt 2)]
           {| cursor_id := 7; cursor_batch := [[("a", VInt 1)]] |}
           [{| cursor_id := 7;
               cursor_batch := [[("a", VInt 2)]; [("a", VInt 3)]] |};
            {| cursor_id := 0; cursor_batch := [] |}]
           three_pages
           {| pending := tl (pending three_pages);
              sent := [Find "items" [] 0 [("batchSize", VInt 2)]] |}).
  - reflexivity.
  - eexists. split; [reflexivity|]. eexists. split; reflexivity.
  - cbn. repeat split; discriminate.
  - simpl. lia.
Defined.

End FindFacts.

(** ** [add_batch]: conflicts resolved with condition fields, or logged *)

Module UpsertFacts.
Import Py Mysql Mongo MongoFacts.

Lemma dict_get_set_eq {V : Type} (k : string) (v : V) (d : dict V) :
  dict_get k (dict_set k v d) = Some v.
Proof.
  induction d as [|[k' v'] d IH]; cbn [dict_set dict_get].
  - now rewrite String.eqb_refl.
  - destruct (String.eqb k k') eqn:E; cbn [dict_get]; now rewrite E.
Qed.

Lemma dict_get_set_ne {V : Type} (k k' : string) (v : V) (d : dict V) :
  k <> k' -> dict_get k (dict_set k' v d) = dict_get k d.
Proof.
  intros Hne. induction d as [|[k2 v2] d IH]; cbn [dict_set dict_get].
  - now apply String.eqb_neq in Hne as ->.
  - destruct (String.eqb k' k2) eqn:E; cbn [dict_get].
    + apply String.eqb_eq in E. subst k2.
      now apply String.eqb_neq in Hne as ->.
    + now rewrite IH.
Qed.

(** A dict comprehension over keys: every key of the list gets its value. *)
Lemma dict_get_comprehension {V : Type} (f : string -> V) (k : string) :
  forall keys d,
    In k keys ->
    dict_get k
      (fold_left (fun d p => dict_set (fst p) (snd p) d)
         (map (fun key => (key, f key)) keys) d)
    = Some (f k).
Proof.
  assert (Hkeep : forall keys d,
            dict_get k d = Some (f k) ->
            dict_get k
              (fold_left (fun d p => dict_set (fst p) (snd p) d)
                 (map (fun key => (key, f key)) keys) d)
            = Some (f k)).
  { induction keys as [|c keys IH]; intros d Hd; [exact Hd|].
    cbn [map fold_left fst snd]. apply IH.
    destruct (String.eqb_spec k c) as [<-|Hne].
    - apply dict_get_set_eq.
    - now rewrite dict_get_set_ne. }
  induction keys as [|c keys IH]; intros d Hin; [contradiction|].
  cbn [map fold_left fst snd]. destruct (String.eqb_spec k c) as [<-|Hne].
  - apply Hkeep, dict_get_set_eq.
  - apply IH. destruct Hin as [->|Hin]; [contradiction | exact Hin].
Qed.

(** The record has a value for every one of the fields. *)
Definition has_fields (data : document) (fields : list string) : Prop :=
  Forall (fun field => dict_get field data <> None) fields.

(** With every field present, [{f: data[f] for f in fields}] is the dict
    that [data.get] builds as well. *)
Lemma doc_of_data_present data : forall fields doc,
  has_fields data fields ->
  doc_of_data data fields doc
  = Ret (fold_left (fun d p => dict_set (fst p) (snd p) d)
           (map (fun key =>
                   (key, match dict_get key data with
                         | Some v => v
                         | None => VNone
                         end)) fields) doc).
Proof.
  induction fields as [|f fields IH]; intros doc H; [reflexivity|].
  inversion H as [|? ? Hf Hrest]; subst.
  cbn [doc_of_data map fold_left fst snd].
  destruct (dict_get f data) as [v|]; [|contradiction]. now apply IH.
Qed.

(** The duplicate-key conflicts among the write errors, in order. *)
Definition conflicts_of (errs : list write_error) : list write_error :=
  List.filter (fun e => code e =? 11000) errs.

(** The document of the [$set] update for a conflicting record. *)
Definition update_doc (update_columns : list string)
    (update_columns_value : list value) (data : document) : document :=
  match update_columns_value with
  | _ :: _ => dict_of_pairs (combine update_columns update_columns_value)
  | [] => doc_of_data_get data update_columns
  end.

(** The backend's update and replace calls complete. *)
Definition reliable {St : Type} (coll : collection St) : Prop :=
  (forall c d s, exists s', update_one coll c d s = (Ret tt, s'))
  /\ (forall c d s, exists s', replace_one coll c d s = (Ret tt, s')).

Section Resolution.
Context {St : Type} (coll : collection St).

(** The collection after one conflict is resolved: the record's values
    for the condition fields select the stored document, which is updated
    in the update columns or replaced by the record. *)
Definition settle (replace : bool) (update_columns : list string)
    (update_columns_value : list value) (condition_fields : list string)
    (s : St) (error : write_error) : St :=
  let data := op error in
  let condition := doc_of_data_get data condition_fields in
  match update_columns with
  | _ :: _ =>
      snd (update_one coll condition
             (update_doc update_columns update_columns_value data) s)
  | [] => if replace then snd (replace_one coll condition data s) else s
  end.

Lemma resolve_settles replace update_columns update_columns_value
    condition_fields errs : forall add_count w,
  condition_fields <> [] ->
  reliable coll ->
  resolves replace update_columns ->
  Forall (fun e => has_fields (op e) condition_fields) (conflicts_of errs) ->
  resolve coll replace update_columns update_columns_value condition_fields
    errs add_count w
  = (Ret (add_count - Z.of_nat (conflicts_in errs)),
     {| server :=
          fold_left
            (settle replace update_columns update_columns_value
               condition_fields)
            (conflicts_of errs) (server w);
        logged := logged w |}).
Proof.
  intros add_count w Hcf [Hu Hr] Hmode. revert add_count w.
  induction errs as [|e errs IH]; intros add_count w Hall.
  - destruct w. cbn. unfold io_ret. repeat f_equal. lia.
  - cbn [resolve]. unfold conflicts_of, conflicts_in in *.
    cbn [List.filter] in *. destruct (code e =? 11000) eqn:Hcode.
    + inversion Hall as [|? ? He Hrest]; subst.
      cbn [List.length fold_left].
      replace (add_count - Z.of_nat (S (List.length
                 (List.filter (fun e0 => code e0 =? 11000) errs))))
        with (add_count - 1 - Z.of_nat (List.length
                 (List.filter (fun e0 => code e0 =? 11000) errs))) by lia.
      assert (Hcond : get_condition condition_fields e
                      = Ret (doc_of_data_get (op e) condition_fields)).
      { unfold get_condition. destruct condition_fields as [|f fs];
          [contradiction|]. now apply doc_of_data_present. }
      unfold io_bind, io_lift, on_server. rewrite Hcond.
      destruct update_columns as [|key keys].
      * destruct Hmode as [?| ->]; [contradiction|].
        destruct (Hr (doc_of_data_get (op e) condition_fields) (op e)
                    (server w)) as [s' Hs'].
        rewrite Hs'. rewrite (IH _ _ Hrest). cbn [server logged].
        replace (settle true [] update_columns_value condition_fields
                   (server w) e) with s'
          by (unfold settle; now rewrite Hs').
        reflexivity.
      * destruct (Hu (doc_of_data_get (op e) condition_fields)
                    (update_doc (key :: keys) update_columns_value (op e))
                    (server w)) as [s' Hs'].
        replace (settle replace (key :: keys) update_columns_value
                   condition_fields (server w) e) with s'
          by (unfold settle; now rewrite Hs').
        unfold update_doc in Hs'. rewrite Hs'.
        rewrite (IH _ _ Hrest). reflexivity.
    + now apply IH.
Qed.

(** Without update columns and without [replace], every conflict is
    logged and counted, and the collection is not touched. *)
Lemma resolve_logs update_columns_value condition_fields errs :
  forall add_count w,
  resolve coll false [] update_columns_value condition_fields errs add_count w
  = (Ret (add_count - Z.of_nat (conflicts_in errs)),
     {| server := server w;
        logged := (logged w ++ conflicts_of errs)%list |}).
Proof.
  induction errs as [|e errs IH]; intros add_count w.
  - destruct w. cbn. unfold io_ret. rewrite app_nil_r. repeat f_equal. lia.
  - cbn [resolve]. unfold conflicts_of, conflicts_in in *.
    cbn [List.filter]. destruct (code e =? 11000).
    + unfold io_bind, logging_error. rewrite IH.
      cbn [server logged List.length]. rewrite <- app_assoc. cbn [List.app].
      f_equal. f_equal. lia.
    + apply IH.
Qed.

End Resolution.

(** X19: with condition fields, [add_batch] in the update or in the replace
    policy resolves every duplicate-key conflict of the bulk insert, in the
    order of the write errors: the stored document is selected by the
    record's values for the condition fields and is updated in the update
    columns, with the replacement values or else with the record's own, or
    is replaced by the record.  Nothing is logged, and the call returns
    the number of records minus the number of conflicts.  An update column
    the record lacks is set to [None]. *)
Theorem condition_fields_resolve {St : Type} (coll : collection St)
    (datas : list document) (replace : bool) (update_columns : columns)
    (update_columns_value : list value) (condition_fields : list string)
    (w w1 : world St) (errs : list write_error) :
  datas <> [] ->
  on_server (insert_many coll datas) w = (Raise (BulkWriteError errs), w1) ->
  condition_fields <> [] ->
  resolves replace (columns_list update_columns) ->
  reliable coll ->
  Forall (fun e => has_fields (op e) condition_fields) (conflicts_of errs) ->
  add_batch coll datas replace update_columns update_columns_value
    condition_fields w
  = (Ret (Z.of_nat (List.length datas) - Z.of_nat (conflicts_in errs)),
     {| server :=
          fold_left
            (settle coll replace (columns_list update_columns)
               update_columns_value condition_fields)
            (conflicts_of errs) (server w1);
        logged := logged w1 |})
  /\ forall key data,
       In key (columns_list update_columns) -> dict_get key data = None ->
       dict_get key (update_doc (columns_list update_columns) [] data)
       = Some VNone.
Proof.
  intros Hne Hins Hcf Hmode Hrel Hall. split.
  - unfold add_batch. destruct datas as [|d datas]; [contradiction|].
    rewrite Hins. now apply resolve_settles.
  - intros key data Hin Hnone.
    unfold update_doc, doc_of_data_get, dict_of_pairs.
    rewrite (dict_get_comprehension
               (fun key => match dict_get key data with
                           | Some v => v
                           | None => VNone
                           end) key) by exact Hin.
    now rewrite Hnone.
Qed.

Lemma condition_fields_resolve_witness :
  add_batch (MemoryCollection.memory "id") batch false (ColSeq ["name"]) []
    ["id"] seeded
  = (Ret 1,
     {| server := [[("id", VInt 1); ("name", VStr "b")];
                   [("id", VInt 2); ("name", VStr "z")]];
        logged := [] |}).
Proof.
  refine (proj1 (condition_fields_resolve (MemoryCollection.memory "id") batch
                   false (ColSeq ["name"]) [] ["id"] seeded inserted
                   batch_errors _ _ _ _ _ _)).
  - discriminate.
  - vm_compute. reflexivity.
  - discriminate.
  - left. discriminate.
  - split; intros c d s; eexists; reflexivity.
  - repeat constructor; discriminate.
Defined.

(** X25: what [add_batch] does when nothing is to be resolved.  An empty
    batch returns 0 without a call to the server.  A bulk insert that
    completes returns the number of records.  Without update columns and
    without [replace], the duplicate-key conflicts of the bulk insert are
    logged in order and not resolved, and the call returns the number of
    records minus the number of conflicts, with or without condition
    fields.  An exception of the bulk insert other than [BulkWriteError]
    reaches the caller. *)
Theorem add_batch_unresolved {St : Type} (coll : collection St)
    (datas : list document) (replace : bool) (update_columns : columns)
    (update_columns_value : list value) (condition_fields : list string)
    (w w1 : world St) (r : pyres unit) :
  on_server (insert_many coll datas) w = (r, w1) ->
  datas <> [] ->
  add_batch coll [] replace update_columns update_columns_value
    condition_fields w
  = (Ret 0, w)
  /\ (r = Ret tt ->
      add_batch coll datas replace update_columns update_columns_value
        condition_fields w
      = (Ret (Z.of_nat (List.length datas)), w1))
  /\ (forall errs,
        r = Raise (BulkWriteError errs) ->
        add_batch coll datas false (ColSeq []) update_columns_value
          condition_fields w
        = (Ret (Z.of_nat (List.length datas) - Z.of_nat (conflicts_in errs)),
           {| server := server w1;
              logged := (logged w1 ++ conflicts_of errs)%list |}))
  /\ (forall e,
        r = Raise e -> (forall errs, e <> BulkWriteError errs) ->
        add_batch coll datas replace update_columns update_columns_value
          condition_fields w
        = (Raise e, w1)).
Proof.
  intros Hins Hne. split; [reflexivity|].
  destruct datas as [|d datas]; [contradiction|]. unfold add_batch.
  split; [|split].
  - intros ->. now rewrite Hins.
  - intros errs ->. rewrite Hins. cbn [columns_list]. apply resolve_logs.
  - intros e -> Hother. rewrite Hins.
    destruct e; try reflexivity. now contradiction (Hother writeErrors).
Qed.

Lemma add_batch_unresolved_witness :
  add_batch (MemoryCollection.memory "id") batch false (ColSeq []) [] []
    seeded
  = (Ret 1,
     {| server := [[("id", VInt 1); ("name", VStr "a")];
                   [("id", VInt 2); ("name", VStr "c")]];
        logged := batch_errors |}).
Proof.
  destruct (add_batch_unresolved (MemoryCollection.memory "id") batch false
              (ColSeq []) [] [] seeded inserted
              (Raise (BulkWriteError batch_errors)))
    as (_ & _ & H & _).
  - vm_compute. reflexivity.
  - discriminate.
  - exact (H batch_errors eq_refl).
Defined.

End UpsertFacts.
